(** * RdsHandler: the SSH-tunnelled database connection manager

    A shallow embedding of [src/mcp-server/rds-handler.ts] (class
    [RdsHandler]) and the properties of its connection and tunnel
    registries.

    The handler is a stateful object whose methods talk to four outside
    parties: the SSH client, the local TCP listener, the SQL drivers
    (mysql2 and pg) and the AWS request signer.  The embedding threads the
    handler's fields through a state-and-exception monad; every call that
    leaves the process is appended to a trace, and what the outside party
    answers is read from a [World] of oracles that see the whole trace so
    far.  A theorem quantified over [World] therefore holds for every
    behaviour of the drivers, the network and the clock.

    What the embedding takes for granted or leaves out:
    - a method runs from its first statement to its return without another
      request of the same handler running at its [await]s; what such a
      request could change for the method is the answers of the outside
      and of the clock, which are arbitrary here;
    - [Object.prototype] is the one Node.js starts with: nothing has been
      added to it or removed from it;
    - the byte forwarding between an accepted socket and the SSH channel,
      which none of the methods below observes. *)

From Stdlib Require Import ZArith Ascii Lia.
From stdpp Require Import base tactics option list strings pretty numbers.

Open Scope Z_scope.

(** ** JavaScript values *)

(** What [throw] carries.  The handler itself only throws [new Error(msg)];
    driver and network errors are opaque objects, identified here by their
    message.  A [TypeError] is what the engine throws when a member of
    [undefined] is read. *)
Inductive Error :=
| JsError (message : string)
| JsTypeError (message : string).

(** [undefined.member]: the message is V8's. *)
Definition undefined_member (member : string) : Error :=
  JsTypeError ("Cannot read properties of undefined (reading '" +:+ member +:+ "')").

#[global] Instance Error_eq_dec : EqDecision Error.
Proof. solve_decision. Defined.

(** Positional statement parameters and result cells ([any] in the source). *)
Inductive JsVal :=
| VNull
| VBool (b : bool)
| VNum (n : Z)
| VStr (s : string).

Definition Rows := list (list JsVal).

(** Objects created by the drivers ([SSHClient], [net.Server], [Connection],
    [PgClient]) are compared by identity; a handle is the length of the
    trace when the object was created. *)
Definition Handle := nat.

Inductive Engine := mysql | postgres.

#[global] Instance Engine_eq_dec : EqDecision Engine.
Proof. solve_decision. Defined.

(** Truthiness of the optional fields the source tests with [if (x)],
    [x || d] and [!x]. *)
Definition truthy_str (o : option string) : bool :=
  match o with
  | Some s => if decide (s = "") then false else true
  | None => false
  end.

Definition truthy_bool (o : option bool) : bool :=
  match o with
  | Some b => b
  | None => false
  end.

(** [port || d] on an optional number: [undefined] and [0] give [d]. *)
Definition num_or (o : option Z) (d : Z) : Z :=
  match o with
  | Some n => if decide (n = 0) then d else n
  | None => d
  end.

(** [s || d] on an optional string. *)
Definition str_or (o : option string) (d : string) : string :=
  match o with
  | Some s => if decide (s = "") then d else s
  | None => d
  end.

(** [values || []]: an array, even an empty one, is truthy. *)
Definition values_or_empty (o : option (list JsVal)) : list JsVal :=
  match o with
  | Some vs => vs
  | None => []
  end.

(** ** Plain objects used as dictionaries

    [this.connections] and [this.tunnels] are object literals indexed by
    string ids.  [Object.keys] lists the own string keys in insertion
    order, which the shutdown sweep depends on, so the own properties of a
    dictionary are a list of pairs in insertion order.  An object literal
    also inherits the members of [Object.prototype], and [o[k]] finds
    them: see [read]. *)
Module JsObject.

Definition t (V : Type) := list (string * V).

Definition empty {V} : t V := [].

(** The own property [k] of [o], if it has one: what the handler stored
    under [k]. *)
Fixpoint get {V} (k : string) (o : t V) : option V :=
  match o with
  | [] => None
  | (k', v) :: o' => if decide (k = k') then Some v else get k o'
  end.

(** The property names of [Object.prototype]. *)
Definition inherited_names : list string :=
  [ "constructor"; "__defineGetter__"; "__defineSetter__"; "hasOwnProperty";
    "__lookupGetter__"; "__lookupSetter__"; "isPrototypeOf";
    "propertyIsEnumerable"; "toString"; "valueOf"; "__proto__";
    "toLocaleString" ].

(** What [o[k]] evaluates to: the value stored under [k]; or, for a name
    of [Object.prototype] that is not stored, the inherited member, which
    is a function, or [Object.prototype] itself for [__proto__]: truthy,
    and without any of the fields of a record of the registries; or
    [undefined]. *)
Inductive Slot (V : Type) :=
| Own (v : V)
| Inherited
| Undefined.

Arguments Own {V} v.
Arguments Inherited {V}.
Arguments Undefined {V}.

Definition read {V} (k : string) (o : t V) : Slot V :=
  match get k o with
  | Some v => Own v
  | None => if bool_decide (k ∈ inherited_names) then Inherited else Undefined
  end.

(** [o[k] = v]: an existing key keeps its position, a new key goes last.
    The handler stores under ids that start with [mysql_], [postgres_] or
    [tunnel_] only, so never under [__proto__], the one name whose
    assignment would not make an own property. *)
Fixpoint set {V} (k : string) (v : V) (o : t V) : t V :=
  match o with
  | [] => [(k, v)]
  | (k', v') :: o' =>
      if decide (k = k') then (k, v) :: o' else (k', v') :: set k v o'
  end.

(** [delete o[k]] *)
Fixpoint delete {V} (k : string) (o : t V) : t V :=
  match o with
  | [] => []
  | (k', v') :: o' =>
      if decide (k = k') then delete k o' else (k', v') :: delete k o'
  end.

(** [Object.keys(o)] *)
Definition keys {V} (o : t V) : list string := map fst o.

(** [!!o[k]] for a dictionary whose values are objects. *)
Definition has {V} (k : string) (o : t V) : bool :=
  match read k o with
  | Own _ | Inherited => true
  | Undefined => false
  end.

End JsObject.

(** ** Interfaces of the source *)

Module AuthTokenParams.
Record t := mk {
  hostname : string;
  port : Z;
  username : string;
  region : option string
}.
End AuthTokenParams.

Module TunnelParams.
Record t := mk {
  sshHost : string;
  sshPort : option Z;
  sshUsername : string;
  sshPassword : option string;
  sshPrivateKey : option string;
  dbHost : string;
  dbPort : Z;
  localPort : option Z
}.
End TunnelParams.

Module TunnelInfo.
Record t := mk {
  sshClient : Handle;
  server : Handle;
  localHost : string;
  localPort : Z;
  dbHost : string;
  dbPort : Z;
  tunnelId : string
}.
End TunnelInfo.

Module ConnectionInfo.
Record t := mk {
  connection : Handle;
  engine : Engine;
  tunnelId : option string
}.
End ConnectionInfo.

(** [MySqlConnectParams] and [PostgresConnectParams] declare the same
    fields; one record serves both. *)
Module ConnectParams.
Record t := mk {
  host : string;
  port : option Z;
  user : string;
  password : string;
  database : string;
  useIAM : option bool;
  ssl : option bool;
  sshHost : option string;
  sshPort : option Z;
  sshUsername : option string;
  sshPassword : option string;
  sshPrivateKey : option string
}.
End ConnectParams.

Module Query.
Record t := mk {
  sql : string;
  values : option (list JsVal)
}.
End Query.

Module QueryParams.
Record t := mk {
  connectionId : string;
  query : string;
  values : option (list JsVal)
}.
End QueryParams.

Module TransactionParams.
Record t := mk {
  connectionId : string;
  queries : list Query.t
}.
End TransactionParams.

Module ConnectionResult.
Record t := mk {
  connectionId : string;
  engine : Engine;
  connected : bool;
  viaTunnel : bool;
  tunnelId : option string
}.
End ConnectionResult.

Module CloseResult.
Record t := mk {
  success : bool;
  message : string
}.
End CloseResult.

(** The [ssl] entry of a driver configuration: a boolean, or the object
    [{ rejectUnauthorized: b }]. *)
Inductive SslSetting :=
| SslFlag (on : bool)
| SslVerify (rejectUnauthorized : bool).

(** The object handed to [mysql.createConnection] or [new PgClient]. *)
Module AuthConfig.
Record t := mk {
  host : string;
  port : Z;
  user : string;
  password : string;
  database : string;
  ssl : option SslSetting;
  (** bytes returned by the [mysql_clear_password] plugin, when installed *)
  authPlugins : option string
}.
End AuthConfig.

(** The object handed to [sshClient.connect]. *)
Module SshConfig.
Record t := mk {
  host : string;
  port : Z;
  username : string;
  password : option string;
  privateKey : option string
}.
End SshConfig.

(** ** The trace of outside calls *)

Inductive LogLevel := LogInfo | LogWarn | LogError.

Inductive Event :=
| EvLog (level : LogLevel) (text : string) (err : option Error)
| EvDateNow (t : Z)
| EvGetAuthToken (region : string) (hostname : string) (port : Z) (username : string)
| EvSshConnect (client : Handle) (cfg : SshConfig.t)
| EvForwardOut (client : Handle) (srcHost : string) (srcPort : Z)
               (dstHost : string) (dstPort : Z)
| EvListen (srv : Handle) (port : Z) (host : string)
| EvSshEnd (client : Handle)
| EvServerClose (srv : Handle)
| EvMysqlCreateConnection (conn : Handle) (cfg : AuthConfig.t)
| EvPgConnect (conn : Handle) (cfg : AuthConfig.t)
| EvQuery (conn : Handle) (sql : string) (values : option (list JsVal))
| EvBeginTransaction (conn : Handle)
| EvCommit (conn : Handle)
| EvRollback (conn : Handle)
| EvEnd (conn : Handle).

(** A trace lists the events newest first. *)
Definition Trace := list Event.

(** What the outside answers.  Every oracle receives the trace up to the
    call, so an answer may depend on everything that happened before. *)
Record World := {
  env_AWS_REGION : option string;
  env_RDS_SSL : option string;
  date_now : Trace → Z;
  signer_getAuthToken : Trace → string → string → Z → string → Error + string;
  ssh_connect : Trace → SshConfig.t → option Error;
  ssh_forwardOut : Trace → string → Z → string → Z → option Error;
  server_listen : Trace → Z → string → Error + Z;
  mysql_createConnection : Trace → AuthConfig.t → option Error;
  pg_connect : Trace → AuthConfig.t → option Error;
  conn_query : Trace → Handle → string → option (list JsVal) → Error + Rows;
  conn_beginTransaction : Trace → Handle → option Error;
  conn_commit : Trace → Handle → option Error;
  conn_rollback : Trace → Handle → option Error;
  conn_end : Trace → Handle → option Error
}.

(** ** The handler's fields and the monad of its methods *)

Record State := {
  region : string;
  connections : JsObject.t ConnectionInfo.t;
  tunnels : JsObject.t TunnelInfo.t;
  trace : Trace
}.

Definition Result (A : Type) : Type := Error + A.

Definition M (A : Type) : Type := State → Result A * State.

Definition ret {A} (a : A) : M A := fun st => (inr a, st).

Definition throw {A} (e : Error) : M A := fun st => (inl e, st).

Definition bind {A B} (m : M A) (k : A → M B) : M B :=
  fun st =>
    match m st with
    | (inr a, st') => k a st'
    | (inl e, st') => (inl e, st')
    end.

(** [try { m } catch (e) { h e }] *)
Definition try_catch {A} (m : M A) (h : Error → M A) : M A :=
  fun st =>
    match m st with
    | (inr a, st') => (inr a, st')
    | (inl e, st') => h e st'
    end.

Declare Scope handler_scope.
Delimit Scope handler_scope with handler.
Notation "x <- m ;; k" := (bind m (fun x => k))
  (at level 100, m at next level, right associativity) : handler_scope.
Notation "m ;;; k" := (bind m (fun _ => k))
  (at level 100, right associativity) : handler_scope.
Open Scope handler_scope.

Definition get_state : M State := fun st => (inr st, st).

Definition emit (ev : Event) : M unit :=
  fun st =>
    (inr tt, {| region := region st; connections := connections st;
                tunnels := tunnels st; trace := ev :: trace st |}).

(** A call that leaves the process: the oracle answers from the trace
    before the call, then the call is recorded. *)
Definition call {A} (ev : Event) (oracle : Trace → A) : M A :=
  fun st =>
    (inr (oracle (trace st)),
     {| region := region st; connections := connections st;
        tunnels := tunnels st; trace := ev :: trace st |}).

(** An awaited promise that rejects with [e] or resolves to unit. *)
Definition await_unit (ev : Event) (oracle : Trace → option Error) : M unit :=
  r <- call ev oracle ;;
  match r with
  | Some e => throw e
  | None => ret tt
  end.

(** An awaited promise that rejects with [e] or resolves to a value. *)
Definition await_val {A} (ev : Event) (oracle : Trace → Error + A) : M A :=
  r <- call ev oracle ;;
  match r with
  | inl e => throw e
  | inr a => ret a
  end.

Definition console (level : LogLevel) (text : string) (err : option Error) : M unit :=
  emit (EvLog level text err).

Definition set_connections (c : JsObject.t ConnectionInfo.t) : M unit :=
  fun st =>
    (inr tt, {| region := region st; connections := c;
                tunnels := tunnels st; trace := trace st |}).

Definition set_tunnels (t : JsObject.t TunnelInfo.t) : M unit :=
  fun st =>
    (inr tt, {| region := region st; connections := connections st;
                tunnels := t; trace := trace st |}).

(** A fresh object: its identity is the current length of the trace. *)
Definition new_object : M Handle := fun st => (inr (length (trace st)), st).

Definition dateNow (w : World) : M Z :=
  fun st =>
    let t := date_now w (trace st) in
    (inr t, {| region := region st; connections := connections st;
               tunnels := tunnels st; trace := EvDateNow t :: trace st |}).

(** ** The methods of [RdsHandler] *)

(** [constructor()] *)
Definition constructor (w : World) : State :=
  {| region := str_or (env_AWS_REGION w) "us-east-1";
     connections := JsObject.empty;
     tunnels := JsObject.empty;
     trace := [] |}.

(** [getAuthToken(params)].  The promise is returned without [await], so a
    rejection of the signer passes the method's [catch] unlogged. *)
Definition getAuthToken (w : World) (params : AuthTokenParams.t) : M string :=
  let hostname := AuthTokenParams.hostname params in
  let port := AuthTokenParams.port params in
  let username := AuthTokenParams.username params in
  st <- get_state ;;
  let region' := str_or (AuthTokenParams.region params) (region st) in
  await_val (EvGetAuthToken region' hostname port username)
            (fun tr => signer_getAuthToken w tr region' hostname port username).

(** [createTunnel(params)].  The promise settles once: on the first of the
    SSH error, the forwarding error, the listener error, or the listener
    coming up. *)
Definition createTunnel (w : World) (params : TunnelParams.t) : M TunnelInfo.t :=
  let sshHost := TunnelParams.sshHost params in
  let sshPort := TunnelParams.sshPort params in
  let sshUsername := TunnelParams.sshUsername params in
  let sshPassword := TunnelParams.sshPassword params in
  let sshPrivateKey := TunnelParams.sshPrivateKey params in
  let dbHost := TunnelParams.dbHost params in
  let dbPort := TunnelParams.dbPort params in
  let localPort := TunnelParams.localPort params in
  sshClient <- new_object ;;
  sshConfig <-
    (if truthy_str sshPassword then
       ret {| SshConfig.host := sshHost; SshConfig.port := num_or sshPort 22;
              SshConfig.username := sshUsername;
              SshConfig.password := sshPassword; SshConfig.privateKey := None |}
     else if truthy_str sshPrivateKey then
       ret {| SshConfig.host := sshHost; SshConfig.port := num_or sshPort 22;
              SshConfig.username := sshUsername;
              SshConfig.password := None; SshConfig.privateKey := sshPrivateKey |}
     else throw (JsError "Thiếu mật khẩu hoặc private key SSH")) ;;
  connected <- call (EvSshConnect sshClient sshConfig)
                    (fun tr => ssh_connect w tr sshConfig) ;;
  match connected with
  | Some err =>
      console LogError "Lỗi kết nối SSH:" (Some err) ;;;
      throw err
  | None =>
      forwarded <- call (EvForwardOut sshClient "127.0.0.1" (num_or localPort 0) dbHost dbPort)
                        (fun tr => ssh_forwardOut w tr "127.0.0.1" (num_or localPort 0)
                                                  dbHost dbPort) ;;
      match forwarded with
      | Some err =>
          emit (EvSshEnd sshClient) ;;;
          throw err
      | None =>
          server <- new_object ;;
          listening <- call (EvListen server (num_or localPort 0) "127.0.0.1")
                            (fun tr => server_listen w tr (num_or localPort 0) "127.0.0.1") ;;
          match listening with
          | inl err =>
              emit (EvSshEnd sshClient) ;;;
              throw err
          | inr boundPort =>
              console LogInfo ("SSH tunnel được thiết lập: 127.0.0.1:" +:+ pretty boundPort
                               +:+ " -> " +:+ dbHost +:+ ":" +:+ pretty dbPort) None ;;;
              now <- dateNow w ;;
              let tunnelId := "tunnel_" +:+ pretty now in
              let info :=
                {| TunnelInfo.sshClient := sshClient;
                   TunnelInfo.server := server;
                   TunnelInfo.localHost := "127.0.0.1";
                   TunnelInfo.localPort := boundPort;
                   TunnelInfo.dbHost := dbHost;
                   TunnelInfo.dbPort := dbPort;
                   TunnelInfo.tunnelId := tunnelId |} in
              st <- get_state ;;
              set_tunnels (JsObject.set tunnelId info (tunnels st)) ;;;
              ret info
          end
      end
  end.

(** [closeTunnel(tunnelId)].  A registered tunnel always has its [server]
    and its [sshClient], so the two guards pass.  [server.close] and
    [sshClient.end] report their failures through callbacks and events,
    never by throwing; the callback that logs the closed port runs in a
    later turn of the event loop and is left out.  An inherited member
    passes the first test and has neither a [server] nor an [sshClient]:
    both guards fail, the [delete] finds nothing and the last line is
    logged. *)
Definition closeTunnel (tunnelId : string) : M unit :=
  st <- get_state ;;
  match JsObject.read tunnelId (tunnels st) with
  | JsObject.Undefined =>
      console LogWarn ("Tunnel " +:+ tunnelId +:+ " không tồn tại hoặc đã đóng") None
  | JsObject.Own tunnel =>
      emit (EvServerClose (TunnelInfo.server tunnel)) ;;;
      emit (EvSshEnd (TunnelInfo.sshClient tunnel)) ;;;
      console LogInfo "Đã đóng kết nối SSH client" None ;;;
      st' <- get_state ;;
      set_tunnels (JsObject.delete tunnelId (tunnels st')) ;;;
      console LogInfo ("Đã đóng tunnel " +:+ tunnelId) None
  | JsObject.Inherited =>
      st' <- get_state ;;
      set_tunnels (JsObject.delete tunnelId (tunnels st')) ;;;
      console LogInfo ("Đã đóng tunnel " +:+ tunnelId) None
  end.

(** The byte [0] that ends the clear-text password. *)
Definition nul : string := String (ascii_of_nat 0) EmptyString.

(** The tunnel request both tunnelled connects build from their params. *)
Definition tunnel_request (params : ConnectParams.t) (defaultPort : Z) : TunnelParams.t :=
  {| TunnelParams.sshHost := default "" (ConnectParams.sshHost params);
     TunnelParams.sshPort := ConnectParams.sshPort params;
     TunnelParams.sshUsername := default "" (ConnectParams.sshUsername params);
     TunnelParams.sshPassword := ConnectParams.sshPassword params;
     TunnelParams.sshPrivateKey := ConnectParams.sshPrivateKey params;
     TunnelParams.dbHost := ConnectParams.host params;
     TunnelParams.dbPort := num_or (ConnectParams.port params) defaultPort;
     TunnelParams.localPort := Some 0 |}.

(** [connectToMySqlWithTunnel(params)] *)
Definition connectToMySqlWithTunnel (w : World) (params : ConnectParams.t)
  : M ConnectionResult.t :=
  let host := ConnectParams.host params in
  let port := ConnectParams.port params in
  let user := ConnectParams.user params in
  let password := ConnectParams.password params in
  let database := ConnectParams.database params in
  try_catch
    (if negb (truthy_str (ConnectParams.sshHost params))
        || negb (truthy_str (ConnectParams.sshUsername params))
     then throw (JsError "Missing SSH connection parameters")
     else
       tunnel <- createTunnel w (tunnel_request params 3306) ;;
       authConfig <-
         (if truthy_bool (ConnectParams.useIAM params) then
            token <- getAuthToken w
                       {| AuthTokenParams.hostname := host;
                          AuthTokenParams.port := num_or port 3306;
                          AuthTokenParams.username := user;
                          AuthTokenParams.region := None |} ;;
            ret {| AuthConfig.host := TunnelInfo.localHost tunnel;
                   AuthConfig.port := TunnelInfo.localPort tunnel;
                   AuthConfig.user := user;
                   AuthConfig.password := token;
                   AuthConfig.database := database;
                   AuthConfig.ssl := Some (SslVerify true);
                   AuthConfig.authPlugins := Some (token +:+ nul) |}
          else
            ret {| AuthConfig.host := TunnelInfo.localHost tunnel;
                   AuthConfig.port := TunnelInfo.localPort tunnel;
                   AuthConfig.user := user;
                   AuthConfig.password := password;
                   AuthConfig.database := database;
                   AuthConfig.ssl := None;
                   AuthConfig.authPlugins := None |}) ;;
       connection <- new_object ;;
       await_unit (EvMysqlCreateConnection connection authConfig)
                  (fun tr => mysql_createConnection w tr authConfig) ;;;
       now <- dateNow w ;;
       let connectionId := "mysql_ssh_" +:+ host +:+ "_" +:+ database +:+ "_" +:+ pretty now in
       st <- get_state ;;
       set_connections
         (JsObject.set connectionId
            {| ConnectionInfo.connection := connection;
               ConnectionInfo.engine := mysql;
               ConnectionInfo.tunnelId := Some (TunnelInfo.tunnelId tunnel) |}
            (connections st)) ;;;
       ret {| ConnectionResult.connectionId := connectionId;
              ConnectionResult.engine := mysql;
              ConnectionResult.connected := true;
              ConnectionResult.viaTunnel := true;
              ConnectionResult.tunnelId := Some (TunnelInfo.tunnelId tunnel) |})
    (fun error =>
       console LogError "Lỗi kết nối MySQL qua SSH tunnel:" (Some error) ;;;
       throw error).

(** [connectToMySql(params)] *)
Definition connectToMySql (w : World) (params : ConnectParams.t)
  : M ConnectionResult.t :=
  if truthy_str (ConnectParams.sshHost params) then connectToMySqlWithTunnel w params
  else
    let host := ConnectParams.host params in
    let port := ConnectParams.port params in
    let user := ConnectParams.user params in
    let password := ConnectParams.password params in
    let database := ConnectParams.database params in
    try_catch
      (authConfig <-
         (if truthy_bool (ConnectParams.useIAM params) then
            token <- getAuthToken w
                       {| AuthTokenParams.hostname := host;
                          AuthTokenParams.port := num_or port 3306;
                          AuthTokenParams.username := user;
                          AuthTokenParams.region := None |} ;;
            ret {| AuthConfig.host := host;
                   AuthConfig.port := num_or port 3306;
                   AuthConfig.user := user;
                   AuthConfig.password := token;
                   AuthConfig.database := database;
                   AuthConfig.ssl := Some (SslVerify true);
                   AuthConfig.authPlugins := Some (token +:+ nul) |}
          else
            ret {| AuthConfig.host := host;
                   AuthConfig.port := num_or port 3306;
                   AuthConfig.user := user;
                   AuthConfig.password := password;
                   AuthConfig.database := database;
                   AuthConfig.ssl := None;
                   AuthConfig.authPlugins := None |}) ;;
       connection <- new_object ;;
       await_unit (EvMysqlCreateConnection connection authConfig)
                  (fun tr => mysql_createConnection w tr authConfig) ;;;
       now <- dateNow w ;;
       let connectionId := "mysql_" +:+ host +:+ "_" +:+ database +:+ "_" +:+ pretty now in
       st <- get_state ;;
       set_connections
         (JsObject.set connectionId
            {| ConnectionInfo.connection := connection;
               ConnectionInfo.engine := mysql;
               ConnectionInfo.tunnelId := None |}
            (connections st)) ;;;
       ret {| ConnectionResult.connectionId := connectionId;
              ConnectionResult.engine := mysql;
              ConnectionResult.connected := true;
              ConnectionResult.viaTunnel := false;
              ConnectionResult.tunnelId := None |})
      (fun error =>
         console LogError "Error connecting to MySQL RDS:" (Some error) ;;;
         throw error).

(** [ssl || process.env.RDS_SSL === 'true'] *)
Definition pg_ssl_flag (w : World) (ssl : option bool) : bool :=
  if truthy_bool ssl then true
  else if decide (env_RDS_SSL w = Some "true") then true else false.

(** [connectToPostgresWithTunnel(params)] *)
Definition connectToPostgresWithTunnel (w : World) (params : ConnectParams.t)
  : M ConnectionResult.t :=
  let host := ConnectParams.host params in
  let port := ConnectParams.port params in
  let user := ConnectParams.user params in
  let password := ConnectParams.password params in
  let database := ConnectParams.database params in
  let ssl := ConnectParams.ssl params in
  try_catch
    (if negb (truthy_str (ConnectParams.sshHost params))
        || negb (truthy_str (ConnectParams.sshUsername params))
     then throw (JsError "Missing SSH connection parameters")
     else
       tunnel <- createTunnel w (tunnel_request params 5432) ;;
       authConfig <-
         (if truthy_bool (ConnectParams.useIAM params) then
            token <- getAuthToken w
                       {| AuthTokenParams.hostname := host;
                          AuthTokenParams.port := num_or port 5432;
                          AuthTokenParams.username := user;
                          AuthTokenParams.region := None |} ;;
            ret {| AuthConfig.host := TunnelInfo.localHost tunnel;
                   AuthConfig.port := TunnelInfo.localPort tunnel;
                   AuthConfig.user := user;
                   AuthConfig.password := token;
                   AuthConfig.database := database;
                   AuthConfig.ssl := Some (SslVerify true);
                   AuthConfig.authPlugins := None |}
          else
            ret {| AuthConfig.host := TunnelInfo.localHost tunnel;
                   AuthConfig.port := TunnelInfo.localPort tunnel;
                   AuthConfig.user := user;
                   AuthConfig.password := password;
                   AuthConfig.database := database;
                   AuthConfig.ssl := Some (SslFlag (pg_ssl_flag w ssl));
                   AuthConfig.authPlugins := None |}) ;;
       connection <- new_object ;;
       await_unit (EvPgConnect connection authConfig)
                  (fun tr => pg_connect w tr authConfig) ;;;
       now <- dateNow w ;;
       let connectionId :=
         "postgres_ssh_" +:+ host +:+ "_" +:+ database +:+ "_" +:+ pretty now in
       st <- get_state ;;
       set_connections
         (JsObject.set connectionId
            {| ConnectionInfo.connection := connection;
               ConnectionInfo.engine := postgres;
               ConnectionInfo.tunnelId := Some (TunnelInfo.tunnelId tunnel) |}
            (connections st)) ;;;
       ret {| ConnectionResult.connectionId := connectionId;
              ConnectionResult.engine := postgres;
              ConnectionResult.connected := true;
              ConnectionResult.viaTunnel := true;
              ConnectionResult.tunnelId := Some (TunnelInfo.tunnelId tunnel) |})
    (fun error =>
       console LogError "Lỗi kết nối PostgreSQL qua SSH tunnel:" (Some error) ;;;
       throw error).

(** [connectToPostgres(params)] *)
Definition connectToPostgres (w : World) (params : ConnectParams.t)
  : M ConnectionResult.t :=
  if truthy_str (ConnectParams.sshHost params) then connectToPostgresWithTunnel w params
  else
    let host := ConnectParams.host params in
    let port := ConnectParams.port params in
    let user := ConnectParams.user params in
    let password := ConnectParams.password params in
    let database := ConnectParams.database params in
    let ssl := ConnectParams.ssl params in
    try_catch
      (authConfig <-
         (if truthy_bool (ConnectParams.useIAM params) then
            token <- getAuthToken w
                       {| AuthTokenParams.hostname := host;
                          AuthTokenParams.port := num_or port 5432;
                          AuthTokenParams.username := user;
                          AuthTokenParams.region := None |} ;;
            ret {| AuthConfig.host := host;
                   AuthConfig.port := num_or port 5432;
                   AuthConfig.user := user;
                   AuthConfig.password := token;
                   AuthConfig.database := database;
                   AuthConfig.ssl := Some (SslVerify true);
                   AuthConfig.authPlugins := None |}
          else
            ret {| AuthConfig.host := host;
                   AuthConfig.port := num_or port 5432;
                   AuthConfig.user := user;
                   AuthConfig.password := password;
                   AuthConfig.database := database;
                   AuthConfig.ssl := Some (SslFlag (pg_ssl_flag w ssl));
                   AuthConfig.authPlugins := None |}) ;;
       connection <- new_object ;;
       await_unit (EvPgConnect connection authConfig)
                  (fun tr => pg_connect w tr authConfig) ;;;
       now <- dateNow w ;;
       let connectionId := "postgres_" +:+ host +:+ "_" +:+ database +:+ "_" +:+ pretty now in
       st <- get_state ;;
       set_connections
         (JsObject.set connectionId
            {| ConnectionInfo.connection := connection;
               ConnectionInfo.engine := postgres;
               ConnectionInfo.tunnelId := None |}
            (connections st)) ;;;
       ret {| ConnectionResult.connectionId := connectionId;
              ConnectionResult.engine := postgres;
              ConnectionResult.connected := true;
              ConnectionResult.viaTunnel := false;
              ConnectionResult.tunnelId := None |})
      (fun error =>
         console LogError "Error connecting to PostgreSQL RDS:" (Some error) ;;;
         throw error).

(** [connection.query(sql, values)] on either driver: mysql2 resolves to
    [[rows, fields]], pg to an object with [rows]; the handler keeps the
    rows. *)
Definition driver_query (w : World) (connection : Handle) (sql : string)
    (values : option (list JsVal)) : M Rows :=
  await_val (EvQuery connection sql values)
            (fun tr => conn_query w tr connection sql values).

(** [executeQuery(params)].  When [this.connections[connectionId]] is an
    inherited member, the test for an unknown id passes; the member has no
    [engine], so the [else] branch runs, and no [connection], so
    [pgConn.query] reads a member of [undefined]. *)
Definition executeQuery (w : World) (params : QueryParams.t) : M Rows :=
  let connectionId := QueryParams.connectionId params in
  let query := QueryParams.query params in
  let values := QueryParams.values params in
  try_catch
    (st <- get_state ;;
     match JsObject.read connectionId (connections st) with
     | JsObject.Undefined =>
         throw (JsError ("Connection " +:+ connectionId +:+ " not found or closed"))
     | JsObject.Own connInfo =>
         let connection := ConnectionInfo.connection connInfo in
         match ConnectionInfo.engine connInfo with
         | mysql => driver_query w connection query (Some (values_or_empty values))
         | postgres => driver_query w connection query (Some (values_or_empty values))
         end
     | JsObject.Inherited => throw (undefined_member "query")
     end)
    (fun error =>
       console LogError "Error executing query on RDS:" (Some error) ;;;
       throw error).

(** [for (const query of queries) { ...; results.push(rows) }] *)
Fixpoint run_queries (w : World) (connection : Handle) (queries : list Query.t)
    (results : list Rows) : M (list Rows) :=
  match queries with
  | [] => ret results
  | query :: rest =>
      rows <- driver_query w connection (Query.sql query)
                (Some (values_or_empty (Query.values query))) ;;
      run_queries w connection rest (results ++ [rows])
  end.

(** The three bracketing calls of a transaction: methods of the mysql2
    connection, plain statements without parameters on the pg client. *)
Definition tx_begin (w : World) (engine : Engine) (connection : Handle) : M unit :=
  match engine with
  | mysql => await_unit (EvBeginTransaction connection)
                        (fun tr => conn_beginTransaction w tr connection)
  | postgres => driver_query w connection "BEGIN" None ;;; ret tt
  end.

Definition tx_commit (w : World) (engine : Engine) (connection : Handle) : M unit :=
  match engine with
  | mysql => await_unit (EvCommit connection) (fun tr => conn_commit w tr connection)
  | postgres => driver_query w connection "COMMIT" None ;;; ret tt
  end.

Definition tx_rollback (w : World) (engine : Engine) (connection : Handle) : M unit :=
  match engine with
  | mysql => await_unit (EvRollback connection) (fun tr => conn_rollback w tr connection)
  | postgres => driver_query w connection "ROLLBACK" None ;;; ret tt
  end.

(** [executeTransaction(params)].  On an inherited member the [else]
    branch runs and [pgConn.query('BEGIN')] reads a member of
    [undefined], before the inner [try]. *)
Definition executeTransaction (w : World) (params : TransactionParams.t)
  : M (list Rows) :=
  let connectionId := TransactionParams.connectionId params in
  let queries := TransactionParams.queries params in
  try_catch
    (st <- get_state ;;
     match JsObject.read connectionId (connections st) with
     | JsObject.Undefined =>
         throw (JsError ("Connection " +:+ connectionId +:+ " not found or closed"))
     | JsObject.Inherited => throw (undefined_member "query")
     | JsObject.Own connInfo =>
         let connection := ConnectionInfo.connection connInfo in
         match ConnectionInfo.engine connInfo with
         | mysql =>
             tx_begin w mysql connection ;;;
             try_catch
               (results <- run_queries w connection queries [] ;;
                tx_commit w mysql connection ;;;
                ret results)
               (fun err => tx_rollback w mysql connection ;;; throw err)
         | postgres =>
             tx_begin w postgres connection ;;;
             try_catch
               (results <- run_queries w connection queries [] ;;
                tx_commit w postgres connection ;;;
                ret results)
               (fun err => tx_rollback w postgres connection ;;; throw err)
         end
     end)
    (fun error =>
       console LogError "Error executing transaction on RDS:" (Some error) ;;;
       throw error).

(** [closeConnection(connectionId)].  On an inherited member the [else]
    branch runs and [pgConn.end()] reads a member of [undefined]. *)
Definition closeConnection (w : World) (connectionId : string) : M CloseResult.t :=
  try_catch
    (st <- get_state ;;
     match JsObject.read connectionId (connections st) with
     | JsObject.Undefined =>
         throw (JsError ("Connection " +:+ connectionId +:+ " not found or already closed"))
     | JsObject.Inherited => throw (undefined_member "end")
     | JsObject.Own connInfo =>
         let connection := ConnectionInfo.connection connInfo in
         match ConnectionInfo.engine connInfo with
         | mysql => await_unit (EvEnd connection) (fun tr => conn_end w tr connection)
         | postgres => await_unit (EvEnd connection) (fun tr => conn_end w tr connection)
         end ;;;
         st1 <- get_state ;;
         (if truthy_str (ConnectionInfo.tunnelId connInfo)
             && JsObject.has (default "" (ConnectionInfo.tunnelId connInfo)) (tunnels st1)
          then closeTunnel (default "" (ConnectionInfo.tunnelId connInfo))
          else ret tt) ;;;
         st2 <- get_state ;;
         set_connections (JsObject.delete connectionId (connections st2)) ;;;
         ret {| CloseResult.success := true;
                CloseResult.message := "Đã đóng kết nối " +:+ connectionId |}
     end)
    (fun error =>
       console LogError "Error closing RDS connection:" (Some error) ;;;
       throw error).

(** First loop of [close()]: every id of the snapshot is closed in turn; a
    failure is logged and the loop goes on. *)
Fixpoint close_connections (w : World) (ids : list string) : M unit :=
  match ids with
  | [] => ret tt
  | connectionId :: rest =>
      try_catch
        (closeConnection w connectionId ;;; ret tt)
        (fun err =>
           console LogError ("Lỗi đóng kết nối " +:+ connectionId +:+ ":") (Some err)) ;;;
      close_connections w rest
  end.

(** Second loop of [close()]: the tunnels that are left. *)
Fixpoint close_tunnels (ids : list string) : M unit :=
  match ids with
  | [] => ret tt
  | tunnelId :: rest =>
      try_catch
        (closeTunnel tunnelId)
        (fun err =>
           console LogError ("Lỗi đóng tunnel " +:+ tunnelId +:+ ":") (Some err)) ;;;
      close_tunnels rest
  end.

(** [close()] *)
Definition close (w : World) : M CloseResult.t :=
  try_catch
    (st <- get_state ;;
     close_connections w (JsObject.keys (connections st)) ;;;
     st' <- get_state ;;
     close_tunnels (JsObject.keys (tunnels st')) ;;;
     ret {| CloseResult.success := true;
            CloseResult.message := "Đã đóng tất cả kết nối và tunnel" |})
    (fun error =>
       console LogError "Error closing all RDS connections:" (Some error) ;;;
       throw error).

(** * Vocabulary of the properties *)

(** [record evs st] is [st] after the outside calls [evs], newest first. *)
Definition record (evs : list Event) (st : State) : State :=
  {| region := region st; connections := connections st;
     tunnels := tunnels st; trace := evs ++ trace st |}.

(** The error of an unknown connectionId.  The source has no error classes:
    it is [new Error] with the message [Connection <id><suffix>], where the
    suffix is [ not found or closed] in [executeQuery] and
    [executeTransaction] and [ not found or already closed] in
    [closeConnection]. *)
Definition NotFoundError (connectionId : string) (suffix : string) : Error :=
  JsError ("Connection " +:+ connectionId +:+ suffix).

(** What a method throws for a connectionId that is not registered: the
    not-found error, unless the id names a member of [Object.prototype];
    then the lookup finds that member and the method fails when it calls
    [member] on the connection the member does not have. *)
Definition unregistered_error (connectionId suffix member : string) : Error :=
  if bool_decide (connectionId ∈ JsObject.inherited_names)
  then undefined_member member
  else NotFoundError connectionId suffix.

(** The one line [closeTunnel] logs for a tunnelId that is not registered:
    the warning, unless the id names a member of [Object.prototype]. *)
Definition unregistered_tunnel_log (tunnelId : string) : Event :=
  if bool_decide (tunnelId ∈ JsObject.inherited_names)
  then EvLog LogInfo ("Đã đóng tunnel " +:+ tunnelId) None
  else EvLog LogWarn ("Tunnel " +:+ tunnelId +:+ " không tồn tại hoặc đã đóng") None.

(** The tunnel registry after a successful [closeConnection]. *)
Definition tunnels_after_close (connInfo : ConnectionInfo.t)
    (tunnels : JsObject.t TunnelInfo.t) : JsObject.t TunnelInfo.t :=
  match ConnectionInfo.tunnelId connInfo with
  | Some tunnelId => if decide (tunnelId = "") then tunnels
                     else JsObject.delete tunnelId tunnels
  | None => tunnels
  end.

(** The body of the first loop of [close()]; [close_connections] runs it for
    every id of the snapshot. *)
Definition close_one (w : World) (connectionId : string) : M unit :=
  try_catch
    (closeConnection w connectionId ;;; ret tt)
    (fun err =>
       console LogError ("Lỗi đóng kết nối " +:+ connectionId +:+ ":") (Some err)).

(** The line that loop logs when closing [connectionId] threw [err]. *)
Definition sweep_log (connectionId : string) (err : Error) : Event :=
  EvLog LogError ("Lỗi đóng kết nối " +:+ connectionId +:+ ":") (Some err).

(** What became of a connection in the first loop: its driver close was
    called, after the outside calls [before] of the sweep; the record is
    kept, and the failure logged twice, when that call threw, and removed
    when it returned. *)
Definition swept (w : World) (st st' : State) (evs : list Event)
    (connectionId : string) (connInfo : ConnectionInfo.t) : Prop :=
  ∃ before after,
    evs = after ++ EvEnd (ConnectionInfo.connection connInfo) :: before
    ∧ match conn_end w (before ++ trace st) (ConnectionInfo.connection connInfo) with
      | Some err =>
          JsObject.get connectionId (connections st') = Some connInfo
          ∧ ∃ later,
              after = later ++ [sweep_log connectionId err;
                                EvLog LogError "Error closing RDS connection:" (Some err)]
      | None => JsObject.get connectionId (connections st') = None
      end.

(** ** Transactions *)

Inductive TxOp := TxBegin | TxCommit | TxRollback.

(** The outside call behind each of the three bracketing operations. *)
Definition tx_event (engine : Engine) (connection : Handle) (op : TxOp) : Event :=
  match engine, op with
  | mysql, TxBegin => EvBeginTransaction connection
  | mysql, TxCommit => EvCommit connection
  | mysql, TxRollback => EvRollback connection
  | postgres, TxBegin => EvQuery connection "BEGIN" None
  | postgres, TxCommit => EvQuery connection "COMMIT" None
  | postgres, TxRollback => EvQuery connection "ROLLBACK" None
  end.

(** The error of a rejected promise, if it was rejected. *)
Definition failure {A} (r : Error + A) : option Error :=
  match r with
  | inl e => Some e
  | inr _ => None
  end.

(** What the driver answers to it after the trace [tr]. *)
Definition tx_answer (w : World) (engine : Engine) (connection : Handle) (op : TxOp)
    (tr : Trace) : option Error :=
  match engine, op with
  | mysql, TxBegin => conn_beginTransaction w tr connection
  | mysql, TxCommit => conn_commit w tr connection
  | mysql, TxRollback => conn_rollback w tr connection
  | postgres, TxBegin => failure (conn_query w tr connection "BEGIN" None)
  | postgres, TxCommit => failure (conn_query w tr connection "COMMIT" None)
  | postgres, TxRollback => failure (conn_query w tr connection "ROLLBACK" None)
  end.

(** [tx_begin], [tx_commit] and [tx_rollback] under one name. *)
Definition tx_run (w : World) (engine : Engine) (connection : Handle) (op : TxOp) : M unit :=
  match op with
  | TxBegin => tx_begin w engine connection
  | TxCommit => tx_commit w engine connection
  | TxRollback => tx_rollback w engine connection
  end.

(** The outside call behind one statement of a transaction. *)
Definition stmt_event (connection : Handle) (query : Query.t) : Event :=
  EvQuery connection (Query.sql query) (Some (values_or_empty (Query.values query))).

(** ** The four connect methods in one form

    [connectToMySql], [connectToMySqlWithTunnel], [connectToPostgres] and
    [connectToPostgresWithTunnel] differ in the default port, the driver
    they call, the prefix of the id, the text they log and the [ssl] and
    [authPlugins] entries of the driver configuration.  [connect_generic]
    is their text with these five as functions of the engine and of the
    tunnel; it is equal to each of them by computation ([connect_unfold]
    below). *)

(** [rdsConnectMySql] and [rdsConnectPostgres] as one operation. *)
Definition connect (w : World) (engine : Engine) : ConnectParams.t → M ConnectionResult.t :=
  match engine with
  | mysql => connectToMySql w
  | postgres => connectToPostgres w
  end.

(** [port || 3306] and [port || 5432] *)
Definition default_port (engine : Engine) : Z :=
  match engine with
  | mysql => 3306
  | postgres => 5432
  end.

(** The call that opens the SQL session, and what the driver answers. *)
Definition session_event (engine : Engine) (connection : Handle) (cfg : AuthConfig.t) : Event :=
  match engine with
  | mysql => EvMysqlCreateConnection connection cfg
  | postgres => EvPgConnect connection cfg
  end.

Definition session_answer (w : World) (engine : Engine) (tr : Trace) (cfg : AuthConfig.t)
  : option Error :=
  match engine with
  | mysql => mysql_createConnection w tr cfg
  | postgres => pg_connect w tr cfg
  end.

(** The literal that starts a connection id. *)
Definition id_prefix (engine : Engine) (tunnel : option TunnelInfo.t) : string :=
  match engine, tunnel with
  | mysql, Some _ => "mysql_ssh_"
  | mysql, None => "mysql_"
  | postgres, Some _ => "postgres_ssh_"
  | postgres, None => "postgres_"
  end.

(** The text of the [console.error] in the method's [catch]. *)
Definition connect_error_text (engine : Engine) (tunnelled : bool) : string :=
  match engine, tunnelled with
  | mysql, true => "Lỗi kết nối MySQL qua SSH tunnel:"
  | mysql, false => "Error connecting to MySQL RDS:"
  | postgres, true => "Lỗi kết nối PostgreSQL qua SSH tunnel:"
  | postgres, false => "Error connecting to PostgreSQL RDS:"
  end.

(** The driver configuration: the endpoint is the tunnel's listener when
    there is a tunnel, the password is the token when there is one. *)
Definition session_config (w : World) (engine : Engine) (params : ConnectParams.t)
    (tunnel : option TunnelInfo.t) (token : option string) : AuthConfig.t :=
  {| AuthConfig.host :=
       match tunnel with
       | Some t => TunnelInfo.localHost t
       | None => ConnectParams.host params
       end;
     AuthConfig.port :=
       match tunnel with
       | Some t => TunnelInfo.localPort t
       | None => num_or (ConnectParams.port params) (default_port engine)
       end;
     AuthConfig.user := ConnectParams.user params;
     AuthConfig.password :=
       match token with
       | Some t => t
       | None => ConnectParams.password params
       end;
     AuthConfig.database := ConnectParams.database params;
     AuthConfig.ssl :=
       match token, engine with
       | Some _, _ => Some (SslVerify true)
       | None, mysql => None
       | None, postgres => Some (SslFlag (pg_ssl_flag w (ConnectParams.ssl params)))
       end;
     AuthConfig.authPlugins :=
       match token, engine with
       | Some t, mysql => Some (t +:+ nul)
       | _, _ => None
       end |}.

(** The part all four methods share: authenticate, open the session, name
    and register it. *)
Definition open_session (w : World) (engine : Engine) (params : ConnectParams.t)
    (tunnel : option TunnelInfo.t) : M ConnectionResult.t :=
  let host := ConnectParams.host params in
  let database := ConnectParams.database params in
  authConfig <-
    (if truthy_bool (ConnectParams.useIAM params) then
       token <- getAuthToken w
                  {| AuthTokenParams.hostname := host;
                     AuthTokenParams.port :=
                       num_or (ConnectParams.port params) (default_port engine);
                     AuthTokenParams.username := ConnectParams.user params;
                     AuthTokenParams.region := None |} ;;
       ret (session_config w engine params tunnel (Some token))
     else ret (session_config w engine params tunnel None)) ;;
  connection <- new_object ;;
  await_unit (session_event engine connection authConfig)
             (fun tr => session_answer w engine tr authConfig) ;;;
  now <- dateNow w ;;
  let connectionId :=
    id_prefix engine tunnel +:+ host +:+ "_" +:+ database +:+ "_" +:+ pretty now in
  st <- get_state ;;
  set_connections
    (JsObject.set connectionId
       {| ConnectionInfo.connection := connection;
          ConnectionInfo.engine := engine;
          ConnectionInfo.tunnelId := TunnelInfo.tunnelId <$> tunnel |}
       (connections st)) ;;;
  ret {| ConnectionResult.connectionId := connectionId;
         ConnectionResult.engine := engine;
         ConnectionResult.connected := true;
         ConnectionResult.viaTunnel := bool_decide (tunnel ≠ None);
         ConnectionResult.tunnelId := TunnelInfo.tunnelId <$> tunnel |}.

(** [catch (error) { console.error(text, error); throw error; }] *)
Definition rethrow_logged {A} (text : string) (error : Error) : M A :=
  console LogError text (Some error) ;;; throw error.

Definition connect_generic (w : World) (engine : Engine) (params : ConnectParams.t)
  : M ConnectionResult.t :=
  if truthy_str (ConnectParams.sshHost params) then
    try_catch
      (if negb (truthy_str (ConnectParams.sshHost params))
          || negb (truthy_str (ConnectParams.sshUsername params))
       then throw (JsError "Missing SSH connection parameters")
       else
         tunnel <- createTunnel w (tunnel_request params (default_port engine)) ;;
         open_session w engine params (Some tunnel))
      (rethrow_logged (connect_error_text engine true))
  else
    try_catch (open_session w engine params None)
              (rethrow_logged (connect_error_text engine false)).

(** The token request of a connect call: always for the database host and
    port of the caller's params. *)
Definition token_request (engine : Engine) (params : ConnectParams.t) (st : State) : Event :=
  EvGetAuthToken (region st) (ConnectParams.host params)
    (num_or (ConnectParams.port params) (default_port engine))
    (ConnectParams.user params).

(** How [open_session] obtains the password: a token from the signer when
    [useIAM] is set, the caller's password otherwise. *)
Inductive TokenStep (w : World) (engine : Engine) (params : ConnectParams.t) (st1 : State)
  : option string → list Event → Prop :=
| WithToken token :
    truthy_bool (ConnectParams.useIAM params) = true →
    signer_getAuthToken w (trace st1) (region st1) (ConnectParams.host params)
      (num_or (ConnectParams.port params) (default_port engine))
      (ConnectParams.user params) = inr token →
    TokenStep w engine params st1 (Some token) [token_request engine params st1]
| WithPassword :
    truthy_bool (ConnectParams.useIAM params) = false →
    TokenStep w engine params st1 None [].

(** The template literal of the connection id. *)
Definition new_connection_id (engine : Engine) (params : ConnectParams.t)
    (tunnel : option TunnelInfo.t) (now : Z) : string :=
  id_prefix engine tunnel +:+ ConnectParams.host params +:+ "_"
  +:+ ConnectParams.database params +:+ "_" +:+ pretty now.

(** The three ways [open_session] can end, started in [st1]. *)
Inductive SessionOutcome (w : World) (engine : Engine) (params : ConnectParams.t)
    (tunnel : option TunnelInfo.t) (st1 : State)
  : Result ConnectionResult.t * State → Prop :=
| TokenRefused e :
    truthy_bool (ConnectParams.useIAM params) = true →
    signer_getAuthToken w (trace st1) (region st1) (ConnectParams.host params)
      (num_or (ConnectParams.port params) (default_port engine))
      (ConnectParams.user params) = inl e →
    SessionOutcome w engine params tunnel st1
      (inl e, record [token_request engine params st1] st1)
| SessionRefused token evs e :
    TokenStep w engine params st1 token evs →
    session_answer w engine (evs ++ trace st1)
      (session_config w engine params tunnel token) = Some e →
    SessionOutcome w engine params tunnel st1
      (inl e,
       record (session_event engine (length (evs ++ trace st1))
                 (session_config w engine params tunnel token) :: evs) st1)
| SessionOpened token evs :
    TokenStep w engine params st1 token evs →
    session_answer w engine (evs ++ trace st1)
      (session_config w engine params tunnel token) = None →
    let connection := length (evs ++ trace st1) in
    let opened := session_event engine connection
                    (session_config w engine params tunnel token) :: evs ++ trace st1 in
    let now := date_now w opened in
    let connectionId := new_connection_id engine params tunnel now in
    SessionOutcome w engine params tunnel st1
      (inr {| ConnectionResult.connectionId := connectionId;
              ConnectionResult.engine := engine;
              ConnectionResult.connected := true;
              ConnectionResult.viaTunnel := bool_decide (tunnel ≠ None);
              ConnectionResult.tunnelId := TunnelInfo.tunnelId <$> tunnel |},
       {| region := region st1;
          connections :=
            JsObject.set connectionId
              {| ConnectionInfo.connection := connection;
                 ConnectionInfo.engine := engine;
                 ConnectionInfo.tunnelId := TunnelInfo.tunnelId <$> tunnel |}
              (connections st1);
          tunnels := tunnels st1;
          trace := EvDateNow now :: opened |}).

(** Calls to the SSH client and to the local listener. *)
Definition is_tunnel_event (ev : Event) : bool :=
  match ev with
  | EvSshConnect _ _ | EvForwardOut _ _ _ _ _ | EvListen _ _ _
  | EvSshEnd _ | EvServerClose _ => true
  | _ => false
  end.

(** Calls to the signer and to the SQL drivers. *)
Definition is_session_event (ev : Event) : bool :=
  match ev with
  | EvGetAuthToken _ _ _ _ | EvMysqlCreateConnection _ _ | EvPgConnect _ _ => true
  | _ => false
  end.

(** A failed attempt is logged by the method's [catch] and thrown again. *)
Definition logged {A} (text : string) (out : Result A * State) : Result A * State :=
  match out with
  | (inl e, st) => (inl e, record [EvLog LogError text (Some e)] st)
  | (inr a, st) => (inr a, st)
  end.

(** The four ways a connect call can go. *)
Inductive ConnectOutcome (w : World) (engine : Engine) (params : ConnectParams.t)
    (st : State) : Result ConnectionResult.t * State → Prop :=
| Direct out :
    truthy_str (ConnectParams.sshHost params) = false →
    SessionOutcome w engine params None st out →
    ConnectOutcome w engine params st (logged (connect_error_text engine false) out)
| MissingSshUser :
    truthy_str (ConnectParams.sshHost params) = true →
    truthy_str (ConnectParams.sshUsername params) = false →
    ConnectOutcome w engine params st
      (logged (connect_error_text engine true)
         (inl (JsError "Missing SSH connection parameters"), st))
| TunnelFailed e st1 :
    truthy_str (ConnectParams.sshHost params) = true →
    truthy_str (ConnectParams.sshUsername params) = true →
    createTunnel w (tunnel_request params (default_port engine)) st = (inl e, st1) →
    ConnectOutcome w engine params st
      (logged (connect_error_text engine true) (inl e, st1))
| Tunnelled tunnel st1 out :
    truthy_str (ConnectParams.sshHost params) = true →
    truthy_str (ConnectParams.sshUsername params) = true →
    createTunnel w (tunnel_request params (default_port engine)) st = (inr tunnel, st1) →
    SessionOutcome w engine params (Some tunnel) st1 out →
    ConnectOutcome w engine params st (logged (connect_error_text engine true) out).

(** The configuration an event hands to an SQL driver, if it is one. *)
Definition session_config_of (ev : Event) : option AuthConfig.t :=
  match ev with
  | EvMysqlCreateConnection _ cfg | EvPgConnect _ cfg => Some cfg
  | _ => None
  end.

(** ** Connection ids *)

(** [c] is a character of [s]. *)
Fixpoint occurs (c : ascii) (s : string) : bool :=
  match s with
  | EmptyString => false
  | String c' s' => if decide (c = c') then true else occurs c s'
  end.

Definition underscore : ascii := "_"%char.

(** Everything of a connection id before the time stamp. *)
Definition connection_id_stem (engine : Engine) (params : ConnectParams.t) : string :=
  match engine, truthy_str (ConnectParams.sshHost params) with
  | mysql, true => "mysql_ssh_"
  | mysql, false => "mysql_"
  | postgres, true => "postgres_ssh_"
  | postgres, false => "postgres_"
  end +:+ ConnectParams.host params +:+ "_" +:+ ConnectParams.database params.

(** The value [Date.now()] returned last. *)
Definition clock_reading (st : State) : option Z :=
  match trace st with
  | EvDateNow t :: _ => Some t
  | _ => None
  end.

(** * Six sentences of the specification, as they are written

    The code does not meet them; each is refuted below on a sample world
    and followed by the statement that does hold. *)

(** C1 as the claim states it. *)
Definition close_empties_both_registries : Prop :=
  ∀ (w : World) (st : State),
    connections (close w st).2 = JsObject.empty
    ∧ tunnels (close w st).2 = JsObject.empty.

(** C2 as the claim states it: whatever the rollback does, the caller gets
    the error of the failing statement. *)
Definition transaction_reraises_statement_error : Prop :=
  ∀ (w : World) (st : State) (connectionId : string) (connInfo : ConnectionInfo.t)
    (queries : list Query.t) (k : nat) (query : Query.t) (e : Error)
    (rows : list Rows) (st2 : State),
    let connection := ConnectionInfo.connection connInfo in
    let engine := ConnectionInfo.engine connInfo in
    JsObject.get connectionId (connections st) = Some connInfo →
    tx_answer w engine connection TxBegin (trace st) = None →
    run_queries w connection (take k queries) []
                (record [tx_event engine connection TxBegin] st) = (inr rows, st2) →
    queries !! k = Some query →
    conn_query w (trace st2) connection (Query.sql query)
               (Some (values_or_empty (Query.values query))) = inl e →
    (executeTransaction w (TransactionParams.mk connectionId queries) st).1 = inl e.

(** C3, as the claim states it. *)
Definition closeConnection_always_removes : Prop :=
  ∀ (w : World) (st : State) (connectionId : string) (connInfo : ConnectionInfo.t),
    JsObject.get connectionId (connections st) = Some connInfo →
    JsObject.get connectionId (connections (closeConnection w connectionId st).2) = None.

(** C4 as the claim states it. *)
Definition connection_ids_always_distinct : Prop :=
  ∀ (w : World) (engine1 engine2 : Engine) (params1 params2 : ConnectParams.t)
    (st st1 st2 : State) (res1 res2 : ConnectionResult.t),
    connect w engine1 params1 st = (inr res1, st1) →
    connect w engine2 params2 st1 = (inr res2, st2) →
    ConnectionResult.connectionId res1 ≠ ConnectionResult.connectionId res2.

(** C10 as the claim states it: after a tunnelled connect that failed once
    its tunnel was up, the tunnel is registered, no record names it, and no
    [closeConnection] removes it. *)
Definition failed_connect_leaves_unreferenced_tunnel : Prop :=
  ∀ (w : World) (engine : Engine) (params : ConnectParams.t) (st st1 st' : State)
    (tunnel : TunnelInfo.t) (e : Error),
    truthy_str (ConnectParams.sshHost params) = true →
    truthy_str (ConnectParams.sshUsername params) = true →
    createTunnel w (tunnel_request params (default_port engine)) st = (inr tunnel, st1) →
    connect w engine params st = (inl e, st') →
    JsObject.get (TunnelInfo.tunnelId tunnel) (tunnels st') = Some tunnel
    ∧ (∀ connectionId connInfo,
         JsObject.get connectionId (connections st') = Some connInfo →
         ConnectionInfo.tunnelId connInfo ≠ Some (TunnelInfo.tunnelId tunnel))
    ∧ ∀ connectionId,
        JsObject.get (TunnelInfo.tunnelId tunnel)
          (tunnels (closeConnection w connectionId st').2) = Some tunnel.

(** C9 as the claim states it: an explicit flag is what the session gets. *)
Definition pg_ssl_follows_explicit_flag : Prop :=
  ∀ (w : World) (params : ConnectParams.t) (st : State) (flag : bool)
    (evs : list Event) (ev : Event) (cfg : AuthConfig.t),
    truthy_bool (ConnectParams.useIAM params) = false →
    ConnectParams.ssl params = Some flag →
    trace (connectToPostgres w params st).2 = evs ++ trace st →
    ev ∈ evs → session_config_of ev = Some cfg →
    AuthConfig.ssl cfg = Some (SslFlag flag).

(** * Sample worlds, requests and states *)

(** A world in which every outside call succeeds unless an argument says
    otherwise. *)
Definition sample_world (rdsSsl : option string) (clock : Trace → Z)
    (queryAnswer : string → Error + Rows) (rollbackAnswer pgAnswer : option Error)
    (endAnswer : Handle → option Error) : World :=
  {| env_AWS_REGION := None;
     env_RDS_SSL := rdsSsl;
     date_now := clock;
     signer_getAuthToken := fun _ _ _ _ _ => inr "token";
     ssh_connect := fun _ _ => None;
     ssh_forwardOut := fun _ _ _ _ _ => None;
     server_listen := fun _ _ _ => inr 40123;
     mysql_createConnection := fun _ _ => None;
     pg_connect := fun _ _ => pgAnswer;
     conn_query := fun _ _ sql _ => queryAnswer sql;
     conn_beginTransaction := fun _ _ => None;
     conn_commit := fun _ _ => None;
     conn_rollback := fun _ _ => rollbackAnswer;
     conn_end := fun _ connection => endAnswer connection |}.

(** A clock that advances by one millisecond with every outside call. *)
Definition ticking_clock (tr : Trace) : Z := 1700000000000 + Z.of_nat (length tr).

(** Every statement returns one row. *)
Definition one_row (sql : string) : Error + Rows := inr [[VNum 1]].

(** Nothing fails. *)
Definition quiet_world : World :=
  sample_world None ticking_clock one_row None None (fun _ => None).

(** Every driver close throws. *)
Definition failing_end_world : World :=
  sample_world None ticking_clock one_row None None
    (fun _ => Some (JsError "read ECONNRESET")).

(** The driver close of the first connection (handle [0]) throws, every
    other one succeeds. *)
Definition first_end_fails_world : World :=
  sample_world None ticking_clock one_row None None
    (fun connection => if decide (connection = 0%nat)
                       then Some (JsError "read ECONNRESET") else None).

(** The statement that inserts a duplicate fails; [rollbackAnswer] is what
    the driver answers to the rollback. *)
Definition duplicate_key_world (rollbackAnswer : option Error) : World :=
  sample_world None ticking_clock
    (fun sql => if decide (sql = "INSERT INTO audit VALUES (1)")
                then inl (JsError "ER_DUP_ENTRY") else inr [])
    rollbackAnswer None (fun _ => None).

(** The environment asks for SSL: [RDS_SSL=true]. *)
Definition ssl_policy_world : World :=
  sample_world (Some "true") ticking_clock one_row None None (fun _ => None).

(** Two calls that fall into the same millisecond. *)
Definition same_millisecond_world : World :=
  sample_world None (fun _ => 1700000000000) one_row None None (fun _ => None).

(** The database refuses the PostgreSQL session. *)
Definition refusing_db_world : World :=
  sample_world None ticking_clock one_row None
    (Some (JsError "connect ECONNREFUSED 127.0.0.1:40123")) (fun _ => None).

(** The driver was asked to open a session. *)
Fixpoint session_seen (tr : Trace) : bool :=
  match tr with
  | [] => false
  | ev :: tr' =>
      match session_config_of ev with
      | Some _ => true
      | None => session_seen tr'
      end
  end.

(** The clock stands still and the database accepts one session only. *)
Definition one_session_world : World :=
  {| env_AWS_REGION := None;
     env_RDS_SSL := None;
     date_now := fun _ => 1700000000000;
     signer_getAuthToken := fun _ _ _ _ _ => inr "token";
     ssh_connect := fun _ _ => None;
     ssh_forwardOut := fun _ _ _ _ _ => None;
     server_listen := fun _ _ _ => inr 40123;
     mysql_createConnection := fun _ _ => None;
     pg_connect := fun tr _ => if session_seen tr
                               then Some (JsError "too many connections") else None;
     conn_query := fun _ _ _ _ => inr [];
     conn_beginTransaction := fun _ _ => None;
     conn_commit := fun _ _ => None;
     conn_rollback := fun _ _ => None;
     conn_end := fun _ _ => None |}.

(** The tunnel the second tunnelled connect of [tunnel_params] makes under
    [one_session_world]; its id is the id of the first. *)
Definition second_tunnel_same_id : TunnelInfo.t :=
  {| TunnelInfo.sshClient := 8%nat;
     TunnelInfo.server := 10%nat;
     TunnelInfo.localHost := "127.0.0.1";
     TunnelInfo.localPort := 40123;
     TunnelInfo.dbHost := "db.internal";
     TunnelInfo.dbPort := 5432;
     TunnelInfo.tunnelId := "tunnel_1700000000000" |}.

(** A password connect without SSH host. *)
Definition direct_params : ConnectParams.t :=
  {| ConnectParams.host := "db.internal"; ConnectParams.port := None;
     ConnectParams.user := "app"; ConnectParams.password := "secret";
     ConnectParams.database := "orders";
     ConnectParams.useIAM := None; ConnectParams.ssl := None;
     ConnectParams.sshHost := None; ConnectParams.sshPort := None;
     ConnectParams.sshUsername := None; ConnectParams.sshPassword := None;
     ConnectParams.sshPrivateKey := None |}.

(** An IAM connect through a bastion host. *)
Definition tunnel_params : ConnectParams.t :=
  {| ConnectParams.host := "db.internal"; ConnectParams.port := None;
     ConnectParams.user := "app"; ConnectParams.password := "secret";
     ConnectParams.database := "orders";
     ConnectParams.useIAM := Some true; ConnectParams.ssl := None;
     ConnectParams.sshHost := Some "bastion.example"; ConnectParams.sshPort := None;
     ConnectParams.sshUsername := Some "ec2-user";
     ConnectParams.sshPassword := None;
     ConnectParams.sshPrivateKey := Some "-----BEGIN KEY-----" |}.

(** A password connect that asks for no SSL, and the configuration the
    PostgreSQL driver gets for it under [ssl_policy_world]. *)
Definition no_ssl_params : ConnectParams.t :=
  {| ConnectParams.host := "db.internal"; ConnectParams.port := None;
     ConnectParams.user := "app"; ConnectParams.password := "secret";
     ConnectParams.database := "orders";
     ConnectParams.useIAM := None; ConnectParams.ssl := Some false;
     ConnectParams.sshHost := None; ConnectParams.sshPort := None;
     ConnectParams.sshUsername := None; ConnectParams.sshPassword := None;
     ConnectParams.sshPrivateKey := None |}.

Definition no_ssl_config : AuthConfig.t :=
  {| AuthConfig.host := "db.internal"; AuthConfig.port := 5432;
     AuthConfig.user := "app"; AuthConfig.password := "secret";
     AuthConfig.database := "orders";
     AuthConfig.ssl := Some (SslFlag true);
     AuthConfig.authPlugins := None |}.

(** A transaction whose second statement inserts the duplicate. *)
Definition three_statements : list Query.t :=
  [ {| Query.sql := "UPDATE stock SET n = n - 1"; Query.values := None |};
    {| Query.sql := "INSERT INTO audit VALUES (1)"; Query.values := Some [] |};
    {| Query.sql := "DELETE FROM cart"; Query.values := None |} ].

(** The record of the connection in [one_mysql_state]. *)
Definition mysql_record : ConnectionInfo.t :=
  {| ConnectionInfo.connection := 0%nat;
     ConnectionInfo.engine := mysql;
     ConnectionInfo.tunnelId := None |}.

(** A handler with one direct MySQL connection; with one tunnelled
    PostgreSQL connection; with both. *)
Definition one_mysql_state : State :=
  (connectToMySql quiet_world direct_params (constructor quiet_world)).2.

Definition one_tunnel_state : State :=
  (connectToPostgres quiet_world tunnel_params (constructor quiet_world)).2.

Definition two_connections_state : State :=
  (connectToPostgres quiet_world tunnel_params one_mysql_state).2.

(** What two identical direct MySQL connects return under [quiet_world]. *)
Definition first_connection_result : ConnectionResult.t :=
  {| ConnectionResult.connectionId := "mysql_db.internal_orders_1700000000001";
     ConnectionResult.engine := mysql;
     ConnectionResult.connected := true;
     ConnectionResult.viaTunnel := false;
     ConnectionResult.tunnelId := None |}.

Definition second_connection_result : ConnectionResult.t :=
  {| ConnectionResult.connectionId := "mysql_db.internal_orders_1700000000003";
     ConnectionResult.engine := mysql;
     ConnectionResult.connected := true;
     ConnectionResult.viaTunnel := false;
     ConnectionResult.tunnelId := None |}.

(** The tunnel that the refused PostgreSQL connect of [tunnel_params]
    leaves behind. *)
Definition leaked_tunnel : TunnelInfo.t :=
  {| TunnelInfo.sshClient := 0%nat;
     TunnelInfo.server := 2%nat;
     TunnelInfo.localHost := "127.0.0.1";
     TunnelInfo.localPort := 40123;
     TunnelInfo.dbHost := "db.internal";
     TunnelInfo.dbPort := 5432;
     TunnelInfo.tunnelId := "tunnel_1700000000004" |}.

(** * More vocabulary: tunnels *)

(** The object [createTunnel] hands to [sshClient.connect]: the password
    when there is one, else the private key, else nothing to connect with. *)
Definition ssh_config (p : TunnelParams.t) : option SshConfig.t :=
  if truthy_str (TunnelParams.sshPassword p) then
    Some {| SshConfig.host := TunnelParams.sshHost p;
            SshConfig.port := num_or (TunnelParams.sshPort p) 22;
            SshConfig.username := TunnelParams.sshUsername p;
            SshConfig.password := TunnelParams.sshPassword p;
            SshConfig.privateKey := None |}
  else if truthy_str (TunnelParams.sshPrivateKey p) then
    Some {| SshConfig.host := TunnelParams.sshHost p;
            SshConfig.port := num_or (TunnelParams.sshPort p) 22;
            SshConfig.username := TunnelParams.sshUsername p;
            SshConfig.password := None;
            SshConfig.privateKey := TunnelParams.sshPrivateKey p |}
  else None.

Definition no_credentials_error : Error := JsError "Thiếu mật khẩu hoặc private key SSH".

(** The calls of [createTunnel], oldest first: handshake, forwarding,
    listener. *)
Definition forward_event (p : TunnelParams.t) (client : Handle) : Event :=
  EvForwardOut client "127.0.0.1" (num_or (TunnelParams.localPort p) 0)
    (TunnelParams.dbHost p) (TunnelParams.dbPort p).

Definition listen_event (p : TunnelParams.t) (srv : Handle) : Event :=
  EvListen srv (num_or (TunnelParams.localPort p) 0) "127.0.0.1".

(** The five ways [createTunnel] can end, started in [st]. *)
Inductive TunnelOutcome (w : World) (p : TunnelParams.t) (st : State)
  : Result TunnelInfo.t * State → Prop :=
| NoCredentials :
    ssh_config p = None →
    TunnelOutcome w p st (inl no_credentials_error, st)
| HandshakeFailed cfg e :
    ssh_config p = Some cfg →
    ssh_connect w (trace st) cfg = Some e →
    let client := length (trace st) in
    TunnelOutcome w p st
      (inl e, record [EvLog LogError "Lỗi kết nối SSH:" (Some e);
                      EvSshConnect client cfg] st)
| ForwardFailed cfg e :
    ssh_config p = Some cfg →
    ssh_connect w (trace st) cfg = None →
    let client := length (trace st) in
    ssh_forwardOut w (EvSshConnect client cfg :: trace st) "127.0.0.1"
      (num_or (TunnelParams.localPort p) 0) (TunnelParams.dbHost p)
      (TunnelParams.dbPort p) = Some e →
    TunnelOutcome w p st
      (inl e, record [EvSshEnd client; forward_event p client;
                      EvSshConnect client cfg] st)
| ListenFailed cfg e :
    ssh_config p = Some cfg →
    ssh_connect w (trace st) cfg = None →
    let client := length (trace st) in
    let forwarded := forward_event p client :: EvSshConnect client cfg :: trace st in
    ssh_forwardOut w (EvSshConnect client cfg :: trace st) "127.0.0.1"
      (num_or (TunnelParams.localPort p) 0) (TunnelParams.dbHost p)
      (TunnelParams.dbPort p) = None →
    server_listen w forwarded (num_or (TunnelParams.localPort p) 0) "127.0.0.1" = inl e →
    TunnelOutcome w p st
      (inl e, record [EvSshEnd client; listen_event p (length forwarded)] 
                {| region := region st; connections := connections st;
                   tunnels := tunnels st; trace := forwarded |})
| TunnelUp cfg boundPort :
    ssh_config p = Some cfg →
    ssh_connect w (trace st) cfg = None →
    let client := length (trace st) in
    let forwarded := forward_event p client :: EvSshConnect client cfg :: trace st in
    ssh_forwardOut w (EvSshConnect client cfg :: trace st) "127.0.0.1"
      (num_or (TunnelParams.localPort p) 0) (TunnelParams.dbHost p)
      (TunnelParams.dbPort p) = None →
    server_listen w forwarded (num_or (TunnelParams.localPort p) 0) "127.0.0.1"
    = inr boundPort →
    let listening :=
      EvLog LogInfo ("SSH tunnel được thiết lập: 127.0.0.1:" +:+ pretty boundPort
                     +:+ " -> " +:+ TunnelParams.dbHost p +:+ ":"
                     +:+ pretty (TunnelParams.dbPort p)) None
      :: listen_event p (length forwarded) :: forwarded in
    let now := date_now w listening in
    let info :=
      {| TunnelInfo.sshClient := client;
         TunnelInfo.server := length forwarded;
         TunnelInfo.localHost := "127.0.0.1";
         TunnelInfo.localPort := boundPort;
         TunnelInfo.dbHost := TunnelParams.dbHost p;
         TunnelInfo.dbPort := TunnelParams.dbPort p;
         TunnelInfo.tunnelId := "tunnel_" +:+ pretty now |} in
    TunnelOutcome w p st
      (inr info,
       {| region := region st; connections := connections st;
          tunnels := JsObject.set ("tunnel_" +:+ pretty now) info (tunnels st);
          trace := EvDateNow now :: listening |}).

(** A world whose SSH side answers as told and whose SQL side is quiet. *)
Definition tunnel_world (handshake forwarding : option Error) (listener : Error + Z)
  : World :=
  {| env_AWS_REGION := None;
     env_RDS_SSL := None;
     date_now := ticking_clock;
     signer_getAuthToken := fun _ _ _ _ _ => inr "token";
     ssh_connect := fun _ _ => handshake;
     ssh_forwardOut := fun _ _ _ _ _ => forwarding;
     server_listen := fun _ _ _ => listener;
     mysql_createConnection := fun _ _ => None;
     pg_connect := fun _ _ => None;
     conn_query := fun _ _ _ _ => inr [];
     conn_beginTransaction := fun _ _ => None;
     conn_commit := fun _ _ => None;
     conn_rollback := fun _ _ => None;
     conn_end := fun _ _ => None |}.

(** A tunnel request with both a password and a private key. *)
Definition bastion_request : TunnelParams.t :=
  {| TunnelParams.sshHost := "bastion.example";
     TunnelParams.sshPort := None;
     TunnelParams.sshUsername := "ec2-user";
     TunnelParams.sshPassword := Some "hunter2";
     TunnelParams.sshPrivateKey := Some "-----BEGIN KEY-----";
     TunnelParams.dbHost := "db.internal";
     TunnelParams.dbPort := 5432;
     TunnelParams.localPort := Some 0 |}.

(** The tunnel [bastion_request] gives in a fresh handler of a quiet world. *)
Definition bastion_tunnel : TunnelInfo.t :=
  {| TunnelInfo.sshClient := 0%nat;
     TunnelInfo.server := 2%nat;
     TunnelInfo.localHost := "127.0.0.1";
     TunnelInfo.localPort := 40123;
     TunnelInfo.dbHost := "db.internal";
     TunnelInfo.dbPort := 5432;
     TunnelInfo.tunnelId := "tunnel_1700000000004" |}.

(** The tunnel the same request gives when made a second time. *)
Definition second_bastion_tunnel : TunnelInfo.t :=
  {| TunnelInfo.sshClient := 5%nat;
     TunnelInfo.server := 7%nat;
     TunnelInfo.localHost := "127.0.0.1";
     TunnelInfo.localPort := 40123;
     TunnelInfo.dbHost := "db.internal";
     TunnelInfo.dbPort := 5432;
     TunnelInfo.tunnelId := "tunnel_1700000000009" |}.

(** An IAM connect through a bastion host whose SSH credentials are empty
    strings. *)
Definition empty_credentials_params : ConnectParams.t :=
  {| ConnectParams.host := "db.internal"; ConnectParams.port := None;
     ConnectParams.user := "app"; ConnectParams.password := "secret";
     ConnectParams.database := "orders";
     ConnectParams.useIAM := Some true; ConnectParams.ssl := None;
     ConnectParams.sshHost := Some "bastion.example"; ConnectParams.sshPort := None;
     ConnectParams.sshUsername := Some "ec2-user";
     ConnectParams.sshPassword := Some "";
     ConnectParams.sshPrivateKey := Some "" |}.

(** * More vocabulary: sessions *)

(** The connection a driver call is made on. *)
Definition event_connection (ev : Event) : option Handle :=
  match ev with
  | EvQuery c _ _ | EvBeginTransaction c | EvCommit c | EvRollback c | EvEnd c => Some c
  | _ => None
  end.

(** A call of [console.error]. *)
Definition is_error_log (ev : Event) : bool :=
  match ev with
  | EvLog LogError _ _ => true
  | _ => false
  end.

(** A world whose driver answers BEGIN, COMMIT and the rollback as told. *)
Definition transaction_world (beginAnswer commitAnswer rollbackAnswer : option Error)
  : World :=
  {| env_AWS_REGION := None;
     env_RDS_SSL := None;
     date_now := ticking_clock;
     signer_getAuthToken := fun _ _ _ _ _ => inr "token";
     ssh_connect := fun _ _ => None;
     ssh_forwardOut := fun _ _ _ _ _ => None;
     server_listen := fun _ _ _ => inr 40123;
     mysql_createConnection := fun _ _ => None;
     pg_connect := fun _ _ => None;
     conn_query := fun _ _ _ _ => inr [[VNum 1]];
     conn_beginTransaction := fun _ _ => beginAnswer;
     conn_commit := fun _ _ => commitAnswer;
     conn_rollback := fun _ _ => rollbackAnswer;
     conn_end := fun _ _ => None |}.

(** [st'] differs from [st] by outside calls only, each a call of
    [console.error] or a call on the driver of the connection registered
    under [connectionId]. *)
Definition touches_only (connectionId : string) (st st' : State) : Prop :=
  region st' = region st
  ∧ connections st' = connections st
  ∧ tunnels st' = tunnels st
  ∧ ∃ evs,
      trace st' = evs ++ trace st
      ∧ ∀ ev, ev ∈ evs →
          is_error_log ev = true
          ∨ ∃ connInfo,
              JsObject.get connectionId (connections st) = Some connInfo
              ∧ event_connection ev = Some (ConnectionInfo.connection connInfo).

(** * More vocabulary: closing *)

(** What [closeTunnel] does outside for a registered tunnel, newest first:
    it closes the local server, ends the SSH client and logs twice. *)
Definition teardown_events (tunnelId : string) (tunnel : TunnelInfo.t) : list Event :=
  [ EvLog LogInfo ("Đã đóng tunnel " +:+ tunnelId) None;
    EvLog LogInfo "Đã đóng kết nối SSH client" None;
    EvSshEnd (TunnelInfo.sshClient tunnel);
    EvServerClose (TunnelInfo.server tunnel) ].

(** The tunnel [closeConnection] closes with a connection: the one
    registered under the connection's truthy [tunnelId], if there is one. *)
Definition owned_tunnel (connInfo : ConnectionInfo.t) (tunnels : JsObject.t TunnelInfo.t)
  : option (string * TunnelInfo.t) :=
  match ConnectionInfo.tunnelId connInfo with
  | Some tunnelId =>
      if decide (tunnelId = "") then None
      else match JsObject.get tunnelId tunnels with
           | Some tunnel => Some (tunnelId, tunnel)
           | None => None
           end
  | None => None
  end.

(** What [closeConnection] logs for a record whose truthy [tunnelId] is not
    registered: nothing, unless the id is the name of a member of
    [Object.prototype]; [closeTunnel] is then called and logs its one
    line.  The handler itself writes no such record. *)
Definition stray_tunnel_log (connInfo : ConnectionInfo.t) : list Event :=
  match ConnectionInfo.tunnelId connInfo with
  | Some tunnelId =>
      if bool_decide (tunnelId ∈ JsObject.inherited_names)
      then [unregistered_tunnel_log tunnelId] else []
  | None => []
  end.

(** The record of the tunnelled connection in [one_tunnel_state] and its
    tunnel. *)
Definition postgres_record : ConnectionInfo.t :=
  {| ConnectionInfo.connection := 6%nat;
     ConnectionInfo.engine := postgres;
     ConnectionInfo.tunnelId := Some "tunnel_1700000000004" |}.

(** * The shutdown handler of the server

    [shutdown(signal)] of [setupGracefulShutdown] in [index.ts].
    [mcpServer.stop()] belongs to a library outside the sources: here it is
    a call that returns or throws, answered by [stop] from the trace so
    far.  The value returned is the code given to [process.exit]. *)
Definition mcpServer_stop (stop : Trace → option Error) : M unit :=
  st <- get_state ;;
  match stop (trace st) with
  | Some e => throw e
  | None => ret tt
  end.

Definition newline : string := String (ascii_of_nat 10) EmptyString.

Definition shutdown (w : World) (stop : Trace → option Error) (signal : string) : M Z :=
  console LogInfo (newline +:+ signal +:+ " received. Shutting down gracefully...") None ;;;
  try_catch
    (close w ;;;
     console LogInfo "Database connections closed" None ;;;
     mcpServer_stop stop ;;;
     console LogInfo "Shutdown completed" None ;;;
     ret 0)
    (fun error =>
       console LogError "Error during shutdown:" (Some error) ;;;
       ret 1).

(** A tunnel registered in [st] is still registered, unchanged, in [st'],
    or [evs] holds the calls that tear it down. *)
Definition kept_or_torn_down (st st' : State) (evs : list Event) : Prop :=
  ∀ k tunnel,
    JsObject.get k (tunnels st) = Some tunnel →
    JsObject.get k (tunnels st') = Some tunnel
    ∨ (EvServerClose (TunnelInfo.server tunnel) ∈ evs
       ∧ EvSshEnd (TunnelInfo.sshClient tunnel) ∈ evs).

(** * The handler over its lifetime *)

(** [connectToMySqlWithTunnel] and [connectToPostgresWithTunnel], called
    directly, as one operation. *)
Definition connect_with_tunnel (w : World) (engine : Engine)
  : ConnectParams.t → M ConnectionResult.t :=
  match engine with
  | mysql => connectToMySqlWithTunnel w
  | postgres => connectToPostgresWithTunnel w
  end.

(** A call of a method of the handler. *)
Inductive Call :=
| CallGetAuthToken (params : AuthTokenParams.t)
| CallCreateTunnel (params : TunnelParams.t)
| CallCloseTunnel (tunnelId : string)
| CallConnectWithTunnel (engine : Engine) (params : ConnectParams.t)
| CallConnect (engine : Engine) (params : ConnectParams.t)
| CallExecuteQuery (params : QueryParams.t)
| CallExecuteTransaction (params : TransactionParams.t)
| CallCloseConnection (connectionId : string)
| CallClose.

(** The handler after a call, whatever the call returned or threw. *)
Definition after (w : World) (c : Call) (st : State) : State :=
  match c with
  | CallGetAuthToken params => (getAuthToken w params st).2
  | CallCreateTunnel params => (createTunnel w params st).2
  | CallCloseTunnel tunnelId => (closeTunnel tunnelId st).2
  | CallConnectWithTunnel engine params => (connect_with_tunnel w engine params st).2
  | CallConnect engine params => (connect w engine params st).2
  | CallExecuteQuery params => (executeQuery w params st).2
  | CallExecuteTransaction params => (executeTransaction w params st).2
  | CallCloseConnection connectionId => (closeConnection w connectionId st).2
  | CallClose => (close w st).2
  end.

(** A handler is constructed and then called, one call after the other. *)
Definition run (w : World) (calls : list Call) : State :=
  foldl (fun st c => after w c st) (constructor w) calls.

(** The literal a connection id starts with, read off the record that is
    registered under it. *)
Definition registered_prefix (connInfo : ConnectionInfo.t) : string :=
  match ConnectionInfo.engine connInfo, ConnectionInfo.tunnelId connInfo with
  | mysql, Some _ => "mysql_ssh_"
  | mysql, None => "mysql_"
  | postgres, Some _ => "postgres_ssh_"
  | postgres, None => "postgres_"
  end.

(** The record under [connectionId] holds a session that the driver of its
    engine was asked to open among [evs], and the id starts as the method
    for that engine writes it. *)
Definition opened_in (evs : list Event) (connectionId : string)
    (connInfo : ConnectionInfo.t) : Prop :=
  (∃ cfg, session_event (ConnectionInfo.engine connInfo)
            (ConnectionInfo.connection connInfo) cfg ∈ evs)
  ∧ ∃ rest, connectionId = registered_prefix connInfo +:+ rest.

(** The tunnel is stored under its own id, which is [tunnel_] followed by
    a number, and listens on the loopback address. *)
Definition well_named (tunnelId : string) (tunnel : TunnelInfo.t) : Prop :=
  TunnelInfo.tunnelId tunnel = tunnelId
  ∧ (∃ now : Z, tunnelId = "tunnel_" +:+ pretty now)
  ∧ TunnelInfo.localHost tunnel = "127.0.0.1".

(** What holds of a handler at any time. *)
Definition consistent (w : World) (st : State) : Prop :=
  region st = str_or (env_AWS_REGION w) "us-east-1"
  ∧ (∀ connectionId connInfo,
       JsObject.get connectionId (connections st) = Some connInfo →
       opened_in (trace st) connectionId connInfo)
  ∧ (∀ tunnelId tunnel,
       JsObject.get tunnelId (tunnels st) = Some tunnel → well_named tunnelId tunnel).

(** From [st] to [st'] the region is kept, outside calls are added, and
    every entry of a registry is an old one or a well-formed new one. *)
Definition grows (st st' : State) : Prop :=
  region st' = region st
  ∧ ∃ evs,
      trace st' = evs ++ trace st
      ∧ (∀ connectionId connInfo,
           JsObject.get connectionId (connections st') = Some connInfo →
           JsObject.get connectionId (connections st) = Some connInfo
           ∨ opened_in evs connectionId connInfo)
      ∧ (∀ tunnelId tunnel,
           JsObject.get tunnelId (tunnels st') = Some tunnel →
           JsObject.get tunnelId (tunnels st) = Some tunnel
           ∨ well_named tunnelId tunnel).

(** * Proofs *)

(** ** Dictionaries *)

Module JsObjectFacts.
Import JsObject.
Section facts.
Context {V : Type}.
Implicit Types (o : JsObject.t V) (k : string) (v : V).

Lemma get_set_eq o k v : get k (set k v o) = Some v.
Proof.
  induction o as [|[k' v'] o IH]; simpl.
  - by rewrite decide_True.
  - destruct (decide (k = k')) as [->|Hne]; simpl.
    + by rewrite decide_True.
    + by rewrite decide_False.
Qed.

Lemma get_set_ne o k k' v : k ≠ k' → get k' (set k v o) = get k' o.
Proof.
  intros Hne. induction o as [|[k0 v0] o IH]; simpl.
  - by rewrite decide_False.
  - destruct (decide (k = k0)) as [->|Hne0]; simpl.
    + by rewrite !decide_False by done.
    + destruct (decide (k' = k0)); [done|apply IH].
Qed.

Lemma get_delete_eq o k : get k (delete k o) = None.
Proof.
  induction o as [|[k' v'] o IH]; simpl; [done|].
  destruct (decide (k = k')); simpl; [done|]. by rewrite decide_False.
Qed.

Lemma get_delete_ne o k k' : k ≠ k' → get k' (delete k o) = get k' o.
Proof.
  intros Hne. induction o as [|[k0 v0] o IH]; simpl; [done|].
  destruct (decide (k = k0)) as [->|Hne0]; simpl.
  - by rewrite decide_False.
  - destruct (decide (k' = k0)); [done|apply IH].
Qed.

Lemma get_None o k : get k o = None ↔ k ∉ keys o.
Proof.
  unfold keys. induction o as [|[k' v'] o IH]; simpl.
  - split; [intros _; apply not_elem_of_nil|done].
  - rewrite not_elem_of_cons. destruct (decide (k = k')) as [->|Hne].
    + split; [discriminate|]. by intros [? _].
    + rewrite IH. split; [by intros ?|by intros [_ ?]].
Qed.

Lemma get_Some_key o k v : get k o = Some v → k ∈ keys o.
Proof.
  intros H. destruct (decide (k ∈ keys o)) as [|Hn]; [done|].
  apply get_None in Hn. congruence.
Qed.

Lemma keys_delete o k k' : k' ∈ keys (delete k o) ↔ k' ∈ keys o ∧ k' ≠ k.
Proof.
  unfold keys. induction o as [|[k0 v0] o IH]; simpl.
  - rewrite elem_of_nil. split; [done|by intros [? _]].
  - destruct (decide (k = k0)) as [->|Hne]; simpl.
    + rewrite IH, elem_of_cons.
      split; [intros [? ?]; split; [by right|done]|].
      intros [[->|?] ?]; [done|by split].
    + rewrite !elem_of_cons, IH. split.
      * intros [->|[? ?]]; [split; [by left|congruence]|split; [by right|done]].
      * intros [[->|?] ?]; [by left|right; by split].
Qed.

Lemma read_own o k v : get k o = Some v → read k o = Own v.
Proof. unfold read. by intros ->. Qed.

Lemma read_not_own o k :
  get k o = None →
  read k o = if bool_decide (k ∈ inherited_names) then Inherited else Undefined.
Proof. unfold read. by intros ->. Qed.

Lemma read_undefined o k :
  get k o = None → k ∉ inherited_names → read k o = Undefined.
Proof. intros H Hk. by rewrite read_not_own, bool_decide_eq_false_2. Qed.

Lemma has_true o k : has k o = true ↔ k ∈ keys o ∨ k ∈ inherited_names.
Proof.
  unfold has, read. destruct (get k o) eqn:E.
  - split; [intros _; left; by eapply get_Some_key|done].
  - apply get_None in E. case_bool_decide; split; try done; auto.
    intros [?|?]; done.
Qed.

End facts.
End JsObjectFacts.

(** ** Unknown ids and the two close methods *)

Lemma delete_absent {V} (o : JsObject.t V) k :
  JsObject.get k o = None → JsObject.delete k o = o.
Proof.
  induction o as [|[k' v'] o IH]; simpl; [done|].
  destruct (decide (k = k')); [done|]. intros H. by rewrite IH.
Qed.

Lemma executeQuery_absent w st connectionId query values :
  JsObject.get connectionId (connections st) = None →
  let e := unregistered_error connectionId " not found or closed" "query" in
  executeQuery w (QueryParams.mk connectionId query values) st
  = (inl e, record [EvLog LogError "Error executing query on RDS:" (Some e)] st).
Proof.
  intros H. unfold executeQuery, JsObject.read, try_catch, bind, get_state, unregistered_error; simpl.
  rewrite H. by case_bool_decide.
Qed.

Lemma executeTransaction_absent w st connectionId queries :
  JsObject.get connectionId (connections st) = None →
  let e := unregistered_error connectionId " not found or closed" "query" in
  executeTransaction w (TransactionParams.mk connectionId queries) st
  = (inl e, record [EvLog LogError "Error executing transaction on RDS:" (Some e)] st).
Proof.
  intros H. unfold executeTransaction, JsObject.read, try_catch, bind, get_state, unregistered_error; simpl.
  rewrite H. by case_bool_decide.
Qed.

Lemma closeConnection_absent w st connectionId :
  JsObject.get connectionId (connections st) = None →
  let e := unregistered_error connectionId " not found or already closed" "end" in
  closeConnection w connectionId st
  = (inl e, record [EvLog LogError "Error closing RDS connection:" (Some e)] st).
Proof.
  intros H. unfold closeConnection, JsObject.read, try_catch, bind, get_state, unregistered_error; simpl.
  rewrite H. by case_bool_decide.
Qed.

Lemma closeTunnel_absent st tunnelId :
  JsObject.get tunnelId (tunnels st) = None →
  closeTunnel tunnelId st = (inr tt, record [unregistered_tunnel_log tunnelId] st).
Proof.
  intros H. unfold closeTunnel, JsObject.read, bind, get_state, unregistered_tunnel_log; simpl.
  rewrite H. case_bool_decide; [|done].
  unfold set_tunnels, console, emit, record; simpl. by rewrite delete_absent.
Qed.

Lemma closeTunnel_present st tunnelId tunnel :
  JsObject.get tunnelId (tunnels st) = Some tunnel →
  closeTunnel tunnelId st
  = (inr tt,
     {| region := region st; connections := connections st;
        tunnels := JsObject.delete tunnelId (tunnels st);
        trace := EvLog LogInfo ("Đã đóng tunnel " +:+ tunnelId) None
                 :: EvLog LogInfo "Đã đóng kết nối SSH client" None
                 :: EvSshEnd (TunnelInfo.sshClient tunnel)
                 :: EvServerClose (TunnelInfo.server tunnel)
                 :: trace st |}).
Proof.
  intros H. unfold closeTunnel, JsObject.read, bind, get_state; simpl. rewrite H. done.
Qed.

Lemma closeConnection_fails w st connectionId connInfo err :
  JsObject.get connectionId (connections st) = Some connInfo →
  conn_end w (trace st) (ConnectionInfo.connection connInfo) = Some err →
  closeConnection w connectionId st
  = (inl err,
     record [EvLog LogError "Error closing RDS connection:" (Some err);
             EvEnd (ConnectionInfo.connection connInfo)] st).
Proof.
  intros H E. unfold closeConnection, JsObject.read, try_catch, bind, get_state; simpl.
  rewrite H.
  destruct (ConnectionInfo.engine connInfo);
    unfold await_unit, call, bind; simpl; rewrite E; done.
Qed.

Lemma closeConnection_succeeds w st connectionId connInfo :
  JsObject.get connectionId (connections st) = Some connInfo →
  conn_end w (trace st) (ConnectionInfo.connection connInfo) = None →
  ∃ st' evs,
    closeConnection w connectionId st
    = (inr {| CloseResult.success := true;
              CloseResult.message := "Đã đóng kết nối " +:+ connectionId |}, st')
    ∧ connections st' = JsObject.delete connectionId (connections st)
    ∧ tunnels st' = tunnels_after_close connInfo (tunnels st)
    ∧ trace st' = evs ++ EvEnd (ConnectionInfo.connection connInfo) :: trace st.
Proof.
  intros H E. unfold closeConnection, JsObject.read, try_catch, bind, get_state, tunnels_after_close; simpl.
  rewrite H.
  assert (await_unit (EvEnd (ConnectionInfo.connection connInfo))
                 (λ tr, conn_end w tr (ConnectionInfo.connection connInfo)) st
               = (inr tt, record [EvEnd (ConnectionInfo.connection connInfo)] st)) as Hend.
  { unfold await_unit, call, bind; simpl. by rewrite E. }
  destruct (ConnectionInfo.tunnelId connInfo) as [tid|] eqn:Etid; simpl.
  - destruct (decide (tid = "")) as [->|Hne]; simpl.
    + destruct (ConnectionInfo.engine connInfo); rewrite Hend; simpl;
        eexists _, []; repeat split; done.
    + unfold JsObject.has, JsObject.read.
      destruct (JsObject.get tid (tunnels st)) as [tunnel|] eqn:Etun.
      * destruct (ConnectionInfo.engine connInfo); rewrite Hend; simpl;
          rewrite Etun; simpl;
          (erewrite closeTunnel_present by (simpl; exact Etun)); simpl;
          eexists _, [_; _; _; _]; repeat split; done.
      * rewrite (delete_absent _ _ Etun).
        destruct (bool_decide (tid ∈ JsObject.inherited_names)) eqn:Hin.
        -- destruct (ConnectionInfo.engine connInfo); rewrite Hend; simpl;
             rewrite Etun; simpl;
             (erewrite closeTunnel_absent by (simpl; exact Etun)); simpl;
             eexists _, [_]; repeat split; done.
        -- destruct (ConnectionInfo.engine connInfo); rewrite Hend; simpl;
             rewrite Etun; simpl; eexists _, []; repeat split; done.
  - destruct (ConnectionInfo.engine connInfo); rewrite Hend; simpl;
      eexists _, []; repeat split; done.
Qed.

Lemma closeConnection_ok_absent w st connectionId r st' :
  closeConnection w connectionId st = (inr r, st') →
  JsObject.get connectionId (connections st') = None.
Proof.
  intros Hrun.
  destruct (JsObject.get connectionId (connections st)) as [connInfo|] eqn:Hget.
  - destruct (conn_end w (trace st) (ConnectionInfo.connection connInfo)) as [err|] eqn:Hend.
    + rewrite (closeConnection_fails _ _ _ _ _ Hget Hend) in Hrun. discriminate.
    + destruct (closeConnection_succeeds _ _ _ _ Hget Hend) as (st1 & evs & Heq & Hc & _).
      rewrite Heq in Hrun. injection Hrun as _ <-.
      rewrite Hc. apply JsObjectFacts.get_delete_eq.
  - rewrite (closeConnection_absent _ _ _ Hget) in Hrun. discriminate.
Qed.

(** C7.  A connectionId that is not in the connection registry, because it
    was never created or because [closeConnection] already succeeded on it,
    makes [executeQuery], [executeTransaction] and [closeConnection] each
    log and throw one error and do nothing else: no driver is called and
    both registries stay as they are.  The error is the not-found error
    whose message names the id, except when the id is the name of a member
    of [Object.prototype] ([constructor], [toString], [__proto__], ...):
    then the method finds that member, does not take the id for unknown,
    and throws the [TypeError] of calling [query] or [end] on the
    connection the member does not have. *)
Theorem unknown_connection_error (w : World) (st : State) (connectionId : string) :
  (JsObject.get connectionId (connections st) = None
   ∨ ∃ st0 r, closeConnection w connectionId st0 = (inr r, st)) →
  let inherited := bool_decide (connectionId ∈ JsObject.inherited_names) in
  let closed :=
    if inherited then undefined_member "query"
    else NotFoundError connectionId " not found or closed" in
  let already_closed :=
    if inherited then undefined_member "end"
    else NotFoundError connectionId " not found or already closed" in
  (∀ query values,
     executeQuery w (QueryParams.mk connectionId query values) st
     = (inl closed,
        record [EvLog LogError "Error executing query on RDS:" (Some closed)] st))
  ∧ (∀ queries,
       executeTransaction w (TransactionParams.mk connectionId queries) st
       = (inl closed,
          record [EvLog LogError "Error executing transaction on RDS:" (Some closed)] st))
  ∧ closeConnection w connectionId st
    = (inl already_closed,
       record [EvLog LogError "Error closing RDS connection:" (Some already_closed)] st).
Proof.
  intros Habsent inherited closed already_closed.
  assert (JsObject.get connectionId (connections st) = None) as Hget.
  { destruct Habsent as [H|(st0 & r & H)]; [exact H|].
    eapply closeConnection_ok_absent, H. }
  repeat split; intros.
  - by apply executeQuery_absent.
  - by apply executeTransaction_absent.
  - by apply closeConnection_absent.
Qed.

Lemma unknown_connection_error_witness :
  let w := quiet_world in
  let id := "mysql_db.internal_orders_1700000000001" in
  let st := (closeConnection w id one_mysql_state).2 in
  (∃ st0 r, closeConnection w id st0 = (inr r, st))
  ∧ (executeQuery w (QueryParams.mk id "SELECT 1" None) st).1
    = inl (JsError "Connection mysql_db.internal_orders_1700000000001 not found or closed")
  ∧ JsObject.get "constructor" (connections one_mysql_state) = None
  ∧ (executeQuery w (QueryParams.mk "constructor" "SELECT 1" None) one_mysql_state).1
    = inl (JsTypeError "Cannot read properties of undefined (reading 'query')")
  ∧ (closeConnection w "constructor" one_mysql_state).1
    = inl (JsTypeError "Cannot read properties of undefined (reading 'end')").
Proof.
  intros w id st.
  assert (∃ st0 r, closeConnection w id st0 = (inr r, st)) as H.
  { exists one_mysql_state,
      {| CloseResult.success := true;
         CloseResult.message := "Đã đóng kết nối mysql_db.internal_orders_1700000000001" |}.
    vm_compute. reflexivity. }
  split; [exact H|].
  destruct (unknown_connection_error w st id (or_intror H)) as (Hq & _ & _).
  split; [rewrite Hq; reflexivity|].
  assert (JsObject.get "constructor" (connections one_mysql_state) = None) as Hc
    by (vm_compute; reflexivity).
  split; [exact Hc|].
  destruct (unknown_connection_error w one_mysql_state "constructor" (or_introl Hc))
    as (Hq' & _ & Hclose).
  split; [rewrite Hq'; reflexivity|rewrite Hclose; reflexivity].
Defined.

(** C8.  [closeTunnel] is idempotent.  On an id that is not in the tunnel
    registry it logs one line and returns, leaving the handler as it is:
    the line is the warning, or, when the id is the name of a member of
    [Object.prototype], the line that reports a closed tunnel.  On any id
    it returns without throwing, the id is not in the registry afterwards,
    and a second call is such a logged no-op. *)
Theorem closeTunnel_idempotent (st : State) (tunnelId : string) :
  (JsObject.get tunnelId (tunnels st) = None →
   closeTunnel tunnelId st = (inr tt, record [unregistered_tunnel_log tunnelId] st))
  ∧ ∃ st1,
      closeTunnel tunnelId st = (inr tt, st1)
      ∧ JsObject.get tunnelId (tunnels st1) = None
      ∧ closeTunnel tunnelId st1
        = (inr tt, record [unregistered_tunnel_log tunnelId] st1)
      ∧ (tunnelId ∉ JsObject.inherited_names →
         unregistered_tunnel_log tunnelId
         = EvLog LogWarn ("Tunnel " +:+ tunnelId +:+ " không tồn tại hoặc đã đóng") None).
Proof.
  assert (tunnelId ∉ JsObject.inherited_names →
          unregistered_tunnel_log tunnelId
          = EvLog LogWarn ("Tunnel " +:+ tunnelId +:+ " không tồn tại hoặc đã đóng") None)
    as Hwarn.
  { intros Hk. unfold unregistered_tunnel_log. by rewrite bool_decide_eq_false_2. }
  split; [apply closeTunnel_absent|].
  destruct (JsObject.get tunnelId (tunnels st)) as [tunnel|] eqn:Hget.
  - rewrite (closeTunnel_present _ _ _ Hget).
    eexists; split; [reflexivity|].
    assert (JsObject.get tunnelId (JsObject.delete tunnelId (tunnels st)) = None) as Hgone
      by apply JsObjectFacts.get_delete_eq.
    split; [exact Hgone|]. split; [by apply closeTunnel_absent|exact Hwarn].
  - rewrite (closeTunnel_absent _ _ Hget).
    eexists; split; [reflexivity|].
    split; [exact Hget|]. split; [by apply closeTunnel_absent|exact Hwarn].
Qed.

Lemma closeTunnel_idempotent_witness :
  let id := "tunnel_1700000000004" in
  let st1 := (closeTunnel id one_tunnel_state).2 in
  JsObject.get id (tunnels one_tunnel_state) ≠ None
  ∧ JsObject.get id (tunnels st1) = None
  ∧ (closeTunnel id st1).1 = inr tt
  ∧ tunnels (closeTunnel id st1).2 = tunnels st1.
Proof.
  intros id st1.
  split; [vm_compute; discriminate|].
  assert (JsObject.get id (tunnels st1) = None) as H by (vm_compute; reflexivity).
  split; [exact H|].
  destruct (closeTunnel_idempotent st1 id) as [Hnoop _].
  rewrite (Hnoop H). split; reflexivity.
Defined.

(** C3, counterexample: the driver close of a registered tunnelled
    connection throws; the record and its tunnel stay registered. *)
Lemma closeConnection_keeps_record_on_error :
  let id := "postgres_ssh_db.internal_orders_1700000000007" in
  let out := closeConnection failing_end_world id one_tunnel_state in
  out.1 = inl (JsError "read ECONNRESET")
  ∧ JsObject.get id (connections out.2) = JsObject.get id (connections one_tunnel_state)
  ∧ JsObject.keys (connections out.2) = [id]
  ∧ JsObject.keys (tunnels out.2) = ["tunnel_1700000000004"]
  ∧ ¬ closeConnection_always_removes.
Proof.
  split; [vm_compute; reflexivity|]. split; [vm_compute; reflexivity|].
  split; [vm_compute; reflexivity|]. split; [vm_compute; reflexivity|].
  intros H.
  specialize (H failing_end_world one_tunnel_state
                "postgres_ssh_db.internal_orders_1700000000007").
  vm_compute in H. specialize (H _ eq_refl). discriminate.
Qed.

(** C3 (amended).  For a registered connectionId, [closeConnection] removes
    the ConnectionRecord, and the registry entry of its tunnel when it has
    one, if the driver's [end()] succeeds.  If [end()] reports an error,
    that error is logged and thrown again and both registries are left as
    they were. *)
Theorem closeConnection_removes_on_success (w : World) (st : State)
    (connectionId : string) (connInfo : ConnectionInfo.t) :
  JsObject.get connectionId (connections st) = Some connInfo →
  match conn_end w (trace st) (ConnectionInfo.connection connInfo) with
  | None =>
      ∃ st', closeConnection w connectionId st
             = (inr {| CloseResult.success := true;
                       CloseResult.message := "Đã đóng kết nối " +:+ connectionId |}, st')
        ∧ JsObject.get connectionId (connections st') = None
        ∧ ∀ tunnelId, ConnectionInfo.tunnelId connInfo = Some tunnelId → tunnelId ≠ "" →
                      JsObject.get tunnelId (tunnels st') = None
  | Some err =>
      ∃ st', closeConnection w connectionId st = (inl err, st')
        ∧ connections st' = connections st
        ∧ tunnels st' = tunnels st
        ∧ trace st' = EvLog LogError "Error closing RDS connection:" (Some err)
                      :: EvEnd (ConnectionInfo.connection connInfo) :: trace st
  end.
Proof.
  intros Hget.
  destruct (conn_end w (trace st) (ConnectionInfo.connection connInfo)) as [err|] eqn:Hend.
  - rewrite (closeConnection_fails _ _ _ _ _ Hget Hend).
    eexists; split; [reflexivity|]. repeat split.
  - destruct (closeConnection_succeeds _ _ _ _ Hget Hend) as (st' & evs & Heq & Hc & Ht & _).
    exists st'. split; [exact Heq|]. split.
    + rewrite Hc. apply JsObjectFacts.get_delete_eq.
    + intros tunnelId Htid Hne. rewrite Ht. unfold tunnels_after_close.
      rewrite Htid, decide_False by done. apply JsObjectFacts.get_delete_eq.
Qed.

Lemma closeConnection_removes_on_success_witness :
  let id := "postgres_ssh_db.internal_orders_1700000000007" in
  let connInfo := {| ConnectionInfo.connection := 6%nat;
                     ConnectionInfo.engine := postgres;
                     ConnectionInfo.tunnelId := Some "tunnel_1700000000004" |} in
  JsObject.get id (connections one_tunnel_state) = Some connInfo
  ∧ ∃ st', (closeConnection quiet_world id one_tunnel_state).2 = st'
           ∧ JsObject.get id (connections st') = None
           ∧ JsObject.get "tunnel_1700000000004" (tunnels st') = None.
Proof.
  intros id connInfo.
  assert (JsObject.get id (connections one_tunnel_state) = Some connInfo) as H
    by (vm_compute; reflexivity).
  split; [exact H|].
  pose proof (closeConnection_removes_on_success quiet_world one_tunnel_state id connInfo H)
    as Hthm.
  simpl in Hthm. destruct Hthm as (st' & Heq & Hc & Ht).
  exists st'. rewrite Heq. split; [reflexivity|]. split; [exact Hc|].
  apply Ht; [reflexivity|discriminate].
Defined.

(** ** The shutdown sweep *)

Lemma close_one_spec w connectionId st :
  ∃ st' evs,
    close_one w connectionId st = (inr tt, st')
    ∧ trace st' = evs ++ trace st
    ∧ (∀ k, k ≠ connectionId →
            JsObject.get k (connections st') = JsObject.get k (connections st))
    ∧ (JsObject.get connectionId (connections st') = None
       ∨ JsObject.get connectionId (connections st')
         = JsObject.get connectionId (connections st)
         ∧ ∃ err, sweep_log connectionId err ∈ evs)
    ∧ (∀ connInfo, JsObject.get connectionId (connections st) = Some connInfo →
                   EvEnd (ConnectionInfo.connection connInfo) ∈ evs)
    ∧ ((∀ tr h, conn_end w tr h = None) →
       JsObject.get connectionId (connections st') = None).
Proof.
  unfold close_one, try_catch, bind.
  destruct (JsObject.get connectionId (connections st)) as [connInfo|] eqn:Hget.
  - destruct (conn_end w (trace st) (ConnectionInfo.connection connInfo)) as [err|] eqn:Hend.
    + rewrite (closeConnection_fails _ _ _ _ _ Hget Hend). simpl.
      eexists _, [_; _; _]. split; [reflexivity|]. split; [reflexivity|]. simpl.
      split; [done|]. split.
      { right. split; [done|]. exists err. apply list_elem_of_here. }
      split.
      { intros ci [= <-]. do 2 apply list_elem_of_further. apply list_elem_of_here. }
      intros Hquiet. rewrite Hquiet in Hend. discriminate.
    + destruct (closeConnection_succeeds _ _ _ _ Hget Hend) as (st' & evs & Heq & Hc & _ & Htr).
      rewrite Heq. simpl.
      exists st', (evs ++ [EvEnd (ConnectionInfo.connection connInfo)]).
      split; [reflexivity|]. split; [by rewrite <-app_assoc|].
      split; [intros k Hk; rewrite Hc; by apply JsObjectFacts.get_delete_ne|].
      split; [left; rewrite Hc; apply JsObjectFacts.get_delete_eq|].
      split; [intros ci [= <-]; apply elem_of_app; right; apply list_elem_of_here|].
      intros _. rewrite Hc. apply JsObjectFacts.get_delete_eq.
  - rewrite (closeConnection_absent _ _ _ Hget). simpl.
    eexists _, [_; _]. split; [reflexivity|]. split; [reflexivity|]. simpl.
    split; [done|]. split; [by left|]. split; [done|]. done.
Qed.

Lemma close_connections_cons w connectionId rest st :
  close_connections w (connectionId :: rest) st
  = close_connections w rest (close_one w connectionId st).2.
Proof.
  destruct (close_one_spec w connectionId st) as (st' & evs & Heq & _).
  change (close_connections w (connectionId :: rest) st)
    with (bind (close_one w connectionId) (fun _ => close_connections w rest) st).
  unfold bind. by rewrite Heq.
Qed.

Lemma close_connections_spec w ids : ∀ st,
  ∃ st' evs,
    close_connections w ids st = (inr tt, st')
    ∧ trace st' = evs ++ trace st
    ∧ (∀ k connInfo, JsObject.get k (connections st') = Some connInfo →
                     JsObject.get k (connections st) = Some connInfo)
    ∧ (∀ k, k ∈ ids → JsObject.get k (connections st') ≠ None →
            ∃ err, sweep_log k err ∈ evs)
    ∧ (∀ k connInfo, k ∈ ids → JsObject.get k (connections st) = Some connInfo →
                     EvEnd (ConnectionInfo.connection connInfo) ∈ evs)
    ∧ ((∀ tr h, conn_end w tr h = None) →
       ∀ k, k ∈ ids → JsObject.get k (connections st') = None).
Proof.
  induction ids as [|id rest IH]; intros st.
  - exists st, []. simpl. split; [done|]. split; [done|]. split; [done|].
    split; [intros k Hk; by apply elem_of_nil in Hk|].
    split; [intros k ci Hk; by apply elem_of_nil in Hk|].
    intros _ k Hk; by apply elem_of_nil in Hk.
  - rewrite close_connections_cons.
    destruct (close_one_spec w id st) as (st1 & evs1 & Heq1 & Htr1 & Hother & Hself & Hend1 & Hq1).
    rewrite Heq1. simpl.
    destruct (IH st1) as (st' & evs & Heq & Htr & Hsub & Hlog & Hend & Hq).
    exists st', (evs ++ evs1).
    split; [exact Heq|]. split; [by rewrite Htr, Htr1, app_assoc|].
    assert (∀ k connInfo, JsObject.get k (connections st1) = Some connInfo →
                          JsObject.get k (connections st) = Some connInfo) as Hsub1.
    { intros k ci Hk. destruct (decide (k = id)) as [->|Hne].
      - destruct Hself as [Hnone|[Hsame _]]; congruence.
      - by rewrite <-Hother. }
    split; [intros k ci Hk; by apply Hsub1, Hsub|].
    split.
    { intros k Hk Hsome. apply elem_of_cons in Hk as [->|Hk].
      - destruct (decide (id ∈ rest)) as [Hin|Hnin].
        + destruct (Hlog _ Hin Hsome) as [err Herr]. exists err. apply elem_of_app; by left.
        + destruct Hself as [Hnone|[_ [err Herr]]].
          * exfalso. apply Hsome.
            destruct (JsObject.get id (connections st')) as [ci|] eqn:E; [|done].
            apply Hsub in E. congruence.
          * exists err. apply elem_of_app; by right.
      - destruct (Hlog _ Hk Hsome) as [err Herr]. exists err. apply elem_of_app; by left. }
    split.
    { intros k ci Hk Hget. destruct (decide (k = id)) as [->|Hne].
      - apply elem_of_app; right. by apply Hend1.
      - apply elem_of_cons in Hk as [->|Hk]; [done|].
        apply elem_of_app; left. eapply Hend; [exact Hk|]. by rewrite Hother. }
    intros Hquiet k Hk. apply elem_of_cons in Hk as [->|Hk].
    + specialize (Hq1 Hquiet).
      destruct (JsObject.get id (connections st')) as [ci|] eqn:E; [|done].
      apply Hsub in E. congruence.
    + by apply Hq.
Qed.

Lemma close_tunnels_spec ids : ∀ st,
  ∃ st' evs,
    close_tunnels ids st = (inr tt, st')
    ∧ trace st' = evs ++ trace st
    ∧ connections st' = connections st
    ∧ (∀ k, k ∈ JsObject.keys (tunnels st') →
            k ∈ JsObject.keys (tunnels st) ∧ k ∉ ids).
Proof.
  induction ids as [|id rest IH]; intros st.
  - exists st, []. simpl. split; [done|]. split; [done|]. split; [done|].
    intros k Hk. split; [done|apply not_elem_of_nil].
  - simpl. unfold bind, try_catch.
    destruct (JsObject.get id (tunnels st)) as [tunnel|] eqn:Hget.
    + rewrite (closeTunnel_present _ _ _ Hget).
      match goal with |- context [close_tunnels rest ?s] =>
        destruct (IH s) as (st' & evs & Heq & Htr & Hc & Hk) end.
      simpl in *. rewrite Heq.
      eexists st', (evs ++ [_; _; _; _]).
      split; [done|]. split; [by rewrite Htr, <-app_assoc|]. split; [done|].
      intros k Hin. apply Hk in Hin as [Hin Hnin].
      apply JsObjectFacts.keys_delete in Hin as [Hin Hne].
      split; [done|]. rewrite not_elem_of_cons. done.
    + rewrite (closeTunnel_absent _ _ Hget).
      match goal with |- context [close_tunnels rest ?s] =>
        destruct (IH s) as (st' & evs & Heq & Htr & Hc & Hk) end.
      simpl in *. rewrite Heq.
      eexists st', (evs ++ [_]).
      split; [done|]. split; [by rewrite Htr, <-app_assoc|]. split; [done|].
      intros k Hin. apply Hk in Hin as [Hin Hnin].
      split; [done|]. rewrite not_elem_of_cons. split; [|done].
      intros ->. apply JsObjectFacts.get_None in Hget. done.
Qed.

Lemma all_absent_empty {V} (o : JsObject.t V) :
  (∀ k, JsObject.get k o = None) → o = JsObject.empty.
Proof.
  destruct o as [|[k v] o]; [done|]. intros H. specialize (H k). simpl in H.
  by rewrite decide_True in H.
Qed.

(** C1, counterexample: two live connections, one tunnelled; the driver
    close of the first throws and [close()] leaves it registered. *)
Lemma close_leaves_failed_connection :
  JsObject.keys (connections two_connections_state)
  = ["mysql_db.internal_orders_1700000000001";
     "postgres_ssh_db.internal_orders_1700000000009"]
  ∧ JsObject.keys (connections (close first_end_fails_world two_connections_state).2)
    = ["mysql_db.internal_orders_1700000000001"]
  ∧ ¬ close_empties_both_registries.
Proof.
  split; [vm_compute; reflexivity|].
  split; [vm_compute; reflexivity|].
  intros H. destruct (H first_end_fails_world two_connections_state) as [Hc _].
  vm_compute in Hc. discriminate.
Qed.

Lemma close_spec (w : World) (st : State) :
  ∃ st' evs,
    close w st
    = (inr {| CloseResult.success := true;
              CloseResult.message := "Đã đóng tất cả kết nối và tunnel" |}, st')
    ∧ trace st' = evs ++ trace st
    ∧ tunnels st' = JsObject.empty
    ∧ (∀ k connInfo,
         JsObject.get k (connections st') = Some connInfo →
         JsObject.get k (connections st) = Some connInfo
         ∧ ∃ err, sweep_log k err ∈ evs)
    ∧ (∀ k connInfo,
         JsObject.get k (connections st) = Some connInfo →
         EvEnd (ConnectionInfo.connection connInfo) ∈ evs)
    ∧ ((∀ tr h, conn_end w tr h = None) → connections st' = JsObject.empty).
Proof.
  unfold close, try_catch, bind, get_state.
  destruct (close_connections_spec w (JsObject.keys (connections st)) st)
    as (st1 & evs1 & Heq1 & Htr1 & Hsub & Hlog & Hend & Hquiet).
  rewrite Heq1.
  destruct (close_tunnels_spec (JsObject.keys (tunnels st1)) st1)
    as (st2 & evs2 & Heq2 & Htr2 & Hc2 & Hkeys).
  rewrite Heq2. simpl.
  exists st2, (evs2 ++ evs1).
  split; [done|]. split; [by rewrite Htr2, Htr1, app_assoc|].
  split.
  { apply all_absent_empty. intros k.
    apply JsObjectFacts.get_None. intros Hin. by apply Hkeys in Hin as [? ?]. }
  split.
  { intros k ci Hget. rewrite Hc2 in Hget. split; [by apply Hsub|].
    assert (k ∈ JsObject.keys (connections st)) as Hin
      by (eapply JsObjectFacts.get_Some_key, Hsub, Hget).
    destruct (Hlog k Hin) as [err Herr]; [congruence|].
    exists err. apply elem_of_app; by right. }
  split.
  { intros k ci Hget. apply elem_of_app; right.
    eapply Hend; [|exact Hget]. by eapply JsObjectFacts.get_Some_key. }
  intros Hq. rewrite Hc2. apply all_absent_empty. intros k.
  destruct (JsObject.get k (connections st1)) as [ci|] eqn:E; [|done].
  rewrite Hquiet in E; [done|done|].
  eapply JsObjectFacts.get_Some_key, Hsub, E.
Qed.

(** ** Transactions *)

Lemma tx_run_eq w engine connection op st :
  tx_run w engine connection op st
  = (match tx_answer w engine connection op (trace st) with
     | Some e => inl e
     | None => inr tt
     end, record [tx_event engine connection op] st).
Proof.
  destruct engine, op; simpl;
    unfold tx_begin, tx_commit, tx_rollback, driver_query, await_unit, await_val, call, bind;
    simpl.
  all: unfold failure;
    match goal with
    | |- context [conn_query ?w ?tr ?c ?s ?v] => destruct (conn_query w tr c s v)
    | |- context [conn_beginTransaction ?w ?tr ?c] => destruct (conn_beginTransaction w tr c)
    | |- context [conn_commit ?w ?tr ?c] => destruct (conn_commit w tr c)
    | |- context [conn_rollback ?w ?tr ?c] => destruct (conn_rollback w tr c)
    end; done.
Qed.

Lemma run_queries_app w connection qs1 : ∀ qs2 results st,
  run_queries w connection (qs1 ++ qs2) results st
  = match run_queries w connection qs1 results st with
    | (inr results', st') => run_queries w connection qs2 results' st'
    | (inl e, st') => (inl e, st')
    end.
Proof.
  induction qs1 as [|q qs1 IH]; intros qs2 results st; simpl; [done|].
  unfold bind. destruct (driver_query _ _ _ _ st) as [[e|rows] st1]; [done|]. apply IH.
Qed.

Lemma run_queries_ok w connection qs : ∀ results st results' st',
  run_queries w connection qs results st = (inr results', st') →
  st' = record (rev (map (stmt_event connection) qs)) st.
Proof.
  induction qs as [|q qs IH]; intros results st results' st'; simpl.
  - intros [= _ <-]. by destruct st.
  - unfold bind, driver_query, await_val, call, bind; simpl.
    destruct (conn_query _ _ _ _ _) as [e|rows]; simpl; [discriminate|].
    intros H. apply IH in H. rewrite H. unfold record; simpl.
    by rewrite <-app_assoc.
Qed.

Lemma run_queries_fail_here w connection q rest results st e :
  conn_query w (trace st) connection (Query.sql q)
             (Some (values_or_empty (Query.values q))) = inl e →
  run_queries w connection (q :: rest) results st
  = (inl e, record [stmt_event connection q] st).
Proof.
  intros H. simpl. unfold bind, driver_query, await_val, call, bind; simpl.
  by rewrite H.
Qed.

(** C2 (amended).  On a registered connection, let BEGIN succeed, the
    statements before [k] succeed and statement [k] fail with [e].  Then the
    outside calls of [executeTransaction] are BEGIN, the statements up to
    [k] in the caller's order, and the rollback, with no statement after
    [k]; the registries are unchanged; and the error logged and thrown is
    [e] when the rollback succeeds, the rollback's own error when the
    rollback fails. *)
Theorem executeTransaction_failure (w : World) (st : State) (connectionId : string)
    (connInfo : ConnectionInfo.t) (queries : list Query.t)
    (k : nat) (query : Query.t) (e : Error) (rows : list Rows) (st2 : State) :
  let connection := ConnectionInfo.connection connInfo in
  let engine := ConnectionInfo.engine connInfo in
  JsObject.get connectionId (connections st) = Some connInfo →
  tx_answer w engine connection TxBegin (trace st) = None →
  run_queries w connection (take k queries) []
              (record [tx_event engine connection TxBegin] st) = (inr rows, st2) →
  queries !! k = Some query →
  conn_query w (trace st2) connection (Query.sql query)
             (Some (values_or_empty (Query.values query))) = inl e →
  let executed :=
    rev (map (stmt_event connection) (take (S k) queries))
    ++ tx_event engine connection TxBegin :: trace st in
  let raised :=
    match tx_answer w engine connection TxRollback executed with
    | Some rollbackError => rollbackError
    | None => e
    end in
  executeTransaction w (TransactionParams.mk connectionId queries) st
  = (inl raised,
     {| region := region st; connections := connections st; tunnels := tunnels st;
        trace := EvLog LogError "Error executing transaction on RDS:" (Some raised)
                 :: tx_event engine connection TxRollback :: executed |}).
Proof.
  intros connection engine Hget Hbegin Hprev Hk Hfail executed raised.
  pose proof (run_queries_ok _ _ _ _ _ _ _ Hprev) as Hst2.
  assert (run_queries w connection queries []
            (record [tx_event engine connection TxBegin] st)
          = (inl e, {| region := region st; connections := connections st;
                       tunnels := tunnels st; trace := executed |})) as Hloop.
  { rewrite <-(take_drop_middle queries k query Hk) at 1.
    rewrite run_queries_app, Hprev.
    rewrite (run_queries_fail_here _ _ _ _ _ _ _ Hfail).
    f_equal. subst executed. rewrite Hst2. unfold record; simpl. f_equal.
    rewrite (take_S_r _ _ _ Hk), map_app, rev_app_distr. simpl. done. }
  assert (∀ s, tx_begin w engine connection s = tx_run w engine connection TxBegin s)
    as Eb by done.
  assert (∀ s, tx_rollback w engine connection s = tx_run w engine connection TxRollback s)
    as Er by done.
  unfold executeTransaction, JsObject.read, try_catch, bind, get_state.
  cbn [TransactionParams.connectionId TransactionParams.queries].
  rewrite Hget. fold connection. fold engine.
  destruct engine eqn:Heng; rewrite Eb, tx_run_eq, Hbegin, Hloop, Er, tx_run_eq;
    cbn [trace]; subst raised; destruct (tx_answer _ _ _ _ executed); done.
Qed.

(** C2, counterexample: the second statement fails with [ER_DUP_ENTRY], the
    rollback fails too, and the caller gets the rollback's error. *)
Lemma rollback_error_replaces_original :
  (executeTransaction (duplicate_key_world (Some (JsError "Connection lost")))
     (TransactionParams.mk "mysql_db.internal_orders_1700000000001" three_statements)
     one_mysql_state).1
  = inl (JsError "Connection lost")
  ∧ ¬ transaction_reraises_statement_error.
Proof.
  split; [vm_compute; reflexivity|].
  intros H.
  specialize (H (duplicate_key_world (Some (JsError "Connection lost"))) one_mysql_state
                "mysql_db.internal_orders_1700000000001" mysql_record three_statements
                1%nat _ (JsError "ER_DUP_ENTRY") _ _
                eq_refl eq_refl eq_refl eq_refl eq_refl).
  vm_compute in H. discriminate.
Qed.

Lemma executeTransaction_failure_witness :
  let w := duplicate_key_world None in
  let id := "mysql_db.internal_orders_1700000000001" in
  JsObject.get id (connections one_mysql_state) = Some mysql_record
  ∧ three_statements !! 1%nat
    = Some {| Query.sql := "INSERT INTO audit VALUES (1)"; Query.values := Some [] |}
  ∧ executeTransaction w (TransactionParams.mk id three_statements) one_mysql_state
    = (inl (JsError "ER_DUP_ENTRY"),
       record [EvLog LogError "Error executing transaction on RDS:"
                 (Some (JsError "ER_DUP_ENTRY"));
               EvRollback 0%nat;
               EvQuery 0%nat "INSERT INTO audit VALUES (1)" (Some []);
               EvQuery 0%nat "UPDATE stock SET n = n - 1" (Some []);
               EvBeginTransaction 0%nat] one_mysql_state).
Proof.
  intros w id.
  split; [reflexivity|]. split; [reflexivity|].
  exact (executeTransaction_failure w one_mysql_state id mysql_record three_statements
           1%nat _ (JsError "ER_DUP_ENTRY") _ _
           eq_refl eq_refl eq_refl eq_refl eq_refl).
Defined.

Lemma close_unfold w st :
  close w st
  = (inr {| CloseResult.success := true;
            CloseResult.message := "Đã đóng tất cả kết nối và tunnel" |},
     (close_tunnels
        (JsObject.keys (tunnels (close_connections w (JsObject.keys (connections st)) st).2))
        (close_connections w (JsObject.keys (connections st)) st).2).2).
Proof.
  unfold close, try_catch, bind, get_state.
  destruct (close_connections_spec w (JsObject.keys (connections st)) st)
    as (st1 & evs1 & Heq1 & _).
  rewrite Heq1. cbn [snd].
  destruct (close_tunnels_spec (JsObject.keys (tunnels st1)) st1) as (st2 & evs2 & Heq2 & _).
  by rewrite Heq2.
Qed.

(** What the body of the first loop does for a registered connection. *)
Lemma close_one_cases w connectionId st connInfo :
  JsObject.get connectionId (connections st) = Some connInfo →
  match conn_end w (trace st) (ConnectionInfo.connection connInfo) with
  | Some err =>
      close_one w connectionId st
      = (inr tt,
         record [sweep_log connectionId err;
                 EvLog LogError "Error closing RDS connection:" (Some err);
                 EvEnd (ConnectionInfo.connection connInfo)] st)
  | None =>
      ∃ st1 evs,
        close_one w connectionId st = (inr tt, st1)
        ∧ JsObject.get connectionId (connections st1) = None
        ∧ trace st1 = evs ++ EvEnd (ConnectionInfo.connection connInfo) :: trace st
  end.
Proof.
  intros Hget. unfold close_one, try_catch, bind.
  destruct (conn_end w (trace st) (ConnectionInfo.connection connInfo)) as [err|] eqn:Hend.
  - by rewrite (closeConnection_fails _ _ _ _ _ Hget Hend).
  - destruct (closeConnection_succeeds _ _ _ _ Hget Hend) as (st1 & evs & Heq & Hc & _ & Htr).
    rewrite Heq. exists st1, evs. split; [done|]. split; [|done].
    rewrite Hc. apply JsObjectFacts.get_delete_eq.
Qed.

Lemma close_connections_frame w ids : ∀ st k,
  k ∉ ids →
  JsObject.get k (connections (close_connections w ids st).2)
  = JsObject.get k (connections st).
Proof.
  induction ids as [|id rest IH]; intros st k Hk; [done|].
  apply not_elem_of_cons in Hk as [Hne Hk].
  rewrite close_connections_cons.
  destruct (close_one_spec w id st) as (st1 & evs1 & Heq1 & _ & Hother & _).
  rewrite Heq1, IH by done. by apply Hother.
Qed.

Lemma close_connections_swept w ids : ∀ st,
  ∃ evs,
    trace (close_connections w ids st).2 = evs ++ trace st
    ∧ ∀ k connInfo,
        k ∈ ids → JsObject.get k (connections st) = Some connInfo →
        swept w st (close_connections w ids st).2 evs k connInfo.
Proof.
  induction ids as [|id rest IH]; intros st.
  - exists []. split; [done|]. intros k ci Hin. by apply elem_of_nil in Hin.
  - rewrite close_connections_cons.
    destruct (close_one_spec w id st) as (st1 & evs1 & Heq1 & Htr1 & Hother & _).
    rewrite Heq1. cbn [snd]. destruct (IH st1) as (evsR & HtrR & Hfate).
    destruct (close_connections_spec w rest st1) as (st2 & evs2 & Heq2 & _ & Hsub & _).
    exists (evsR ++ evs1). split; [by rewrite HtrR, Htr1, app_assoc|].
    assert (∀ k ci, k ∈ rest → JsObject.get k (connections st1) = Some ci →
              swept w st (close_connections w rest st1).2 (evsR ++ evs1) k ci) as Hlater.
    { intros k ci Hin Hget.
      destruct (Hfate k ci Hin Hget) as (before & after & -> & Hcase).
      exists (before ++ evs1), after. split; [by rewrite <-app_assoc|].
      by rewrite <-app_assoc, <-Htr1. }
    intros k ci Hin Hget.
    destruct (decide (k = id)) as [->|Hne].
    + pose proof (close_one_cases w id st ci Hget) as Hone.
      destruct (conn_end w (trace st) (ConnectionInfo.connection ci)) as [err|] eqn:Hend.
      * rewrite Heq1 in Hone. injection Hone as ->.
        destruct (decide (id ∈ rest)) as [Hagain|Honce]; [by apply Hlater|].
        exists [], (evsR ++ [sweep_log id err;
                             EvLog LogError "Error closing RDS connection:" (Some err)]).
        cbn [app]. rewrite Hend. split.
        -- unfold record in Htr1. cbn [trace] in Htr1.
           apply app_inv_tail in Htr1. subst evs1. by rewrite <-app_assoc.
        -- split; [|by exists evsR]. by rewrite close_connections_frame.
      * destruct Hone as (st1' & tail & Heq1' & Hgone & Htail).
        rewrite Heq1 in Heq1'. injection Heq1' as <-.
        exists [], (evsR ++ tail). cbn [app]. rewrite Hend. split.
        -- rewrite Htail in Htr1.
           change (tail ++ EvEnd (ConnectionInfo.connection ci) :: trace st)
             with (tail ++ [EvEnd (ConnectionInfo.connection ci)] ++ trace st) in Htr1.
           rewrite app_assoc in Htr1. apply app_inv_tail in Htr1. subst evs1.
           by rewrite <-!app_assoc.
        -- rewrite Heq2. cbn [snd].
           destruct (JsObject.get id (connections st2)) as [ci'|] eqn:E; [|done].
           apply Hsub in E. congruence.
    + apply elem_of_cons in Hin as [?|Hin]; [done|].
      apply Hlater; [done|]. by rewrite Hother.
Qed.

(** C1 (amended).  [close()] always returns its success result, and the
    tunnel registry is empty afterwards.  For every connection registered
    before, the driver close was called during the sweep, whatever failed
    on the way; its record is still registered exactly when that call
    threw, and the failure was then logged by [closeConnection] and by the
    sweep; otherwise the record is gone.  Nothing is registered that was
    not registered before.  If no driver close throws, the connection
    registry is empty too. *)
Theorem close_sweep (w : World) (st : State) :
  ∃ st' evs,
    close w st
    = (inr {| CloseResult.success := true;
              CloseResult.message := "Đã đóng tất cả kết nối và tunnel" |}, st')
    ∧ trace st' = evs ++ trace st
    ∧ tunnels st' = JsObject.empty
    ∧ (∀ k connInfo,
         JsObject.get k (connections st) = Some connInfo →
         ∃ before after,
           evs = after ++ EvEnd (ConnectionInfo.connection connInfo) :: before
           ∧ match conn_end w (before ++ trace st) (ConnectionInfo.connection connInfo) with
             | Some err =>
                 JsObject.get k (connections st') = Some connInfo
                 ∧ sweep_log k err ∈ after
                 ∧ EvLog LogError "Error closing RDS connection:" (Some err) ∈ after
             | None => JsObject.get k (connections st') = None
             end)
    ∧ (∀ k connInfo,
         JsObject.get k (connections st') = Some connInfo →
         JsObject.get k (connections st) = Some connInfo)
    ∧ ((∀ tr h, conn_end w tr h = None) → connections st' = JsObject.empty).
Proof.
  destruct (close_spec w st) as (st' & evs & Heq & Htr & Htuns & Hkept & _ & Hquiet).
  exists st', evs. split; [exact Heq|]. split; [exact Htr|]. split; [exact Htuns|].
  split; [|split; [intros k ci Hget; by apply Hkept|exact Hquiet]].
  intros k ci Hget.
  pose proof Heq as Hrun. rewrite close_unfold in Hrun. injection Hrun as Hst'.
  set (st1 := (close_connections w (JsObject.keys (connections st)) st).2) in *.
  destruct (close_connections_swept w (JsObject.keys (connections st)) st)
    as (evs1 & Htr1 & Hfate).
  destruct (close_tunnels_spec (JsObject.keys (tunnels st1)) st1)
    as (st2 & evs2 & Heq2 & Htr2 & Hc2 & _).
  rewrite Heq2 in Hst'. cbn [snd] in Hst'. subst st2.
  destruct (Hfate k ci) as (before & after & Hevs1 & Hcase);
    [by eapply JsObjectFacts.get_Some_key|done|].
  fold st1 in Htr1, Hcase.
  exists before, (evs2 ++ after). split.
  - rewrite Htr2, Htr1, app_assoc in Htr. apply app_inv_tail in Htr. subst evs evs1.
    by rewrite <-app_assoc.
  - rewrite Hc2.
    destruct (conn_end w (before ++ trace st) (ConnectionInfo.connection ci)); [|done].
    destruct Hcase as (Hstays & later & ->). split; [done|].
    split; apply elem_of_app; right; apply elem_of_app; right.
    + apply list_elem_of_here.
    + apply list_elem_of_further, list_elem_of_here.
Qed.

Lemma close_sweep_witness :
  let w := first_end_fails_world in
  let st' := (close w two_connections_state).2 in
  JsObject.get "mysql_db.internal_orders_1700000000001" (connections st')
  = Some mysql_record
  ∧ JsObject.get "postgres_ssh_db.internal_orders_1700000000009" (connections st') = None
  ∧ tunnels st' = JsObject.empty.
Proof.
  intros w st'.
  destruct (close_sweep w two_connections_state)
    as (st2 & evs & Heq & _ & Htuns & Hfate & _).
  assert (st' = st2) as -> by (subst st'; by rewrite Heq).
  split; [|split; [|exact Htuns]].
  - destruct (Hfate "mysql_db.internal_orders_1700000000001" mysql_record)
      as (before & after & _ & Hcase); [vm_compute; reflexivity|].
    cbn in Hcase. by destruct Hcase as [Hstays _].
  - destruct (Hfate "postgres_ssh_db.internal_orders_1700000000009"
                {| ConnectionInfo.connection := 8%nat;
                   ConnectionInfo.engine := postgres;
                   ConnectionInfo.tunnelId := Some "tunnel_1700000000006" |})
      as (before & after & _ & Hcase); [vm_compute; reflexivity|].
    cbn in Hcase. exact Hcase.
Defined.

(** ** Connecting *)

Lemma connect_unfold w engine params :
  connect w engine params = connect_generic w engine params.
Proof. destruct engine; reflexivity. Qed.

Lemma open_session_outcome w engine params tunnel st1 :
  SessionOutcome w engine params tunnel st1 (open_session w engine params tunnel st1).
Proof.
  unfold open_session, getAuthToken, await_val, await_unit, call, bind, get_state,
    new_object, dateNow, set_connections, ret, throw.
  destruct (truthy_bool (ConnectParams.useIAM params)) eqn:Hiam; simpl.
  - destruct (signer_getAuthToken w (trace st1) (region st1) (ConnectParams.host params)
                (num_or (ConnectParams.port params) (default_port engine))
                (ConnectParams.user params)) as [e|token] eqn:Hsign; simpl.
    + by apply TokenRefused.
    + pose proof (WithToken w engine params st1 token Hiam Hsign) as Hstep.
      destruct (session_answer w engine (token_request engine params st1 :: trace st1)
                  (session_config w engine params tunnel (Some token))) as [e|] eqn:Hopen.
      * pose proof (SessionRefused w engine params tunnel st1 _ _ e Hstep Hopen) as H.
        unfold token_request in *. simpl in *. rewrite Hopen. exact H.
      * pose proof (SessionOpened w engine params tunnel st1 _ _ Hstep Hopen) as H.
        unfold token_request in *. simpl in *. rewrite Hopen. exact H.
  - pose proof (WithPassword w engine params st1 Hiam) as Hstep.
    destruct (session_answer w engine (trace st1)
                (session_config w engine params tunnel None)) as [e|] eqn:Hopen.
    + pose proof (SessionRefused w engine params tunnel st1 _ _ e Hstep Hopen) as H.
      simpl in *. exact H.
    + pose proof (SessionOpened w engine params tunnel st1 _ _ Hstep Hopen) as H.
      simpl in *. exact H.
Qed.

(** [createTunnel] touches nothing but the tunnel registry, and only on
    success; it never talks to the signer or to an SQL driver. *)
Lemma createTunnel_spec w p st :
  ∃ evs,
    (createTunnel w p st).2
    = {| region := region st;
         connections := connections st;
         tunnels := match (createTunnel w p st).1 with
                    | inr tunnel => JsObject.set (TunnelInfo.tunnelId tunnel) tunnel (tunnels st)
                    | inl _ => tunnels st
                    end;
         trace := evs ++ trace st |}
    ∧ Forall (λ ev, is_session_event ev = false) evs.
Proof.
  unfold createTunnel, call, console, emit, dateNow, new_object, get_state, set_tunnels,
    bind, ret, throw.
  destruct (truthy_str (TunnelParams.sshPassword p)); simpl;
    [|destruct (truthy_str (TunnelParams.sshPrivateKey p)); simpl].
  3: { exists []. destruct st; simpl. repeat split; constructor. }
  all: destruct (ssh_connect _ _ _); simpl;
    [eexists [_; _]; repeat split; repeat constructor|].
  all: destruct (ssh_forwardOut _ _ _ _ _ _); simpl;
    [eexists [_; _; _]; repeat split; repeat constructor|].
  all: destruct (server_listen _ _ _ _); simpl;
    [eexists [_; _; _; _]; repeat split; repeat constructor
    |eexists [_; _; _; _; _]; repeat split; repeat constructor].
Qed.

Lemma try_catch_logged {A} (m : M A) text st :
  try_catch m (rethrow_logged text) st = logged text (m st).
Proof.
  unfold try_catch, rethrow_logged, logged, console, emit, bind, throw.
  destruct (m st) as [[e|a] st']; done.
Qed.

Lemma connect_outcome w engine params st :
  ConnectOutcome w engine params st (connect w engine params st).
Proof.
  rewrite connect_unfold. unfold connect_generic.
  destruct (truthy_str (ConnectParams.sshHost params)) eqn:Hhost.
  - rewrite try_catch_logged. cbn [negb orb].
    destruct (truthy_str (ConnectParams.sshUsername params)) eqn:Huser; cbn [negb].
    + unfold bind.
      destruct (createTunnel w (tunnel_request params (default_port engine)) st)
        as [[e|tunnel] st1] eqn:Htun.
      * by apply TunnelFailed.
      * eapply Tunnelled; [done..|]. apply open_session_outcome.
    + by apply MissingSshUser.
  - rewrite try_catch_logged. apply Direct; [done|]. apply open_session_outcome.
Qed.

Lemma session_config_of_event engine c cfg :
  session_config_of (session_event engine c cfg) = Some cfg.
Proof. by destruct engine. Qed.

Lemma session_event_kind engine c cfg :
  is_tunnel_event (session_event engine c cfg) = false
  ∧ is_session_event (session_event engine c cfg) = true.
Proof. by destruct engine. Qed.

Lemma token_step_events w engine params st1 token toks :
  TokenStep w engine params st1 token toks →
  Forall (λ ev, ev = token_request engine params st1) toks
  ∧ (truthy_bool (ConnectParams.useIAM params) = true →
     toks = [token_request engine params st1]).
Proof.
  intros [tok Hiam Hsign|Hiam]; split; try done.
  - by repeat constructor.
  - congruence.
Qed.

(** What a run of [open_session] leaves behind. *)
Lemma session_outcome_inv w engine params tunnel st1 r st' :
  SessionOutcome w engine params tunnel st1 (r, st') →
  ∃ evs token,
    trace st' = evs ++ trace st1
    ∧ region st' = region st1
    ∧ tunnels st' = tunnels st1
    ∧ Forall (λ ev, is_tunnel_event ev = false) evs
    ∧ (∀ ev cfg, ev ∈ evs → session_config_of ev = Some cfg →
                 cfg = session_config w engine params tunnel token
                 ∧ ∃ toks, TokenStep w engine params st1 token toks)
    ∧ (∀ ev, ev ∈ evs → is_session_event ev = true → session_config_of ev = None →
             ev = token_request engine params st1)
    ∧ match r with
      | inl e =>
          connections st' = connections st1
          ∧ (signer_getAuthToken w (trace st1) (region st1)
               (ConnectParams.host params)
               (num_or (ConnectParams.port params) (default_port engine))
               (ConnectParams.user params) = inl e
             ∨ ∃ tr, session_answer w engine tr
                       (session_config w engine params tunnel token) = Some e)
      | inr res =>
          ∃ now connection rest,
            evs = EvDateNow now
                  :: session_event engine connection
                       (session_config w engine params tunnel token) :: rest
            ∧ (truthy_bool (ConnectParams.useIAM params) = true →
               rest = [token_request engine params st1])
            ∧ res = {| ConnectionResult.connectionId :=
                         new_connection_id engine params tunnel now;
                       ConnectionResult.engine := engine;
                       ConnectionResult.connected := true;
                       ConnectionResult.viaTunnel := bool_decide (tunnel ≠ None);
                       ConnectionResult.tunnelId := TunnelInfo.tunnelId <$> tunnel |}
            ∧ connections st'
              = JsObject.set (new_connection_id engine params tunnel now)
                  {| ConnectionInfo.connection := connection;
                     ConnectionInfo.engine := engine;
                     ConnectionInfo.tunnelId := TunnelInfo.tunnelId <$> tunnel |}
                  (connections st1)
      end.
Proof.
  intros Hout. inversion Hout as [e Hiam Hsign|token evs e Hstep Hans|token evs Hstep Hans];
    subst; clear Hout.
  - exists [token_request engine params st1], None.
    split; [done|]. split; [done|]. split; [done|].
    split; [by repeat constructor|].
    split; [intros ev cfg Hin; by apply list_elem_of_singleton in Hin as ->|].
    split; [intros ev Hin; by apply list_elem_of_singleton in Hin as ->|].
    split; [done|]. by left.
  - exists (session_event engine (length (evs ++ trace st1))
              (session_config w engine params tunnel token) :: evs), token.
    destruct (session_event_kind engine (length (evs ++ trace st1))
                (session_config w engine params tunnel token)) as [Hk1 Hk2].
    destruct (token_step_events _ _ _ _ _ _ Hstep) as [Htoks Hrest].
    rewrite list.Forall_forall in Htoks.
    split; [done|]. split; [done|]. split; [done|].
    split.
    { constructor; [done|]. apply list.Forall_forall. intros ev Hin.
      by rewrite (Htoks _ Hin). }
    split.
    { intros ev cfg [->|Hin]%elem_of_cons Hev.
      - rewrite session_config_of_event in Hev. injection Hev as <-. split; [done|by eexists].
      - by rewrite (Htoks _ Hin) in Hev. }
    split.
    { intros ev [->|Hin]%elem_of_cons _ Hev.
      - by rewrite session_config_of_event in Hev.
      - by apply Htoks. }
    split; [done|]. right. by eexists.
  - destruct (session_event_kind engine (length (evs ++ trace st1))
                (session_config w engine params tunnel token)) as [Hk1 Hk2].
    destruct (token_step_events _ _ _ _ _ _ Hstep) as [Htoks Hrest].
    rewrite list.Forall_forall in Htoks.
    eexists (EvDateNow _ :: session_event engine (length (evs ++ trace st1))
               (session_config w engine params tunnel token) :: evs), token.
    split; [done|]. split; [done|]. split; [done|].
    split.
    { constructor; [done|]. constructor; [done|]. apply list.Forall_forall. intros ev Hin.
      by rewrite (Htoks _ Hin). }
    split.
    { intros ev cfg [->|[->|Hin]%elem_of_cons]%elem_of_cons Hev; [done| |].
      - rewrite session_config_of_event in Hev. injection Hev as <-. split; [done|by eexists].
      - by rewrite (Htoks _ Hin) in Hev. }
    split.
    { intros ev [->|[->|Hin]%elem_of_cons]%elem_of_cons Hk Hev; [done| |].
      - by rewrite session_config_of_event in Hev.
      - by apply Htoks. }
    eexists _, _, _. repeat split; done.
Qed.

Lemma createTunnel_ok w p st tunnel st1 :
  createTunnel w p st = (inr tunnel, st1) →
  ∃ evs,
    trace st1 = evs ++ trace st
    ∧ region st1 = region st
    ∧ connections st1 = connections st
    ∧ tunnels st1 = JsObject.set (TunnelInfo.tunnelId tunnel) tunnel (tunnels st)
    ∧ Forall (λ ev, is_session_event ev = false) evs.
Proof.
  intros H. destruct (createTunnel_spec w p st) as (evs & Hst & Hev).
  rewrite H in Hst. simpl in Hst. subst st1. exists evs. done.
Qed.

Lemma createTunnel_failed w p st e st1 :
  createTunnel w p st = (inl e, st1) →
  ∃ evs,
    trace st1 = evs ++ trace st
    ∧ region st1 = region st
    ∧ connections st1 = connections st
    ∧ tunnels st1 = tunnels st
    ∧ Forall (λ ev, is_session_event ev = false) evs.
Proof.
  intros H. destruct (createTunnel_spec w p st) as (evs & Hst & Hev).
  rewrite H in Hst. simpl in Hst. subst st1. exists evs. done.
Qed.

Lemma no_session_config ev :
  is_session_event ev = false → session_config_of ev = None.
Proof. by destruct ev. Qed.

Lemma logged_inr {A} text (out : Result A * State) a :
  (logged text out).1 = inr a → out.1 = inr a ∧ (logged text out).2 = out.2.
Proof. destruct out as [[e|a'] st]; simpl; [discriminate|done]. Qed.

Lemma logged_trace {A} text (out : Result A * State) :
  ∃ evs, trace (logged text out).2 = evs ++ trace out.2
         ∧ connections (logged text out).2 = connections out.2
         ∧ tunnels (logged text out).2 = tunnels out.2
         ∧ region (logged text out).2 = region out.2
         ∧ Forall (λ ev, is_tunnel_event ev = false ∧ is_session_event ev = false) evs
         ∧ (logged text out).1 = out.1.
Proof.
  destruct out as [[e|a] st]; simpl.
  - eexists [_]. repeat split; by repeat constructor.
  - exists []. repeat split; by repeat constructor.
Qed.

(** The password step has one outcome. *)
Lemma token_step_det w engine params st1 token1 evs1 token2 evs2 :
  TokenStep w engine params st1 token1 evs1 →
  TokenStep w engine params st1 token2 evs2 →
  token1 = token2 ∧ evs1 = evs2.
Proof.
  intros [tok1 Hiam1 Hsign1|Hiam1] [tok2 Hiam2 Hsign2|Hiam2]; try congruence.
  - split; [congruence|done].
  - done.
Qed.

(** [open_session] from the driver call on, once the password is known. *)
Lemma open_session_step w engine params tunnel st1 token evs :
  TokenStep w engine params st1 token evs →
  let cfg := session_config w engine params tunnel token in
  let connection := length (evs ++ trace st1) in
  let opening := session_event engine connection cfg :: evs ++ trace st1 in
  let now := date_now w opening in
  open_session w engine params tunnel st1
  = match session_answer w engine (evs ++ trace st1) cfg with
    | Some e =>
        (inl e,
         {| region := region st1; connections := connections st1;
            tunnels := tunnels st1; trace := opening |})
    | None =>
        (inr {| ConnectionResult.connectionId := new_connection_id engine params tunnel now;
                ConnectionResult.engine := engine;
                ConnectionResult.connected := true;
                ConnectionResult.viaTunnel := bool_decide (tunnel ≠ None);
                ConnectionResult.tunnelId := TunnelInfo.tunnelId <$> tunnel |},
         {| region := region st1;
            connections :=
              JsObject.set (new_connection_id engine params tunnel now)
                {| ConnectionInfo.connection := connection;
                   ConnectionInfo.engine := engine;
                   ConnectionInfo.tunnelId := TunnelInfo.tunnelId <$> tunnel |}
                (connections st1);
            tunnels := tunnels st1;
            trace := EvDateNow now :: opening |})
    end.
Proof.
  intros Hstep cfg connection opening now.
  pose proof (open_session_outcome w engine params tunnel st1) as Hout.
  remember (open_session w engine params tunnel st1) as out eqn:E. clear E.
  inversion Hout as [e Hiam Hsign|token' evs' e Hstep' Hans|token' evs' Hstep' Hans];
    subst; clear Hout.
  - inversion Hstep; congruence.
  - destruct (token_step_det _ _ _ _ _ _ _ _ Hstep Hstep') as [<- <-].
    subst cfg. by rewrite Hans.
  - destruct (token_step_det _ _ _ _ _ _ _ _ Hstep Hstep') as [<- <-].
    subst cfg. by rewrite Hans.
Qed.

Lemma connect_direct w engine params st :
  truthy_str (ConnectParams.sshHost params) = false →
  connect w engine params st
  = logged (connect_error_text engine false) (open_session w engine params None st).
Proof.
  intros Hhost. rewrite connect_unfold. unfold connect_generic.
  by rewrite Hhost, try_catch_logged.
Qed.

Lemma connect_tunnelled w engine params st tunnel st1 :
  truthy_str (ConnectParams.sshHost params) = true →
  truthy_str (ConnectParams.sshUsername params) = true →
  createTunnel w (tunnel_request params (default_port engine)) st = (inr tunnel, st1) →
  connect w engine params st
  = logged (connect_error_text engine true) (open_session w engine params (Some tunnel) st1).
Proof.
  intros Hhost Huser Htun. rewrite connect_unfold. unfold connect_generic.
  rewrite Hhost, try_catch_logged, Huser. cbn [negb orb].
  unfold bind. by rewrite Htun.
Qed.

(** On the tunnelled path [createTunnel] runs first, whatever it answers. *)
Lemma connect_after_tunnel w engine params st :
  truthy_str (ConnectParams.sshHost params) = true →
  truthy_str (ConnectParams.sshUsername params) = true →
  ∃ evs,
    trace (connect w engine params st).2
    = evs ++ trace (createTunnel w (tunnel_request params (default_port engine)) st).2.
Proof.
  intros Hhost Huser.
  destruct (createTunnel w (tunnel_request params (default_port engine)) st)
    as [[e|tunnel] st1] eqn:Htun; cbn [snd].
  - rewrite connect_unfold. unfold connect_generic.
    rewrite Hhost, try_catch_logged, Huser. cbn [negb orb]. unfold bind. rewrite Htun.
    by eexists [_].
  - rewrite (connect_tunnelled _ _ _ _ _ _ Hhost Huser Htun).
    pose proof (open_session_outcome w engine params (Some tunnel) st1) as Hout.
    destruct (open_session w engine params (Some tunnel) st1) as [r s'].
    destruct (session_outcome_inv _ _ _ _ _ _ _ Hout) as (evs & token & Htr & _).
    destruct r as [e|res]; simpl; rewrite Htr; [by eexists (_ :: evs)|by exists evs].
Qed.

(** A connect call from the driver call on, once the route is taken and
    the password is known: [tunnel] is the tunnel the call made, if it made
    one, and [st1] the handler when the session is opened. *)
Lemma connect_session w engine params st tunnel st1 token evs :
  connect w engine params st
  = logged (connect_error_text engine (bool_decide (tunnel ≠ None)))
      (open_session w engine params tunnel st1) →
  TokenStep w engine params st1 token evs →
  let cfg := session_config w engine params tunnel token in
  let connection := length (evs ++ trace st1) in
  let opening := session_event engine connection cfg :: evs ++ trace st1 in
  let now := date_now w opening in
  connect w engine params st
  = match session_answer w engine (evs ++ trace st1) cfg with
    | Some e =>
        (inl e,
         {| region := region st1; connections := connections st1;
            tunnels := tunnels st1;
            trace := EvLog LogError
                       (connect_error_text engine (bool_decide (tunnel ≠ None))) (Some e)
                     :: opening |})
    | None =>
        (inr {| ConnectionResult.connectionId := new_connection_id engine params tunnel now;
                ConnectionResult.engine := engine;
                ConnectionResult.connected := true;
                ConnectionResult.viaTunnel := bool_decide (tunnel ≠ None);
                ConnectionResult.tunnelId := TunnelInfo.tunnelId <$> tunnel |},
         {| region := region st1;
            connections :=
              JsObject.set (new_connection_id engine params tunnel now)
                {| ConnectionInfo.connection := connection;
                   ConnectionInfo.engine := engine;
                   ConnectionInfo.tunnelId := TunnelInfo.tunnelId <$> tunnel |}
                (connections st1);
            tunnels := tunnels st1;
            trace := EvDateNow now :: opening |})
    end.
Proof.
  intros -> Hstep cfg connection opening now.
  rewrite (open_session_step _ _ _ _ _ _ _ Hstep). fold cfg.
  by destruct (session_answer w engine (evs ++ trace st1) cfg).
Qed.

(** Every session of a connect call, by route. *)
Lemma connect_paths (w : World) (engine : Engine) (params : ConnectParams.t)
    (st : State) :
  let out := connect w engine params st in
  ∃ evs,
    trace out.2 = evs ++ trace st
    ∧ if truthy_str (ConnectParams.sshHost params) then
        (∀ ev cfg, ev ∈ evs → session_config_of ev = Some cfg →
           ∃ tunnel st1 evs1,
             createTunnel w (tunnel_request params (default_port engine)) st
             = (inr tunnel, st1)
             ∧ trace out.2 = evs1 ++ trace st1
             ∧ ev ∈ evs1
             ∧ AuthConfig.host cfg = TunnelInfo.localHost tunnel
             ∧ AuthConfig.port cfg = TunnelInfo.localPort tunnel)
        ∧ (∀ res, out.1 = inr res →
             ∃ tunnel st1 ev,
               createTunnel w (tunnel_request params (default_port engine)) st
               = (inr tunnel, st1)
               ∧ ev ∈ evs
               ∧ is_Some (session_config_of ev)
               ∧ JsObject.get (TunnelInfo.tunnelId tunnel) (tunnels out.2) = Some tunnel
               ∧ ConnectionResult.viaTunnel res = true
               ∧ ConnectionResult.tunnelId res = Some (TunnelInfo.tunnelId tunnel))
      else
        tunnels out.2 = tunnels st
        ∧ Forall (λ ev, is_tunnel_event ev = false) evs
        ∧ ∀ res, out.1 = inr res →
                 ConnectionResult.viaTunnel res = false
                 ∧ ConnectionResult.tunnelId res = None.
Proof.
  intros out. subst out.
  destruct (connect_outcome w engine params st)
    as [[r st'] Hhost Hout|Hhost Huser|e st1 Hhost Huser Htun|tunnel st1 [r st'] Hhost Huser Htun Hout];
    rewrite Hhost.
  - (* direct *)
    destruct (session_outcome_inv _ _ _ _ _ _ _ Hout)
      as (evs & token & Htr & _ & Htun & Hnt & _ & _ & Hres).
    destruct r as [e|res0]; simpl.
    + exists (EvLog LogError (connect_error_text engine false) (Some e) :: evs).
      split; [by rewrite Htr|]. split; [done|]. split; [by constructor|]. done.
    + exists evs. split; [done|]. split; [done|]. split; [done|].
      intros res [= <-]. destruct Hres as (now & c & rest & _ & _ & -> & _). done.
  - (* no SSH user *)
    simpl. eexists [_]. split; [done|]. split; [|done].
    intros ev cfg Hin. apply list_elem_of_singleton in Hin as ->. done.
  - (* the tunnel cannot be set up *)
    destruct (createTunnel_failed _ _ _ _ _ Htun) as (evs1 & Htr1 & _ & _ & _ & Hns).
    simpl. exists (EvLog LogError (connect_error_text engine true) (Some e) :: evs1).
    split; [by rewrite Htr1|]. split; [|done].
    intros ev cfg [->|Hin]%elem_of_cons; [done|].
    rewrite list.Forall_forall in Hns. rewrite (no_session_config _ (Hns _ Hin)). done.
  - (* tunnel first, then the session *)
    destruct (createTunnel_ok _ _ _ _ _ Htun) as (evs1 & Htr1 & _ & _ & Htuns & Hns).
    destruct (session_outcome_inv _ _ _ _ _ _ _ Hout)
      as (evs & token & Htr & _ & Htun' & _ & Hcfg & _ & Hres).
    rewrite list.Forall_forall in Hns.
    assert (∀ ev cfg, ev ∈ evs ++ evs1 → session_config_of ev = Some cfg →
                      ev ∈ evs
                      ∧ AuthConfig.host cfg = TunnelInfo.localHost tunnel
                      ∧ AuthConfig.port cfg = TunnelInfo.localPort tunnel) as Hsess.
    { intros ev cfg [Hin|Hin]%elem_of_app Hev.
      - split; [done|]. destruct (Hcfg _ _ Hin Hev) as [-> _]. done.
      - rewrite (no_session_config _ (Hns _ Hin)) in Hev. done. }
    destruct r as [e|res0]; simpl.
    + exists (EvLog LogError (connect_error_text engine true) (Some e) :: evs ++ evs1).
      split; [simpl; rewrite Htr, Htr1; by rewrite app_assoc|]. split; [|done].
      intros ev cfg [->|Hin]%elem_of_cons Hev; [done|].
      destruct (Hsess _ _ Hin Hev) as (Hin' & Hh & Hp).
      exists tunnel, st1, (EvLog LogError (connect_error_text engine true) (Some e) :: evs).
      split; [done|]. split; [by rewrite Htr|].
      split; [by apply list_elem_of_further|]. done.
    + exists (evs ++ evs1).
      split; [simpl; rewrite Htr, Htr1; by rewrite app_assoc|]. split.
      * intros ev cfg Hin Hev. destruct (Hsess _ _ Hin Hev) as (Hin' & Hh & Hp).
        exists tunnel, st1, evs. done.
      * intros res [= <-]. destruct Hres as (now & c & rest & -> & _ & -> & _).
        exists tunnel, st1,
          (session_event engine c (session_config w engine params (Some tunnel) token)).
        split; [done|]. split.
        { apply elem_of_app; left. apply list_elem_of_further, list_elem_of_here. }
        split; [rewrite session_config_of_event; by eexists|].
        split; [|done].
        rewrite Htun', Htuns. apply JsObjectFacts.get_set_eq.
Qed.

(** C6.  For a MySQL or PostgreSQL connect call.

    When [sshHost] is absent (undefined or empty: what [if (params.sshHost)]
    rejects), the call takes the direct path: once the password is known
    (the caller's, or the token the signer issued), the driver is called
    for the caller's host and port, and the call ends as written below: a
    refused session is logged and thrown, an accepted one is registered
    without tunnelId and the result has [viaTunnel] false and no tunnelId.
    Whatever its outcome, the call makes no tunnel call and leaves the
    tunnel registry as it is.

    When [sshHost] is present (and [sshUsername] too), the call takes the
    tunnelled path: [createTunnel] runs first, whatever it answers, and
    when it has returned a tunnel the call goes on from the handler
    [createTunnel] left: once the
    password is known, the driver is called for the local host and port of
    that tunnel, a refused session is logged and thrown, an accepted one
    is registered with the id of the tunnel and the result has [viaTunnel]
    true and that id.  Every SQL session of such a call comes after
    [createTunnel] succeeded. *)
Theorem connect_routing (w : World) (engine : Engine) (params : ConnectParams.t)
    (st : State) :
  (truthy_str (ConnectParams.sshHost params) = false →
   ∀ token evs,
     TokenStep w engine params st token evs →
     let cfg := session_config w engine params None token in
     let connection := length (evs ++ trace st) in
     let opening := session_event engine connection cfg :: evs ++ trace st in
     let now := date_now w opening in
     AuthConfig.host cfg = ConnectParams.host params
     ∧ AuthConfig.port cfg = num_or (ConnectParams.port params) (default_port engine)
     ∧ connect w engine params st
       = match session_answer w engine (evs ++ trace st) cfg with
         | Some e =>
             (inl e,
              {| region := region st; connections := connections st;
                 tunnels := tunnels st;
                 trace := EvLog LogError (connect_error_text engine false) (Some e)
                          :: opening |})
         | None =>
             (inr {| ConnectionResult.connectionId :=
                       new_connection_id engine params None now;
                     ConnectionResult.engine := engine;
                     ConnectionResult.connected := true;
                     ConnectionResult.viaTunnel := false;
                     ConnectionResult.tunnelId := None |},
              {| region := region st;
                 connections :=
                   JsObject.set (new_connection_id engine params None now)
                     {| ConnectionInfo.connection := connection;
                        ConnectionInfo.engine := engine;
                        ConnectionInfo.tunnelId := None |}
                     (connections st);
                 tunnels := tunnels st;
                 trace := EvDateNow now :: opening |})
         end)
  ∧ (truthy_str (ConnectParams.sshHost params) = true →
     truthy_str (ConnectParams.sshUsername params) = true →
     ∀ tunnel st1 token evs,
       createTunnel w (tunnel_request params (default_port engine)) st = (inr tunnel, st1) →
       TokenStep w engine params st1 token evs →
       let cfg := session_config w engine params (Some tunnel) token in
       let connection := length (evs ++ trace st1) in
       let opening := session_event engine connection cfg :: evs ++ trace st1 in
       let now := date_now w opening in
       AuthConfig.host cfg = TunnelInfo.localHost tunnel
       ∧ AuthConfig.port cfg = TunnelInfo.localPort tunnel
       ∧ JsObject.get (TunnelInfo.tunnelId tunnel) (tunnels st1) = Some tunnel
       ∧ connect w engine params st
         = match session_answer w engine (evs ++ trace st1) cfg with
           | Some e =>
               (inl e,
                {| region := region st1; connections := connections st1;
                   tunnels := tunnels st1;
                   trace := EvLog LogError (connect_error_text engine true) (Some e)
                            :: opening |})
           | None =>
               (inr {| ConnectionResult.connectionId :=
                         new_connection_id engine params (Some tunnel) now;
                       ConnectionResult.engine := engine;
                       ConnectionResult.connected := true;
                       ConnectionResult.viaTunnel := true;
                       ConnectionResult.tunnelId := Some (TunnelInfo.tunnelId tunnel) |},
                {| region := region st1;
                   connections :=
                     JsObject.set (new_connection_id engine params (Some tunnel) now)
                       {| ConnectionInfo.connection := connection;
                          ConnectionInfo.engine := engine;
                          ConnectionInfo.tunnelId := Some (TunnelInfo.tunnelId tunnel) |}
                       (connections st1);
                   tunnels := tunnels st1;
                   trace := EvDateNow now :: opening |})
           end)
  ∧ (truthy_str (ConnectParams.sshHost params) = true →
     truthy_str (ConnectParams.sshUsername params) = true →
     ∃ evs,
       trace (connect w engine params st).2
       = evs ++ trace (createTunnel w (tunnel_request params (default_port engine)) st).2)
  ∧ (let out := connect w engine params st in
     ∃ evs,
       trace out.2 = evs ++ trace st
       ∧ if truthy_str (ConnectParams.sshHost params) then
           (∀ ev cfg, ev ∈ evs → session_config_of ev = Some cfg →
              ∃ tunnel st1 evs1,
                createTunnel w (tunnel_request params (default_port engine)) st
                = (inr tunnel, st1)
                ∧ trace out.2 = evs1 ++ trace st1
                ∧ ev ∈ evs1
                ∧ AuthConfig.host cfg = TunnelInfo.localHost tunnel
                ∧ AuthConfig.port cfg = TunnelInfo.localPort tunnel)
           ∧ (∀ res, out.1 = inr res →
                ∃ tunnel st1 ev,
                  createTunnel w (tunnel_request params (default_port engine)) st
                  = (inr tunnel, st1)
                  ∧ ev ∈ evs
                  ∧ is_Some (session_config_of ev)
                  ∧ JsObject.get (TunnelInfo.tunnelId tunnel) (tunnels out.2)
                    = Some tunnel
                  ∧ ConnectionResult.viaTunnel res = true
                  ∧ ConnectionResult.tunnelId res = Some (TunnelInfo.tunnelId tunnel))
         else
           tunnels out.2 = tunnels st
           ∧ Forall (λ ev, is_tunnel_event ev = false) evs
           ∧ ∀ res, out.1 = inr res →
                    ConnectionResult.viaTunnel res = false
                    ∧ ConnectionResult.tunnelId res = None).
Proof.
  split; [|split; [|split; [apply connect_after_tunnel|apply connect_paths]]].
  - intros Hhost token evs Hstep cfg connection opening now.
    split; [done|]. split; [done|].
    apply (connect_session w engine params st None st token evs); [|done].
    by apply connect_direct.
  - intros Hhost Huser tunnel st1 token evs Htun Hstep cfg connection opening now.
    split; [done|]. split; [done|]. split.
    + destruct (createTunnel_ok _ _ _ _ _ Htun) as (_ & _ & _ & _ & Htuns & _).
      rewrite Htuns. apply JsObjectFacts.get_set_eq.
    + apply (connect_session w engine params st (Some tunnel) st1 token evs); [|done].
      by apply connect_tunnelled.
Qed.

Lemma connect_routing_witness :
  let w := quiet_world in
  let st := constructor w in
  let st1 := (createTunnel w (tunnel_request tunnel_params (default_port postgres)) st).2 in
  truthy_str (ConnectParams.sshHost direct_params) = false
  ∧ connect w mysql direct_params st
    = (inr first_connection_result, one_mysql_state)
  ∧ tunnels one_mysql_state = JsObject.empty
  ∧ truthy_str (ConnectParams.sshHost tunnel_params) = true
  ∧ createTunnel w (tunnel_request tunnel_params (default_port postgres)) st
    = (inr bastion_tunnel, st1)
  ∧ (connect w postgres tunnel_params st).1
    = inr {| ConnectionResult.connectionId :=
               "postgres_ssh_db.internal_orders_1700000000007";
             ConnectionResult.engine := postgres;
             ConnectionResult.connected := true;
             ConnectionResult.viaTunnel := true;
             ConnectionResult.tunnelId := Some "tunnel_1700000000004" |}
  ∧ trace (connect w postgres tunnel_params st).2
    = EvDateNow 1700000000007
      :: EvPgConnect 6%nat
           {| AuthConfig.host := "127.0.0.1"; AuthConfig.port := 40123;
              AuthConfig.user := "app"; AuthConfig.password := "token";
              AuthConfig.database := "orders";
              AuthConfig.ssl := Some (SslVerify true);
              AuthConfig.authPlugins := None |}
      :: EvGetAuthToken "us-east-1" "db.internal" 5432 "app" :: trace st1.
Proof.
  intros w st st1.
  destruct (connect_routing w mysql direct_params st) as (Hdirect & _ & _).
  destruct (connect_routing w postgres tunnel_params st) as (_ & Htunnelled & _).
  assert (createTunnel w (tunnel_request tunnel_params (default_port postgres)) st
          = (inr bastion_tunnel, st1)) as Hcreated by (vm_compute; reflexivity).
  split; [reflexivity|]. split.
  { destruct (Hdirect eq_refl None [] (WithPassword w mysql direct_params st eq_refl))
      as (_ & _ & Heq).
    rewrite Heq. vm_compute. reflexivity. }
  split; [vm_compute; reflexivity|]. split; [reflexivity|]. split; [exact Hcreated|].
  assert (TokenStep w postgres tunnel_params st1 (Some "token")
            [token_request postgres tunnel_params st1]) as Hstep
    by (apply WithToken; reflexivity).
  destruct (Htunnelled eq_refl eq_refl bastion_tunnel st1 _ _ Hcreated Hstep)
    as (Hhost & Hport & _ & Heq).
  rewrite Heq. split; vm_compute; reflexivity.
Defined.


(** Every token request and every session of a tunnelled IAM connect. *)
Lemma iam_requests (w : World) (engine : Engine)
    (params : ConnectParams.t) (st : State) :
  truthy_str (ConnectParams.sshHost params) = true →
  truthy_bool (ConnectParams.useIAM params) = true →
  let out := connect w engine params st in
  let host := ConnectParams.host params in
  let port := num_or (ConnectParams.port params) (default_port engine) in
  let user := ConnectParams.user params in
  ∃ evs,
    trace out.2 = evs ++ trace st
    ∧ (∀ reg h p u, EvGetAuthToken reg h p u ∈ evs → h = host ∧ p = port ∧ u = user)
    ∧ (∀ ev cfg, ev ∈ evs → session_config_of ev = Some cfg →
         ∃ tunnel st1 token,
           createTunnel w (tunnel_request params (default_port engine)) st
           = (inr tunnel, st1)
           ∧ signer_getAuthToken w (trace st1) (region st1) host port user = inr token
           ∧ AuthConfig.host cfg = TunnelInfo.localHost tunnel
           ∧ AuthConfig.port cfg = TunnelInfo.localPort tunnel
           ∧ AuthConfig.password cfg = token)
    ∧ (∀ res, out.1 = inr res →
         ∃ reg ev, EvGetAuthToken reg host port user ∈ evs
                   ∧ ev ∈ evs ∧ is_Some (session_config_of ev)).
Proof.
  intros Hhost Hiam out host port user. subst out.
  destruct (connect_outcome w engine params st)
    as [[r st'] Hhost' Hout|Hhost' Huser|e st1 Hhost' Huser Htun|tunnel st1 [r st'] Hhost' Huser Htun Hout].
  - congruence.
  - simpl. eexists [_]. split; [done|].
    split; [intros ???? Hin; by apply list_elem_of_singleton in Hin|].
    split; [|done]. intros ev cfg Hin. by apply list_elem_of_singleton in Hin as ->.
  - destruct (createTunnel_failed _ _ _ _ _ Htun) as (evs1 & Htr1 & _ & _ & _ & Hns).
    rewrite list.Forall_forall in Hns.
    simpl. exists (EvLog LogError (connect_error_text engine true) (Some e) :: evs1).
    split; [by rewrite Htr1|].
    split; [intros ???? [?|Hin]%elem_of_cons; [done|]; by apply Hns in Hin|].
    split; [|done].
    intros ev cfg [->|Hin]%elem_of_cons; [done|].
    rewrite (no_session_config _ (Hns _ Hin)). done.
  - destruct (createTunnel_ok _ _ _ _ _ Htun) as (evs1 & Htr1 & _ & _ & _ & Hns).
    destruct (session_outcome_inv _ _ _ _ _ _ _ Hout)
      as (evs & token & Htr & _ & _ & _ & Hcfg & Htok & Hres).
    rewrite list.Forall_forall in Hns.
    assert (∀ reg h p u, EvGetAuthToken reg h p u ∈ evs ++ evs1 →
                         h = host ∧ p = port ∧ u = user) as Hreq.
    { intros reg h p u [Hin|Hin]%elem_of_app; [|by apply Hns in Hin].
      apply Htok in Hin; [|done..]. by injection Hin as _ -> -> ->. }
    assert (∀ ev cfg, ev ∈ evs ++ evs1 → session_config_of ev = Some cfg →
              ∃ tok, signer_getAuthToken w (trace st1) (region st1) host port user = inr tok
                     ∧ AuthConfig.host cfg = TunnelInfo.localHost tunnel
                     ∧ AuthConfig.port cfg = TunnelInfo.localPort tunnel
                     ∧ AuthConfig.password cfg = tok) as Hsess.
    { intros ev cfg [Hin|Hin]%elem_of_app Hev;
        [|by rewrite (no_session_config _ (Hns _ Hin)) in Hev].
      destruct (Hcfg _ _ Hin Hev) as [-> [toks Hstep]].
      inversion Hstep as [tok _ Hsign|Hno]; subst; [|congruence].
      by exists tok. }
    destruct r as [e|res0]; simpl.
    + exists (EvLog LogError (connect_error_text engine true) (Some e) :: evs ++ evs1).
      split; [simpl; rewrite Htr, Htr1; by rewrite app_assoc|].
      split; [intros ???? [?|Hin]%elem_of_cons; [done|]; by eapply Hreq|].
      split; [|done].
      intros ev cfg [->|Hin]%elem_of_cons Hev; [done|].
      destruct (Hsess _ _ Hin Hev) as (tok & ? & ? & ? & ?). by exists tunnel, st1, tok.
    + exists (evs ++ evs1).
      split; [simpl; rewrite Htr, Htr1; by rewrite app_assoc|].
      split; [done|]. split.
      * intros ev cfg Hin Hev.
        destruct (Hsess _ _ Hin Hev) as (tok & ? & ? & ? & ?). by exists tunnel, st1, tok.
      * intros res [= <-]. destruct Hres as (now & c & rest & -> & Hrest & _).
        rewrite (Hrest Hiam).
        exists (region st1),
          (session_event engine c (session_config w engine params (Some tunnel) token)).
        split; [apply elem_of_app; left; do 2 apply list_elem_of_further;
                apply list_elem_of_here|].
        split; [apply elem_of_app; left; apply list_elem_of_further, list_elem_of_here|].
        rewrite session_config_of_event. by eexists.
Qed.

(** C5.  For a tunnelled connect call with [useIAM] set, on either engine,
    whose [createTunnel] has returned a tunnel.  The next outside call is
    the token request, for the host, the port (or the engine's default)
    and the user of the caller's params.  If the signer refuses, its error
    is logged and thrown.  If it issues a token, the call after that opens
    the SQL session against the local host and port of the tunnel with the
    token as password; the call ends with the log of the driver's error,
    or with a result that carries the tunnel's id.  No other token request
    is made and no other session is opened. *)
Theorem iam_token_for_database_host (w : World) (engine : Engine)
    (params : ConnectParams.t) (st st1 : State) (tunnel : TunnelInfo.t) :
  truthy_str (ConnectParams.sshHost params) = true →
  truthy_str (ConnectParams.sshUsername params) = true →
  truthy_bool (ConnectParams.useIAM params) = true →
  createTunnel w (tunnel_request params (default_port engine)) st = (inr tunnel, st1) →
  let out := connect w engine params st in
  let host := ConnectParams.host params in
  let port := num_or (ConnectParams.port params) (default_port engine) in
  let user := ConnectParams.user params in
  let request := EvGetAuthToken (region st1) host port user in
  let text := connect_error_text engine true in
  match signer_getAuthToken w (trace st1) (region st1) host port user with
  | inl e => out = (inl e, record [EvLog LogError text (Some e); request] st1)
  | inr token =>
      let cfg :=
        {| AuthConfig.host := TunnelInfo.localHost tunnel;
           AuthConfig.port := TunnelInfo.localPort tunnel;
           AuthConfig.user := user;
           AuthConfig.password := token;
           AuthConfig.database := ConnectParams.database params;
           AuthConfig.ssl := Some (SslVerify true);
           AuthConfig.authPlugins :=
             match engine with
             | mysql => Some (token +:+ nul)
             | postgres => None
             end |} in
      let session := session_event engine (S (length (trace st1))) cfg in
      match session_answer w engine (request :: trace st1) cfg with
      | Some e =>
          out = (inl e, record [EvLog LogError text (Some e); session; request] st1)
      | None =>
          ∃ res now,
            out.1 = inr res
            ∧ ConnectionResult.viaTunnel res = true
            ∧ ConnectionResult.tunnelId res = Some (TunnelInfo.tunnelId tunnel)
            ∧ trace out.2 = EvDateNow now :: session :: request :: trace st1
      end
  end
  ∧ ∃ evs,
      trace out.2 = evs ++ trace st
      ∧ (∀ reg h p u, EvGetAuthToken reg h p u ∈ evs → h = host ∧ p = port ∧ u = user)
      ∧ (∀ ev cfg, ev ∈ evs → session_config_of ev = Some cfg →
           AuthConfig.host cfg = TunnelInfo.localHost tunnel
           ∧ AuthConfig.port cfg = TunnelInfo.localPort tunnel
           ∧ signer_getAuthToken w (trace st1) (region st1) host port user
             = inr (AuthConfig.password cfg)).
Proof.
  intros Hhost Huser Hiam Htun out host port user request text.
  split.
  - destruct (signer_getAuthToken w (trace st1) (region st1) host port user)
      as [e|token] eqn:Hsign.
    + subst out. rewrite (connect_tunnelled _ _ _ _ _ _ Hhost Huser Htun).
      pose proof (open_session_outcome w engine params (Some tunnel) st1) as Hout.
      remember (open_session w engine params (Some tunnel) st1) as o eqn:E. clear E.
      inversion Hout as [e' Hiam' Hsign'|token' evs' e' Hstep' Hans|token' evs' Hstep' Hans];
        subst.
      * fold host port user in Hsign'. by injection (eq_trans (eq_sym Hsign) Hsign') as <-.
      * inversion Hstep' as [tok _ Hsign'|Hno]; subst; [|congruence].
        fold host port user in Hsign'. congruence.
      * inversion Hstep' as [tok _ Hsign'|Hno]; subst; [|congruence].
        fold host port user in Hsign'. congruence.
    + assert (TokenStep w engine params st1 (Some token) [token_request engine params st1])
        as Hstep by by apply WithToken.
      pose proof (connect_session w engine params st (Some tunnel) st1 _ _
                    (connect_tunnelled _ _ _ _ _ _ Hhost Huser Htun) Hstep) as Heq.
      cbv zeta in Heq. subst out.
      assert (session_config w engine params (Some tunnel) (Some token)
              = {| AuthConfig.host := TunnelInfo.localHost tunnel;
                   AuthConfig.port := TunnelInfo.localPort tunnel;
                   AuthConfig.user := user;
                   AuthConfig.password := token;
                   AuthConfig.database := ConnectParams.database params;
                   AuthConfig.ssl := Some (SslVerify true);
                   AuthConfig.authPlugins :=
                     match engine with
                     | mysql => Some (token +:+ nul)
                     | postgres => None
                     end |}) as Hcfg by by destruct engine.
      rewrite Hcfg in Heq. cbv zeta. rewrite Heq.
      change ([token_request engine params st1] ++ trace st1)
        with (request :: trace st1).
      destruct (session_answer w engine (request :: trace st1) _) as [e|]; [done|].
      eexists _, _. done.
  - destruct (iam_requests w engine params st Hhost Hiam) as (evs & Htr & Hreq & Hsess & _).
    exists evs. split; [exact Htr|]. split; [exact Hreq|].
    intros ev cfg Hin Hev.
    destruct (Hsess ev cfg Hin Hev) as (tunnel' & st1' & token & Htun' & Hsign & Hh & Hp & Hpw).
    rewrite Htun in Htun'. injection Htun' as <- <-. rewrite Hpw. done.
Qed.

Lemma iam_token_for_database_host_witness :
  let w := quiet_world in
  let st := constructor w in
  let st1 := (createTunnel w (tunnel_request tunnel_params (default_port postgres)) st).2 in
  truthy_bool (ConnectParams.useIAM tunnel_params) = true
  ∧ createTunnel w (tunnel_request tunnel_params (default_port postgres)) st
    = (inr bastion_tunnel, st1)
  ∧ trace (connect w postgres tunnel_params st).2
    = EvDateNow 1700000000007
      :: EvPgConnect 6%nat
           {| AuthConfig.host := "127.0.0.1"; AuthConfig.port := 40123;
              AuthConfig.user := "app"; AuthConfig.password := "token";
              AuthConfig.database := "orders";
              AuthConfig.ssl := Some (SslVerify true);
              AuthConfig.authPlugins := None |}
      :: EvGetAuthToken "us-east-1" "db.internal" 5432 "app" :: trace st1.
Proof.
  intros w st st1.
  assert (createTunnel w (tunnel_request tunnel_params (default_port postgres)) st
          = (inr bastion_tunnel, st1)) as Hcreated by (vm_compute; reflexivity).
  split; [reflexivity|]. split; [exact Hcreated|].
  destruct (iam_token_for_database_host w postgres tunnel_params st st1 bastion_tunnel
              eq_refl eq_refl eq_refl Hcreated) as [Hexact _].
  assert (signer_getAuthToken w (trace st1) (region st1) "db.internal" 5432 "app"
          = inr "token") as Hsign by reflexivity.
  cbv zeta in Hexact.
  change (ConnectParams.host tunnel_params) with "db.internal" in Hexact.
  change (num_or (ConnectParams.port tunnel_params) (default_port postgres))
    with 5432 in Hexact.
  change (ConnectParams.user tunnel_params) with "app" in Hexact.
  rewrite Hsign in Hexact.
  change (session_answer w postgres _ _) with (@None Error) in Hexact.
  destruct Hexact as (res & now & _ & _ & _ & Htr).
  rewrite Htr. vm_compute in Htr.
  assert (now = 1700000000007) as -> by (injection Htr as ->; reflexivity).
  vm_compute. reflexivity.
Defined.


(** C9, counterexample: the caller passes [ssl: false], the environment has
    [RDS_SSL=true], and the session is opened with [ssl: true]. *)
Lemma explicit_ssl_false_overridden :
  trace (connectToPostgres ssl_policy_world no_ssl_params (constructor ssl_policy_world)).2
  = [EvDateNow 1700000000001; EvPgConnect 0%nat no_ssl_config]
  ∧ ¬ pg_ssl_follows_explicit_flag.
Proof.
  split; [vm_compute; reflexivity|].
  intros H.
  specialize (H ssl_policy_world no_ssl_params (constructor ssl_policy_world) false
                [EvDateNow 1700000000001; EvPgConnect 0%nat no_ssl_config]
                (EvPgConnect 0%nat no_ssl_config) no_ssl_config
                eq_refl eq_refl eq_refl).
  assert (AuthConfig.ssl no_ssl_config = Some (SslFlag false)) as Hbad.
  { apply H; [|reflexivity]. apply list_elem_of_further, list_elem_of_here. }
  discriminate.
Qed.

Lemma pg_ssl_flag_eq w ssl :
  pg_ssl_flag w ssl
  = match ssl with
    | Some true => true
    | _ => bool_decide (env_RDS_SSL w = Some "true")
    end.
Proof.
  unfold pg_ssl_flag. destruct ssl as [[|]|]; simpl; try done.
  all: by destruct (decide (env_RDS_SSL w = Some "true")) as [->|Hne];
    [|rewrite bool_decide_eq_false_2].
Qed.

(** C9 (amended).  For a PostgreSQL connect without IAM, direct or
    tunnelled, the [ssl] of every session the call opens is [true] when the
    caller passes [ssl: true] and the [RDS_SSL] policy otherwise: an omitted
    flag and an explicit [false] both fall back to the environment.  A call
    that succeeds opened a session. *)
Theorem pg_ssl_setting (w : World) (params : ConnectParams.t) (st : State) :
  truthy_bool (ConnectParams.useIAM params) = false →
  let out := connectToPostgres w params st in
  ∃ evs,
    trace out.2 = evs ++ trace st
    ∧ (∀ ev cfg, ev ∈ evs → session_config_of ev = Some cfg →
         AuthConfig.ssl cfg
         = Some (SslFlag match ConnectParams.ssl params with
                         | Some true => true
                         | _ => bool_decide (env_RDS_SSL w = Some "true")
                         end))
    ∧ (∀ res, out.1 = inr res → ∃ ev, ev ∈ evs ∧ is_Some (session_config_of ev)).
Proof.
  intros Hiam out. subst out. change (connectToPostgres w) with (connect w postgres).
  assert (∀ tunnel st1 (evs : list Event) token ev cfg,
            (∀ ev cfg, ev ∈ evs → session_config_of ev = Some cfg →
                 cfg = session_config w postgres params tunnel token
                 ∧ ∃ toks, TokenStep w postgres params st1 token toks) →
            ev ∈ evs → session_config_of ev = Some cfg →
            AuthConfig.ssl cfg
            = Some (SslFlag match ConnectParams.ssl params with
                            | Some true => true
                            | _ => bool_decide (env_RDS_SSL w = Some "true")
                            end)) as Hssl.
  { intros tunnel st1 evs token ev cfg Hcfg Hin Hev.
    destruct (Hcfg _ _ Hin Hev) as [-> [toks Hstep]].
    inversion Hstep; subst; [congruence|]. simpl. by rewrite pg_ssl_flag_eq. }
  destruct (connect_outcome w postgres params st)
    as [[r st'] Hhost Hout|Hhost Huser|e st1 Hhost Huser Htun|tunnel st1 [r st'] Hhost Huser Htun Hout].
  - destruct (session_outcome_inv _ _ _ _ _ _ _ Hout)
      as (evs & token & Htr & _ & _ & _ & Hcfg & _ & Hres).
    destruct r as [e|res0]; simpl.
    + exists (EvLog LogError (connect_error_text postgres false) (Some e) :: evs).
      split; [by rewrite Htr|]. split; [|done].
      intros ev cfg [->|Hin]%elem_of_cons Hev; [done|]. eapply Hssl; eauto.
    + exists evs. split; [done|]. split; [intros ev cfg Hin Hev; eapply Hssl; eauto|].
      intros res _. destruct Hres as (now & c & rest & -> & _).
      eexists. split; [apply list_elem_of_further, list_elem_of_here|].
      rewrite session_config_of_event. by eexists.
  - simpl. eexists [_]. split; [done|]. split; [|done].
    intros ev cfg Hin. by apply list_elem_of_singleton in Hin as ->.
  - destruct (createTunnel_failed _ _ _ _ _ Htun) as (evs1 & Htr1 & _ & _ & _ & Hns).
    rewrite list.Forall_forall in Hns.
    simpl. exists (EvLog LogError (connect_error_text postgres true) (Some e) :: evs1).
    split; [by rewrite Htr1|]. split; [|done].
    intros ev cfg [->|Hin]%elem_of_cons; [done|].
    rewrite (no_session_config _ (Hns _ Hin)). done.
  - destruct (createTunnel_ok _ _ _ _ _ Htun) as (evs1 & Htr1 & _ & _ & _ & Hns).
    destruct (session_outcome_inv _ _ _ _ _ _ _ Hout)
      as (evs & token & Htr & _ & _ & _ & Hcfg & _ & Hres).
    rewrite list.Forall_forall in Hns.
    destruct r as [e|res0]; simpl.
    + exists (EvLog LogError (connect_error_text postgres true) (Some e) :: evs ++ evs1).
      split; [simpl; rewrite Htr, Htr1; by rewrite app_assoc|]. split; [|done].
      intros ev cfg [->|[Hin|Hin]%elem_of_app]%elem_of_cons Hev; [done|eapply Hssl; eauto|].
      by rewrite (no_session_config _ (Hns _ Hin)) in Hev.
    + exists (evs ++ evs1).
      split; [simpl; rewrite Htr, Htr1; by rewrite app_assoc|]. split.
      * intros ev cfg [Hin|Hin]%elem_of_app Hev; [eapply Hssl; eauto|].
        by rewrite (no_session_config _ (Hns _ Hin)) in Hev.
      * intros res _. destruct Hres as (now & c & rest & -> & _).
        eexists. split; [apply elem_of_app; left;
                         apply list_elem_of_further, list_elem_of_here|].
        rewrite session_config_of_event. by eexists.
Qed.

Lemma pg_ssl_setting_witness :
  let w := ssl_policy_world in
  truthy_bool (ConnectParams.useIAM no_ssl_params) = false
  ∧ ConnectParams.ssl no_ssl_params = Some false
  ∧ ∃ evs,
      trace (connectToPostgres w no_ssl_params (constructor w)).2 = evs ++ []
      ∧ ∀ ev cfg, ev ∈ evs → session_config_of ev = Some cfg →
                  AuthConfig.ssl cfg = Some (SslFlag true).
Proof.
  intros w. split; [reflexivity|]. split; [reflexivity|].
  destruct (pg_ssl_setting w no_ssl_params (constructor w) eq_refl)
    as (evs & Htr & Hssl & _).
  exists evs. split; [exact Htr|exact Hssl].
Defined.

Lemma closeConnection_other_tunnel w connectionId st tunnelId :
  (∀ connInfo, JsObject.get connectionId (connections st) = Some connInfo →
               ConnectionInfo.tunnelId connInfo ≠ Some tunnelId) →
  JsObject.get tunnelId (tunnels (closeConnection w connectionId st).2)
  = JsObject.get tunnelId (tunnels st).
Proof.
  intros Hother.
  destruct (JsObject.get connectionId (connections st)) as [connInfo|] eqn:Hget.
  - destruct (conn_end w (trace st) (ConnectionInfo.connection connInfo)) as [err|] eqn:Hend.
    + by rewrite (closeConnection_fails _ _ _ _ _ Hget Hend).
    + destruct (closeConnection_succeeds _ _ _ _ Hget Hend) as (st' & evs & Heq & _ & Ht & _).
      rewrite Heq. simpl. rewrite Ht. unfold tunnels_after_close.
      specialize (Hother _ eq_refl).
      destruct (ConnectionInfo.tunnelId connInfo) as [tid|]; [|done].
      destruct (decide (tid = "")); [done|].
      apply JsObjectFacts.get_delete_ne. congruence.
  - by rewrite (closeConnection_absent _ _ _ Hget).
Qed.

(** C10, counterexample: two tunnelled connects within one millisecond.
    The first succeeds; the second makes a tunnel that gets the id of the
    first and then fails at the driver.  The tunnel it leaves behind is
    registered under an id that the record of the first connection
    carries, and [closeConnection] of the first connection removes it. *)
Lemma leaked_tunnel_is_referenced :
  let w := one_session_world in
  let st := (connect w postgres tunnel_params (constructor w)).2 in
  let out := connect w postgres tunnel_params st in
  let first := "postgres_ssh_db.internal_orders_1700000000000" in
  (createTunnel w (tunnel_request tunnel_params (default_port postgres)) st).1
  = inr second_tunnel_same_id
  ∧ out.1 = inl (JsError "too many connections")
  ∧ JsObject.get "tunnel_1700000000000" (tunnels out.2) = Some second_tunnel_same_id
  ∧ JsObject.get first (connections out.2)
    = Some {| ConnectionInfo.connection := 6%nat;
              ConnectionInfo.engine := postgres;
              ConnectionInfo.tunnelId := Some "tunnel_1700000000000" |}
  ∧ JsObject.get "tunnel_1700000000000" (tunnels (closeConnection w first out.2).2) = None
  ∧ ¬ failed_connect_leaves_unreferenced_tunnel.
Proof.
  intros w st out first.
  split; [vm_compute; reflexivity|]. split; [vm_compute; reflexivity|].
  split; [vm_compute; reflexivity|]. split; [vm_compute; reflexivity|].
  split; [vm_compute; reflexivity|].
  intros H.
  assert (createTunnel w (tunnel_request tunnel_params (default_port postgres)) st
          = (inr second_tunnel_same_id,
             (createTunnel w (tunnel_request tunnel_params (default_port postgres)) st).2))
    as Hcreated by (vm_compute; reflexivity).
  assert (connect w postgres tunnel_params st
          = (inl (JsError "too many connections"), out.2))
    as Hfailed by (vm_compute; reflexivity).
  destruct (H w postgres tunnel_params st _ out.2 second_tunnel_same_id _
              eq_refl eq_refl Hcreated Hfailed) as (_ & _ & Hkept).
  specialize (Hkept first). vm_compute in Hkept. discriminate.
Qed.

(** C10 (amended).  A tunnelled connect whose [createTunnel] succeeded and
    which throws [e].  Then [e] is the error of the token request or of the
    driver connect; the new tunnel is still registered and no tunnel call
    was made after its creation, so it was not closed; the connection
    registry is as before the call.  If no record carried the tunnel's id
    before, none does now and no [closeConnection] removes the tunnel;
    [close()] does. *)
Theorem failed_tunnelled_connect_keeps_tunnel (w : World) (engine : Engine)
    (params : ConnectParams.t) (st st1 st' : State) (tunnel : TunnelInfo.t) (e : Error) :
  truthy_str (ConnectParams.sshHost params) = true →
  truthy_str (ConnectParams.sshUsername params) = true →
  createTunnel w (tunnel_request params (default_port engine)) st = (inr tunnel, st1) →
  connect w engine params st = (inl e, st') →
  let tunnelId := TunnelInfo.tunnelId tunnel in
  (signer_getAuthToken w (trace st1) (region st1) (ConnectParams.host params)
     (num_or (ConnectParams.port params) (default_port engine))
     (ConnectParams.user params) = inl e
   ∨ ∃ tr cfg, session_answer w engine tr cfg = Some e)
  ∧ JsObject.get tunnelId (tunnels st') = Some tunnel
  ∧ connections st' = connections st
  ∧ (∃ evs, trace st' = evs ++ trace st1
            ∧ Forall (λ ev, is_tunnel_event ev = false) evs)
  ∧ ((∀ connectionId connInfo,
        JsObject.get connectionId (connections st) = Some connInfo →
        ConnectionInfo.tunnelId connInfo ≠ Some tunnelId) →
     (∀ connectionId connInfo,
        JsObject.get connectionId (connections st') = Some connInfo →
        ConnectionInfo.tunnelId connInfo ≠ Some tunnelId)
     ∧ ∀ connectionId,
         JsObject.get tunnelId (tunnels (closeConnection w connectionId st').2)
         = Some tunnel)
  ∧ tunnels (close w st').2 = JsObject.empty.
Proof.
  intros Hhost Huser Htun Hconnect tunnelId.
  pose proof (connect_outcome w engine params st) as Hcases. rewrite Hconnect in Hcases.
  inversion Hcases
    as [[r s] Hhost' Hout Heq|Hhost' Huser'|e' s1 Hhost' Huser' Htun' Heq
       |tunnel' s1 [r s] Hhost' Huser' Htun' Hout Heq]; try congruence.
  rewrite Htun in Htun'. injection Htun' as <- <-.
  destruct r as [e'|res]; simpl in Heq; [|discriminate].
  injection Heq as -> <-.
  destruct (createTunnel_ok _ _ _ _ _ Htun) as (evs1 & Htr1 & _ & Hconns & Htuns & _).
  destruct (session_outcome_inv _ _ _ _ _ _ _ Hout)
    as (evs & token & Htr & _ & Htun' & Hnt & _ & _ & Hc & Hwhy).
  assert (JsObject.get tunnelId (tunnels s) = Some tunnel) as Hreg.
  { rewrite Htun', Htuns. apply JsObjectFacts.get_set_eq. }
  split; [destruct Hwhy as [?|[tr ?]]; [by left|right; by eexists _, _]|].
  split; [done|].
  split; [simpl; congruence|].
  split.
  { exists (EvLog LogError (connect_error_text engine true) (Some e) :: evs).
    split; [simpl; by rewrite Htr|]. by constructor. }
  split.
  - intros Hfresh. simpl. rewrite Hc, Hconns. split; [done|].
    intros connectionId. rewrite closeConnection_other_tunnel; [done|].
    simpl. rewrite Hc, Hconns. apply Hfresh.
  - destruct (close_spec w (record [EvLog LogError (connect_error_text engine true) (Some e)] s))
      as (st2 & evs2 & Heq & _ & Ht & _).
    rewrite Heq. done.
Qed.

Lemma failed_tunnelled_connect_keeps_tunnel_witness :
  let w := refusing_db_world in
  let st := constructor w in
  let st' := (connect w postgres tunnel_params st).2 in
  (connect w postgres tunnel_params st).1
  = inl (JsError "connect ECONNREFUSED 127.0.0.1:40123")
  ∧ JsObject.get "tunnel_1700000000004" (tunnels st') = Some leaked_tunnel
  ∧ connections st' = JsObject.empty
  ∧ tunnels (close w st').2 = JsObject.empty.
Proof.
  intros w st st'.
  assert (createTunnel w (tunnel_request tunnel_params (default_port postgres)) st
          = (inr leaked_tunnel,
             (createTunnel w (tunnel_request tunnel_params (default_port postgres)) st).2))
    as Hcreated by (vm_compute; reflexivity).
  assert (connect w postgres tunnel_params st
          = (inl (JsError "connect ECONNREFUSED 127.0.0.1:40123"), st'))
    as Hfailed by (vm_compute; reflexivity).
  split; [by rewrite Hfailed|].
  destruct (failed_tunnelled_connect_keeps_tunnel w postgres tunnel_params st _ st'
              leaked_tunnel _ eq_refl eq_refl Hcreated Hfailed)
    as (_ & Hkept & Hconns & _ & _ & Hswept).
  split; [exact Hkept|]. split; [exact Hconns|exact Hswept].
Defined.

(** ** Connection ids *)

Lemma append_nil (b : string) : "" +:+ b = b.
Proof. reflexivity. Qed.

Lemma append_cons (x : ascii) (a b : string) : String x a +:+ b = String x (a +:+ b).
Proof. reflexivity. Qed.

Lemma append_assoc (a b c : string) : (a +:+ b) +:+ c = a +:+ (b +:+ c).
Proof.
  induction a as [|x a IH]; [done|]. rewrite !append_cons. by rewrite IH.
Qed.

Lemma occurs_pretty_N_go c x : ∀ s,
  occurs c (pretty_N_go x s) = true → occurs c s = true ∨ occurs c "0123456789" = true.
Proof.
  induction (N.lt_wf_0 x) as [x _ IH]; intros s Hc.
  assert (x = 0 ∨ 0 < x)%N as [->|Hpos] by lia.
  - rewrite pretty_N_go_0 in Hc. by left.
  - rewrite pretty_N_go_step in Hc by done.
    apply IH in Hc; [|by apply N.div_lt].
    destruct Hc as [Hc|Hc]; [|by right].
    simpl in Hc. destruct (decide (c = pretty_N_char (x `mod` 10))) as [->|_]; [|by left].
    right. unfold pretty_N_char. by repeat case_match.
Qed.

Lemma pretty_Z_no_underscore (t : Z) : occurs underscore (pretty t) = false.
Proof.
  apply not_true_is_false. intros Hc.
  assert (∀ p : positive, occurs underscore (pretty p) = true → False) as Hpos.
  { intros p Hp. unfold pretty, pretty_positive, pretty, pretty_N in Hp.
    rewrite decide_False in Hp by done.
    apply occurs_pretty_N_go in Hp as [Hp|Hp]; vm_compute in Hp; discriminate. }
  destruct t as [|p|p]; unfold pretty, pretty_Z in Hc.
  - vm_compute in Hc. discriminate.
  - by apply Hpos in Hc.
  - change (occurs underscore (String "-" (pretty p)) = true) in Hc. simpl in Hc.
    destruct (decide (underscore = "-"%char)); [done|]. by apply Hpos in Hc.
Qed.

Lemma occurs_append_r c a b : occurs c b = true → occurs c (a +:+ b) = true.
Proof.
  intros H. induction a as [|x a IH]; [done|]. rewrite append_cons. simpl.
  by destruct (decide (c = x)).
Qed.

(** A string is split in one way only at its last underscore. *)
Lemma split_at_last_underscore (a b x y : string) :
  occurs underscore x = false → occurs underscore y = false →
  a +:+ String underscore x = b +:+ String underscore y →
  a = b ∧ x = y.
Proof.
  intros Hx Hy. revert b.
  induction a as [|c a IH]; intros [|d b] Heq;
    rewrite ?append_nil, ?append_cons in Heq.
  - by injection Heq as ->.
  - injection Heq as <- ->. exfalso.
    rewrite occurs_append_r in Hx; [done|]. reflexivity.
  - injection Heq as -> <-. exfalso.
    rewrite occurs_append_r in Hy; [done|]. reflexivity.
  - injection Heq as -> Heq. apply IH in Heq as [-> ->]. done.
Qed.

Lemma new_connection_id_eq engine params tunnel now :
  truthy_str (ConnectParams.sshHost params) = bool_decide (tunnel ≠ None) →
  new_connection_id engine params tunnel now
  = connection_id_stem engine params +:+ String underscore (pretty now).
Proof.
  intros Hroute. unfold new_connection_id, connection_id_stem. rewrite Hroute.
  rewrite !append_assoc.
  destruct engine, tunnel; simpl; done.
Qed.

Lemma connection_id_inj e1 p1 (t1 : Z) e2 p2 (t2 : Z) :
  connection_id_stem e1 p1 +:+ String underscore (pretty t1)
  = connection_id_stem e2 p2 +:+ String underscore (pretty t2)
  ↔ connection_id_stem e1 p1 = connection_id_stem e2 p2 ∧ t1 = t2.
Proof.
  split.
  - intros H. apply split_at_last_underscore in H as [Hs Ht];
      [|apply pretty_Z_no_underscore..].
    split; [done|]. by apply (inj pretty).
  - by intros [-> ->].
Qed.

(** A successful connect, seen from outside. *)
Lemma connect_ok w engine params st res st' :
  connect w engine params st = (inr res, st') →
  ∃ now connection st1,
    clock_reading st' = Some now
    ∧ ConnectionResult.connectionId res
      = connection_id_stem engine params +:+ String underscore (pretty now)
    ∧ connections st1 = connections st
    ∧ connections st'
      = JsObject.set (ConnectionResult.connectionId res)
          {| ConnectionInfo.connection := connection;
             ConnectionInfo.engine := engine;
             ConnectionInfo.tunnelId := ConnectionResult.tunnelId res |}
          (connections st1).
Proof.
  intros Hconnect.
  pose proof (connect_outcome w engine params st) as Hcases. rewrite Hconnect in Hcases.
  inversion Hcases
    as [[r s] Hhost Hout Heq|Hhost Huser|e' s1 Hhost Huser Htun Heq
       |tunnel s1 [r s] Hhost Huser Htun Hout Heq].
  - destruct r as [e|res']; simpl in Heq; [discriminate|]. injection Heq as -> ->.
    destruct (session_outcome_inv _ _ _ _ _ _ _ Hout)
      as (evs & token & Htr & _ & _ & _ & _ & _ & now & c & rest & -> & _ & -> & Hc).
    exists now, c, st. unfold clock_reading. rewrite Htr. simpl.
    rewrite new_connection_id_eq in * by (by rewrite Hhost). done.
  - destruct (createTunnel_ok _ _ _ _ _ Htun) as (evs1 & _ & _ & Hconns & _).
    destruct r as [e|res']; simpl in Heq; [discriminate|]. injection Heq as -> ->.
    destruct (session_outcome_inv _ _ _ _ _ _ _ Hout)
      as (evs & token & Htr & _ & _ & _ & _ & _ & now & c & rest & -> & _ & -> & Hc).
    exists now, c, s1. unfold clock_reading. rewrite Htr. simpl.
    rewrite new_connection_id_eq in * by (by rewrite Hhost). done.
Qed.

(** C4, counterexample: the same request twice within one millisecond gives
    the same id twice, and the second connection takes the registry entry
    of the first. *)
Lemma second_connect_overwrites_first :
  let w := same_millisecond_world in
  let out1 := connectToMySql w direct_params (constructor w) in
  let out2 := connectToMySql w direct_params out1.2 in
  let res := {| ConnectionResult.connectionId := "mysql_db.internal_orders_1700000000000";
                ConnectionResult.engine := mysql;
                ConnectionResult.connected := true;
                ConnectionResult.viaTunnel := false;
                ConnectionResult.tunnelId := None |} in
  out1.1 = inr res
  ∧ out2.1 = inr res
  ∧ connections out1.2
    = [("mysql_db.internal_orders_1700000000000",
        {| ConnectionInfo.connection := 0%nat; ConnectionInfo.engine := mysql;
           ConnectionInfo.tunnelId := None |})]
  ∧ connections out2.2
    = [("mysql_db.internal_orders_1700000000000",
        {| ConnectionInfo.connection := 2%nat; ConnectionInfo.engine := mysql;
           ConnectionInfo.tunnelId := None |})]
  ∧ ¬ connection_ids_always_distinct.
Proof.
  split; [vm_compute; reflexivity|].
  split; [vm_compute; reflexivity|].
  split; [vm_compute; reflexivity|].
  split; [vm_compute; reflexivity|].
  intros H.
  refine (H same_millisecond_world mysql mysql direct_params direct_params
            (constructor same_millisecond_world) _ _ _ _ _ _ _);
    [vm_compute; reflexivity|vm_compute; reflexivity|vm_compute; reflexivity].
Qed.

(** C4 (amended).  Two successful connect calls get the same connectionId
    exactly when they agree on the text before the time stamp (prefix of
    engine and route, host, database) and read the same [Date.now()] value.
    When the ids differ, the later call leaves the registry entry of the
    earlier id untouched. *)
Theorem connection_ids_collide_only_in_same_millisecond (w : World)
    (engine1 engine2 : Engine) (params1 params2 : ConnectParams.t)
    (st1 st1' st2 st2' : State) (res1 res2 : ConnectionResult.t) :
  connect w engine1 params1 st1 = (inr res1, st1') →
  connect w engine2 params2 st2 = (inr res2, st2') →
  (ConnectionResult.connectionId res1 = ConnectionResult.connectionId res2
   ↔ connection_id_stem engine1 params1 = connection_id_stem engine2 params2
     ∧ clock_reading st1' = clock_reading st2')
  ∧ (ConnectionResult.connectionId res1 ≠ ConnectionResult.connectionId res2 →
     JsObject.get (ConnectionResult.connectionId res1) (connections st2')
     = JsObject.get (ConnectionResult.connectionId res1) (connections st2)).
Proof.
  intros H1 H2.
  destruct (connect_ok _ _ _ _ _ _ H1) as (t1 & c1 & s1 & Hclock1 & Hid1 & _ & _).
  destruct (connect_ok _ _ _ _ _ _ H2) as (t2 & c2 & s2 & Hclock2 & Hid2 & Hs2 & Hc2).
  split.
  - rewrite Hid1, Hid2, Hclock1, Hclock2, connection_id_inj.
    split; intros [? ?]; split; congruence.
  - intros Hne. rewrite Hc2, Hs2. by apply JsObjectFacts.get_set_ne.
Qed.

Lemma connection_ids_collide_only_in_same_millisecond_witness :
  let w := quiet_world in
  let st1 := (connect w mysql direct_params (constructor w)).2 in
  let st2 := (connect w mysql direct_params st1).2 in
  clock_reading st1 = Some 1700000000001
  ∧ clock_reading st2 = Some 1700000000003
  ∧ first_connection_result ≠ second_connection_result
  ∧ JsObject.get (ConnectionResult.connectionId first_connection_result) (connections st2)
    = JsObject.get (ConnectionResult.connectionId first_connection_result) (connections st1).
Proof.
  intros w st1 st2.
  assert (connect w mysql direct_params (constructor w) = (inr first_connection_result, st1))
    as H1 by (vm_compute; reflexivity).
  assert (connect w mysql direct_params st1 = (inr second_connection_result, st2))
    as H2 by (vm_compute; reflexivity).
  assert (clock_reading st1 = Some 1700000000001) as Hc1 by (vm_compute; reflexivity).
  assert (clock_reading st2 = Some 1700000000003) as Hc2 by (vm_compute; reflexivity).
  split; [exact Hc1|]. split; [exact Hc2|].
  destruct (connection_ids_collide_only_in_same_millisecond w mysql mysql
              direct_params direct_params _ _ _ _ _ _ H1 H2) as [Hiff Hkeep].
  assert (ConnectionResult.connectionId first_connection_result
          ≠ ConnectionResult.connectionId second_connection_result) as Hne.
  { intros Heq. apply Hiff in Heq as [_ Hclock].
    rewrite Hc1, Hc2 in Hclock. discriminate. }
  split; [congruence|]. exact (Hkeep Hne).
Defined.

(** * Further properties of the handler *)

(** ** Tunnels *)

Lemma createTunnel_outcome w p st :
  TunnelOutcome w p st (createTunnel w p st).
Proof.
  assert (∀ cfg, ssh_config p = Some cfg →
            TunnelOutcome w p st
              ((connected <- call (EvSshConnect (length (trace st)) cfg)
                                  (fun tr => ssh_connect w tr cfg) ;;
                match connected with
                | Some err =>
                    console LogError "Lỗi kết nối SSH:" (Some err) ;;;
                    throw err
                | None =>
                    forwarded <- call (forward_event p (length (trace st)))
                                      (fun tr => ssh_forwardOut w tr "127.0.0.1"
                                                   (num_or (TunnelParams.localPort p) 0)
                                                   (TunnelParams.dbHost p)
                                                   (TunnelParams.dbPort p)) ;;
                    match forwarded with
                    | Some err =>
                        emit (EvSshEnd (length (trace st))) ;;;
                        throw err
                    | None =>
                        server <- new_object ;;
                        listening <- call (listen_event p server)
                                          (fun tr => server_listen w tr
                                                       (num_or (TunnelParams.localPort p) 0)
                                                       "127.0.0.1") ;;
                        match listening with
                        | inl err =>
                            emit (EvSshEnd (length (trace st))) ;;;
                            throw err
                        | inr boundPort =>
                            console LogInfo
                              ("SSH tunnel được thiết lập: 127.0.0.1:" +:+ pretty boundPort
                               +:+ " -> " +:+ TunnelParams.dbHost p +:+ ":"
                               +:+ pretty (TunnelParams.dbPort p)) None ;;;
                            now <- dateNow w ;;
                            let tunnelId := "tunnel_" +:+ pretty now in
                            let info :=
                              {| TunnelInfo.sshClient := length (trace st);
                                 TunnelInfo.server := server;
                                 TunnelInfo.localHost := "127.0.0.1";
                                 TunnelInfo.localPort := boundPort;
                                 TunnelInfo.dbHost := TunnelParams.dbHost p;
                                 TunnelInfo.dbPort := TunnelParams.dbPort p;
                                 TunnelInfo.tunnelId := tunnelId |} in
                            st0 <- get_state ;;
                            set_tunnels (JsObject.set tunnelId info (tunnels st0)) ;;;
                            ret info
                        end
                    end
                end) st)) as Hrest.
  { intros cfg Hcfg.
    unfold call, console, emit, dateNow, new_object, get_state, set_tunnels,
      bind, ret, throw.
    cbn [trace region connections tunnels].
    destruct (ssh_connect w (trace st) cfg) as [e|] eqn:Hshake.
    { exact (HandshakeFailed w p st cfg e Hcfg Hshake). }
    cbn [trace region connections tunnels].
    destruct (ssh_forwardOut w (EvSshConnect (length (trace st)) cfg :: trace st)
                "127.0.0.1" (num_or (TunnelParams.localPort p) 0)
                (TunnelParams.dbHost p) (TunnelParams.dbPort p)) as [e|] eqn:Hfwd.
    { exact (ForwardFailed w p st cfg e Hcfg Hshake Hfwd). }
    cbn [trace region connections tunnels].
    destruct (server_listen w
                (forward_event p (length (trace st))
                 :: EvSshConnect (length (trace st)) cfg :: trace st)
                (num_or (TunnelParams.localPort p) 0) "127.0.0.1")
      as [e|boundPort] eqn:Hlisten.
    - exact (ListenFailed w p st cfg e Hcfg Hshake Hfwd Hlisten).
    - exact (TunnelUp w p st cfg boundPort Hcfg Hshake Hfwd Hlisten). }
  unfold createTunnel. unfold bind at 1. unfold new_object at 1.
  unfold bind at 1.
  destruct (truthy_str (TunnelParams.sshPassword p)) eqn:Hpw;
    [|destruct (truthy_str (TunnelParams.sshPrivateKey p)) eqn:Hkey].
  - apply Hrest. unfold ssh_config. by rewrite Hpw.
  - apply Hrest. unfold ssh_config. by rewrite Hpw, Hkey.
  - unfold throw. apply NoCredentials. unfold ssh_config. by rewrite Hpw, Hkey.
Qed.

Lemma delete_set_fresh {V} (o : JsObject.t V) k v :
  JsObject.get k o = None → JsObject.delete k (JsObject.set k v o) = o.
Proof.
  induction o as [|[k' v'] o IH]; simpl.
  - intros _. by rewrite decide_True.
  - destruct (decide (k = k')) as [->|Hne]; [done|]. intros Hget. simpl.
    rewrite decide_False by done. by rewrite IH.
Qed.

Lemma tunnel_id_inj (t1 t2 : Z) :
  "tunnel_" +:+ pretty t1 = "tunnel_" +:+ pretty t2 ↔ t1 = t2.
Proof.
  split; [|by intros ->]. intros H.
  rewrite !append_cons, !append_nil in H. apply (inj pretty). congruence.
Qed.

(** X1.  When [createTunnel] throws, both registries are as before.  Without
    a usable password or key it throws before any outside call.  Otherwise
    the handshake was attempted: if the handshake itself failed, its error
    is logged and thrown and nothing else is called; if the handshake
    succeeded and the forwarding or the listener failed, the last call of
    [createTunnel] ends the SSH client it opened. *)
Theorem createTunnel_failure_cleans_up (w : World) (p : TunnelParams.t)
    (st st' : State) (e : Error) :
  createTunnel w p st = (inl e, st') →
  tunnels st' = tunnels st
  ∧ connections st' = connections st
  ∧ ∃ evs,
      trace st' = evs ++ trace st
      ∧ match ssh_config p with
        | None => evs = [] ∧ e = no_credentials_error
        | Some cfg =>
            let client := length (trace st) in
            match ssh_connect w (trace st) cfg with
            | Some refused =>
                e = refused
                ∧ evs = [EvLog LogError "Lỗi kết nối SSH:" (Some e);
                         EvSshConnect client cfg]
            | None =>
                ∃ calls, evs = EvSshEnd client :: calls ++ [EvSshConnect client cfg]
                         ∧ Forall (λ ev, ev = forward_event p client
                                         ∨ ∃ srv, ev = listen_event p srv) calls
            end
        end.
Proof.
  intros Hrun. pose proof (createTunnel_outcome w p st) as Hout. rewrite Hrun in Hout.
  inversion Hout as [Hcfg|cfg e' Hcfg Hshake|cfg e' Hcfg Hshake client Hfwd
                    |cfg e' Hcfg Hshake client forwarded Hfwd Hlisten|]; subst;
    rewrite Hcfg; simpl.
  - split; [done|]. split; [done|]. exists []. repeat split.
  - rewrite Hshake. split; [done|]. split; [done|]. eexists [_; _]. repeat split.
  - rewrite Hshake. split; [done|]. split; [done|].
    eexists [_; _; _]. split; [done|]. exists [forward_event p (length (trace st))].
    split; [done|]. constructor; [by left|constructor].
  - rewrite Hshake. split; [done|]. split; [done|].
    eexists (_ :: _ :: _ :: [_]). split; [done|].
    exists [listen_event p (S (S (length (trace st)))); forward_event p (length (trace st))].
    split; [done|]. constructor; [right; by eexists|].
    constructor; [by left|constructor].
Qed.

Lemma createTunnel_failure_cleans_up_witness :
  let w := tunnel_world None None (inl (JsError "listen EADDRINUSE")) in
  let out := createTunnel w bastion_request (constructor w) in
  out.1 = inl (JsError "listen EADDRINUSE")
  ∧ tunnels out.2 = JsObject.empty
  ∧ ∃ evs, trace out.2 = EvSshEnd 0%nat :: evs.
Proof.
  intros w out.
  assert (out = (inl (JsError "listen EADDRINUSE"), out.2)) as Hrun
    by (vm_compute; reflexivity).
  split; [by rewrite Hrun|].
  destruct (createTunnel_failure_cleans_up w bastion_request (constructor w) out.2 _ Hrun)
    as (Htun & _ & evs & Htr & Hcases).
  split; [exact Htun|].
  simpl in Hcases. destruct Hcases as (calls & -> & _).
  eexists. rewrite Htr. reflexivity.
Defined.

Lemma createTunnel_up w p st st' tunnel :
  createTunnel w p st = (inr tunnel, st') →
  JsObject.get (TunnelInfo.tunnelId tunnel) (tunnels st') = Some tunnel
  ∧ (∀ k, k ≠ TunnelInfo.tunnelId tunnel →
          JsObject.get k (tunnels st') = JsObject.get k (tunnels st))
  ∧ connections st' = connections st
  ∧ TunnelInfo.localHost tunnel = "127.0.0.1"
  ∧ TunnelInfo.dbHost tunnel = TunnelParams.dbHost p
  ∧ TunnelInfo.dbPort tunnel = TunnelParams.dbPort p
  ∧ (∃ tr, server_listen w tr (num_or (TunnelParams.localPort p) 0) "127.0.0.1"
           = inr (TunnelInfo.localPort tunnel))
  ∧ (∃ now, clock_reading st' = Some now
            ∧ TunnelInfo.tunnelId tunnel = "tunnel_" +:+ pretty now)
  ∧ ∃ evs, trace st' = evs ++ trace st
           ∧ Forall (λ ev, ∀ h, ev ≠ EvSshEnd h ∧ ev ≠ EvServerClose h) evs.
Proof.
  intros Hrun. pose proof (createTunnel_outcome w p st) as Hout. rewrite Hrun in Hout.
  inversion Hout as [| | | |cfg boundPort Hcfg Hshake client forwarded Hfwd Hlisten
                            listening now info]; subst.
  simpl. split; [apply JsObjectFacts.get_set_eq|].
  split; [intros k Hk; by apply JsObjectFacts.get_set_ne|].
  split; [done|]. split; [done|]. split; [done|]. split; [done|].
  split; [by eexists|]. split; [by eexists|].
  eexists [_; _; _; _; _]. split; [done|]. repeat constructor; done.
Qed.

(** X2.  When [createTunnel] returns a tunnel, the tunnel is registered under
    its own id, the other entries of the tunnel registry and the connection
    registry are untouched, the tunnel listens on 127.0.0.1 at the port
    the listener reported and forwards to the database host and port of
    the request, its id is [tunnel_] followed by the [Date.now()] value
    read last, and neither the listener nor the SSH client was closed. *)
Theorem createTunnel_success (w : World) (p : TunnelParams.t)
    (st st' : State) (tunnel : TunnelInfo.t) :
  createTunnel w p st = (inr tunnel, st') →
  JsObject.get (TunnelInfo.tunnelId tunnel) (tunnels st') = Some tunnel
  ∧ (∀ k, k ≠ TunnelInfo.tunnelId tunnel →
          JsObject.get k (tunnels st') = JsObject.get k (tunnels st))
  ∧ connections st' = connections st
  ∧ TunnelInfo.localHost tunnel = "127.0.0.1"
  ∧ TunnelInfo.dbHost tunnel = TunnelParams.dbHost p
  ∧ TunnelInfo.dbPort tunnel = TunnelParams.dbPort p
  ∧ (∃ tr, server_listen w tr (num_or (TunnelParams.localPort p) 0) "127.0.0.1"
           = inr (TunnelInfo.localPort tunnel))
  ∧ (∃ now, clock_reading st' = Some now
            ∧ TunnelInfo.tunnelId tunnel = "tunnel_" +:+ pretty now)
  ∧ ∃ evs, trace st' = evs ++ trace st
           ∧ Forall (λ ev, ∀ h, ev ≠ EvSshEnd h ∧ ev ≠ EvServerClose h) evs.
Proof. apply createTunnel_up. Qed.

Lemma createTunnel_success_witness :
  let w := quiet_world in
  let out := createTunnel w bastion_request (constructor w) in
  out.1 = inr bastion_tunnel
  ∧ JsObject.get "tunnel_1700000000004" (tunnels out.2) = Some bastion_tunnel.
Proof.
  intros w out.
  assert (out = (inr bastion_tunnel, out.2)) as Hrun by (vm_compute; reflexivity).
  split; [by rewrite Hrun|].
  destruct (createTunnel_success w bastion_request (constructor w) out.2 _ Hrun)
    as (Hreg & _).
  exact Hreg.
Defined.

(** X3.  [createTunnel] followed by [closeTunnel] of the returned id, when
    that id was not registered before: the listener is closed, then the
    SSH client is ended, and both registries are as before the tunnel was
    created. *)
Theorem createTunnel_closeTunnel_round_trip (w : World) (p : TunnelParams.t)
    (st st1 : State) (tunnel : TunnelInfo.t) :
  createTunnel w p st = (inr tunnel, st1) →
  JsObject.get (TunnelInfo.tunnelId tunnel) (tunnels st) = None →
  ∃ st2,
    closeTunnel (TunnelInfo.tunnelId tunnel) st1 = (inr tt, st2)
    ∧ tunnels st2 = tunnels st
    ∧ connections st2 = connections st
    ∧ trace st2
      = [EvLog LogInfo ("Đã đóng tunnel " +:+ TunnelInfo.tunnelId tunnel) None;
         EvLog LogInfo "Đã đóng kết nối SSH client" None;
         EvSshEnd (TunnelInfo.sshClient tunnel);
         EvServerClose (TunnelInfo.server tunnel)] ++ trace st1.
Proof.
  intros Hrun Hfresh.
  destruct (createTunnel_ok _ _ _ _ _ Hrun) as (evs & _ & _ & Hconns & Htuns & _).
  assert (JsObject.get (TunnelInfo.tunnelId tunnel) (tunnels st1) = Some tunnel) as Hreg.
  { rewrite Htuns. apply JsObjectFacts.get_set_eq. }
  rewrite (closeTunnel_present _ _ _ Hreg). eexists. split; [done|]. simpl.
  split; [rewrite Htuns; by apply delete_set_fresh|]. done.
Qed.

Lemma createTunnel_closeTunnel_round_trip_witness :
  let w := quiet_world in
  let st1 := (createTunnel w bastion_request (constructor w)).2 in
  JsObject.get "tunnel_1700000000004" (tunnels (constructor w)) = None
  ∧ tunnels st1 ≠ JsObject.empty
  ∧ tunnels (closeTunnel "tunnel_1700000000004" st1).2 = JsObject.empty.
Proof.
  intros w st1.
  assert (createTunnel w bastion_request (constructor w) = (inr bastion_tunnel, st1))
    as Hrun by (vm_compute; reflexivity).
  split; [reflexivity|]. split; [vm_compute; discriminate|].
  destruct (createTunnel_closeTunnel_round_trip w bastion_request (constructor w) st1
              bastion_tunnel Hrun eq_refl) as (st2 & Hclose & Htun & _).
  change (TunnelInfo.tunnelId bastion_tunnel) with "tunnel_1700000000004" in Hclose.
  rewrite Hclose. exact Htun.
Defined.

(** X4.  Two tunnels that [createTunnel] returns have the same id exactly
    when the two calls read the same [Date.now()] value; when the ids
    differ, the later call leaves the registry entry of the earlier tunnel
    untouched. *)
Theorem tunnel_ids_collide_only_in_same_millisecond (w : World)
    (p1 p2 : TunnelParams.t) (st1 st1' st2 st2' : State) (t1 t2 : TunnelInfo.t) :
  createTunnel w p1 st1 = (inr t1, st1') →
  createTunnel w p2 st2 = (inr t2, st2') →
  (TunnelInfo.tunnelId t1 = TunnelInfo.tunnelId t2
   ↔ clock_reading st1' = clock_reading st2')
  ∧ (TunnelInfo.tunnelId t1 ≠ TunnelInfo.tunnelId t2 →
     JsObject.get (TunnelInfo.tunnelId t1) (tunnels st2')
     = JsObject.get (TunnelInfo.tunnelId t1) (tunnels st2)).
Proof.
  intros H1 H2.
  destruct (createTunnel_up _ _ _ _ _ H1)
    as (_ & _ & _ & _ & _ & _ & _ & (now1 & Hc1 & Hid1) & _).
  destruct (createTunnel_up _ _ _ _ _ H2)
    as (_ & Hothers & _ & _ & _ & _ & _ & (now2 & Hc2 & Hid2) & _).
  split.
  - rewrite Hid1, Hid2, Hc1, Hc2, tunnel_id_inj. split; congruence.
  - intros Hne. by apply Hothers.
Qed.

(** ** Connecting, continued *)

(** Every SQL session a connect call opens has the configuration
    [session_config] builds, for the tunnel of the call if it made one. *)
Lemma connect_session_configs w engine params st :
  ∃ evs,
    trace (connect w engine params st).2 = evs ++ trace st
    ∧ (∀ ev cfg, ev ∈ evs → session_config_of ev = Some cfg →
        ∃ tunnel st1 token toks,
          cfg = session_config w engine params tunnel token
          ∧ TokenStep w engine params st1 token toks
          ∧ region st1 = region st
          ∧ (if truthy_str (ConnectParams.sshHost params)
             then tunnel ≠ None else tunnel = None))
      ∧ ∀ res, (connect w engine params st).1 = inr res →
               ∃ ev, ev ∈ evs ∧ is_Some (session_config_of ev).
Proof.
  destruct (connect_outcome w engine params st)
    as [[r st'] Hhost Hout|Hhost Huser|e st1 Hhost Huser Htun
       |tunnel st1 [r st'] Hhost Huser Htun Hout]; rewrite Hhost.
  - destruct (session_outcome_inv _ _ _ _ _ _ _ Hout)
      as (evs & token & Htr & _ & _ & _ & Hcfg & _ & Hres).
    assert (∀ ev cfg, ev ∈ evs → session_config_of ev = Some cfg →
              ∃ tunnel st1 token toks,
                cfg = session_config w engine params tunnel token
                ∧ TokenStep w engine params st1 token toks
                ∧ region st1 = region st ∧ tunnel = None) as Hall.
    { intros ev cfg Hin Hev. destruct (Hcfg _ _ Hin Hev) as [-> [toks Hstep]].
      by exists None, st, token, toks. }
    destruct r as [e|res]; simpl.
    + exists (EvLog LogError (connect_error_text engine false) (Some e) :: evs).
      split; [by rewrite Htr|]. split; [|done].
      intros ev cfg [->|Hin]%elem_of_cons Hev; [done|]. by eapply Hall.
    + exists evs. split; [done|]. split; [exact Hall|].
      intros res' _. destruct Hres as (now & c & rest & -> & _).
      eexists. split; [apply list_elem_of_further, list_elem_of_here|].
      rewrite session_config_of_event. by eexists.
  - simpl. eexists [_]. split; [done|]. split; [|done].
    intros ev cfg Hin. by apply list_elem_of_singleton in Hin as ->.
  - destruct (createTunnel_failed _ _ _ _ _ Htun) as (evs1 & Htr1 & _ & _ & _ & Hns).
    rewrite list.Forall_forall in Hns.
    simpl. exists (EvLog LogError (connect_error_text engine true) (Some e) :: evs1).
    split; [by rewrite Htr1|]. split; [|done].
    intros ev cfg [->|Hin]%elem_of_cons; [done|].
    by rewrite (no_session_config _ (Hns _ Hin)).
  - destruct (createTunnel_ok _ _ _ _ _ Htun) as (evs1 & Htr1 & Hreg & _ & _ & Hns).
    destruct (session_outcome_inv _ _ _ _ _ _ _ Hout)
      as (evs & token & Htr & _ & _ & _ & Hcfg & _ & Hres).
    rewrite list.Forall_forall in Hns.
    assert (∀ ev cfg, ev ∈ evs ++ evs1 → session_config_of ev = Some cfg →
              ∃ tunnel0 st0 token toks,
                cfg = session_config w engine params tunnel0 token
                ∧ TokenStep w engine params st0 token toks
                ∧ region st0 = region st ∧ tunnel0 ≠ None) as Hall.
    { intros ev cfg [Hin|Hin]%elem_of_app Hev.
      - destruct (Hcfg _ _ Hin Hev) as [-> [toks Hstep]].
        by exists (Some tunnel), st1, token, toks.
      - by rewrite (no_session_config _ (Hns _ Hin)) in Hev. }
    destruct r as [e|res]; simpl.
    + exists (EvLog LogError (connect_error_text engine true) (Some e) :: evs ++ evs1).
      split; [simpl; rewrite Htr, Htr1; by rewrite app_assoc|]. split; [|done].
      intros ev cfg [->|Hin]%elem_of_cons Hev; [done|]. by eapply Hall.
    + exists (evs ++ evs1).
      split; [simpl; rewrite Htr, Htr1; by rewrite app_assoc|]. split; [exact Hall|].
      intros res' _. destruct Hres as (now & c & rest & -> & _).
      eexists. split; [apply elem_of_app; left;
                       apply list_elem_of_further, list_elem_of_here|].
      rewrite session_config_of_event. by eexists.
Qed.

(** X5.  In every SQL session a connect call opens, user and database are
    the caller's.  With [useIAM] the password is a token the signer issued
    for the caller's host, port and user, certificate checking is on, and
    on MySQL the clear-text plugin returns that token followed by a zero
    byte; the caller's password is not sent.  Without [useIAM] the
    password is the caller's, no plugin is installed, and on MySQL no
    [ssl] entry is given. *)
Theorem session_credentials (w : World) (engine : Engine) (params : ConnectParams.t)
    (st : State) :
  ∃ evs,
    trace (connect w engine params st).2 = evs ++ trace st
    ∧ (∀ ev cfg, ev ∈ evs → session_config_of ev = Some cfg →
        AuthConfig.user cfg = ConnectParams.user params
        ∧ AuthConfig.database cfg = ConnectParams.database params
        ∧ if truthy_bool (ConnectParams.useIAM params) then
            (∃ tr, signer_getAuthToken w tr (region st) (ConnectParams.host params)
                     (num_or (ConnectParams.port params) (default_port engine))
                     (ConnectParams.user params) = inr (AuthConfig.password cfg))
            ∧ AuthConfig.ssl cfg = Some (SslVerify true)
            ∧ AuthConfig.authPlugins cfg
              = match engine with
                | mysql => Some (AuthConfig.password cfg +:+ nul)
                | postgres => None
                end
          else
            AuthConfig.password cfg = ConnectParams.password params
            ∧ AuthConfig.authPlugins cfg = None
            ∧ (engine = mysql → AuthConfig.ssl cfg = None))
    ∧ ∀ res, (connect w engine params st).1 = inr res →
             ∃ ev, ev ∈ evs ∧ is_Some (session_config_of ev).
Proof.
  destruct (connect_session_configs w engine params st) as (evs & Htr & Hall & Hsome).
  exists evs. split; [exact Htr|]. split; [|exact Hsome].
  intros ev cfg Hin Hev.
  destruct (Hall _ _ Hin Hev) as (tunnel & st1 & token & toks & -> & Hstep & Hreg & _).
  split; [done|]. split; [done|].
  inversion Hstep as [tok Hiam Hsign|Hiam]; subst; rewrite Hiam; simpl.
  - split; [exists (trace st1); by rewrite <-Hreg|]. split; [done|]. by destruct engine.
  - split; [done|]. split; [by destruct engine|]. by intros ->.
Qed.

(** X6.  A connect call without [sshHost], once the password is known (the
    caller's, or the token the signer issued): its next outside call opens
    the SQL session against the caller's host, at the caller's port, or at
    the engine's default port (3306, 5432) when the port is omitted or
    [0]; the call ends with the log of the driver's error or with the
    clock reading of the new id.  Whatever the outcome, no session of the
    call has another host or port. *)
Theorem direct_connect_targets_database (w : World) (engine : Engine)
    (params : ConnectParams.t) (st : State) (token : option string) (evs : list Event) :
  truthy_str (ConnectParams.sshHost params) = false →
  TokenStep w engine params st token evs →
  let out := connect w engine params st in
  (∃ cfg,
     AuthConfig.host cfg = ConnectParams.host params
     ∧ AuthConfig.port cfg
       = match ConnectParams.port params with
         | Some 0 | None => match engine with mysql => 3306 | postgres => 5432 end
         | Some port => port
         end
     ∧ let opening := session_event engine (length (evs ++ trace st)) cfg
                      :: evs ++ trace st in
       trace out.2
       = match session_answer w engine (evs ++ trace st) cfg with
         | Some e => EvLog LogError (connect_error_text engine false) (Some e)
         | None => EvDateNow (date_now w opening)
         end :: opening)
  ∧ ∃ calls,
      trace out.2 = calls ++ trace st
      ∧ ∀ ev cfg, ev ∈ calls → session_config_of ev = Some cfg →
          AuthConfig.host cfg = ConnectParams.host params
          ∧ AuthConfig.port cfg
            = match ConnectParams.port params with
              | Some 0 | None => match engine with mysql => 3306 | postgres => 5432 end
              | Some port => port
              end.
Proof.
  intros Hhost Hstep out.
  assert (num_or (ConnectParams.port params) (default_port engine)
          = match ConnectParams.port params with
            | Some 0 | None => match engine with mysql => 3306 | postgres => 5432 end
            | Some port => port
            end) as Hport.
  { unfold num_or, default_port.
    destruct (ConnectParams.port params) as [[|port|port]|]; by destruct engine. }
  split.
  - exists (session_config w engine params None token).
    split; [done|]. split; [exact Hport|].
    intros opening. subst out opening.
    rewrite (connect_session w engine params st None st token evs
               (connect_direct _ _ _ _ Hhost) Hstep).
    by destruct (session_answer w engine (evs ++ trace st) _).
  - destruct (connect_session_configs w engine params st) as (calls & Htr & Hall & _).
    exists calls. split; [exact Htr|].
    intros ev cfg Hin Hev.
    destruct (Hall _ _ Hin Hev) as (tunnel & st1 & token' & toks & -> & _ & _ & Hnone).
    rewrite Hhost in Hnone. subst tunnel. split; [done|exact Hport].
Qed.

Lemma direct_connect_targets_database_witness :
  let w := quiet_world in
  truthy_str (ConnectParams.sshHost direct_params) = false
  ∧ ∃ cfg,
      AuthConfig.host cfg = "db.internal"
      ∧ AuthConfig.port cfg = 3306
      ∧ trace (connect w mysql direct_params (constructor w)).2
        = [EvDateNow 1700000000001; EvMysqlCreateConnection 0%nat cfg].
Proof.
  intros w. split; [reflexivity|].
  destruct (direct_connect_targets_database w mysql direct_params (constructor w) None []
              eq_refl (WithPassword w mysql direct_params (constructor w) eq_refl))
    as [(cfg & Hh & Hp & Htr) _].
  exists cfg. split; [exact Hh|]. split; [exact Hp|].
  rewrite Htr. reflexivity.
Defined.


Lemma tunnel_id_not_empty (now : Z) : "tunnel_" +:+ pretty now ≠ "".
Proof. by rewrite append_cons. Qed.

(** A successful connect, seen from the registries. *)
Lemma connect_registered w engine params st res st' :
  connect w engine params st = (inr res, st') →
  ∃ connection cfg evs,
    connections st'
    = JsObject.set (ConnectionResult.connectionId res)
        {| ConnectionInfo.connection := connection;
           ConnectionInfo.engine := engine;
           ConnectionInfo.tunnelId := ConnectionResult.tunnelId res |}
        (connections st)
    ∧ match ConnectionResult.tunnelId res with
      | None => tunnels st' = tunnels st
      | Some tunnelId =>
          tunnelId ≠ ""
          ∧ ∃ tunnel, TunnelInfo.tunnelId tunnel = tunnelId
                      ∧ tunnels st' = JsObject.set tunnelId tunnel (tunnels st)
      end
    ∧ trace st' = evs ++ trace st
    ∧ session_event engine connection cfg ∈ evs.
Proof.
  intros Hconnect.
  pose proof (connect_outcome w engine params st) as Hcases. rewrite Hconnect in Hcases.
  inversion Hcases
    as [[r s] Hhost Hout Heq|Hhost Huser|e' s1 Hhost Huser Htun Heq
       |tunnel s1 [r s] Hhost Huser Htun Hout Heq].
  - destruct r as [e|res']; simpl in Heq; [discriminate|]. injection Heq as -> ->.
    destruct (session_outcome_inv _ _ _ _ _ _ _ Hout)
      as (evs & token & Htr & _ & Htuns & _ & _ & _ & now & c & rest & Hevs & _ & -> & Hc).
    exists c, (session_config w engine params None token), evs. simpl.
    split; [exact Hc|]. split; [exact Htuns|]. split; [exact Htr|].
    rewrite Hevs. apply list_elem_of_further, list_elem_of_here.
  - destruct (createTunnel_up _ _ _ _ _ Htun)
      as (_ & _ & _ & _ & _ & _ & _ & (t & _ & Hid) & _).
    destruct (createTunnel_ok _ _ _ _ _ Htun) as (evs1 & Htr1 & _ & Hconns & Htuns1 & _).
    destruct r as [e|res']; simpl in Heq; [discriminate|]. injection Heq as -> ->.
    destruct (session_outcome_inv _ _ _ _ _ _ _ Hout)
      as (evs & token & Htr & _ & Htuns & _ & _ & _ & now & c & rest & Hevs & _ & -> & Hc).
    exists c, (session_config w engine params (Some tunnel) token), (evs ++ evs1). simpl.
    split; [by rewrite Hc, Hconns|].
    split.
    { split; [rewrite Hid; apply tunnel_id_not_empty|].
      exists tunnel. split; [done|]. by rewrite Htuns, Htuns1. }
    split; [rewrite Htr, Htr1; by rewrite app_assoc|].
    apply elem_of_app; left. rewrite Hevs. apply list_elem_of_further, list_elem_of_here.
Qed.

Lemma executeQuery_present w st connectionId connInfo query values :
  JsObject.get connectionId (connections st) = Some connInfo →
  let connection := ConnectionInfo.connection connInfo in
  let sent := EvQuery connection query (Some (values_or_empty values)) in
  executeQuery w (QueryParams.mk connectionId query values) st
  = match conn_query w (trace st) connection query (Some (values_or_empty values)) with
    | inr rows => (inr rows, record [sent] st)
    | inl e => (inl e, record [EvLog LogError "Error executing query on RDS:" (Some e);
                               sent] st)
    end.
Proof.
  intros Hget connection sent. subst connection sent.
  unfold executeQuery, JsObject.read, try_catch, bind, get_state; simpl. rewrite Hget.
  unfold driver_query, await_val, call, bind; simpl.
  destruct (ConnectionInfo.engine connInfo);
    destruct (conn_query w (trace st) (ConnectionInfo.connection connInfo) query
                (Some (values_or_empty values))); done.
Qed.

(** X7.  After a connect call returns, [executeQuery] on the returned id
    finds the connection: it calls the driver once, on the session that
    connect opened, with the statement and with [values] or the empty list,
    and returns the driver's rows or logs and throws the driver's error.
    Either way the registries stay as they are. *)
Theorem connect_then_executeQuery (w : World) (engine : Engine)
    (params : ConnectParams.t) (st st1 : State) (res : ConnectionResult.t)
    (query : string) (values : option (list JsVal)) :
  connect w engine params st = (inr res, st1) →
  ∃ connection cfg evs,
    trace st1 = evs ++ trace st
    ∧ session_event engine connection cfg ∈ evs
    ∧ let sent := EvQuery connection query (Some (values_or_empty values)) in
      executeQuery w (QueryParams.mk (ConnectionResult.connectionId res) query values) st1
      = match conn_query w (trace st1) connection query
                (Some (values_or_empty values)) with
        | inr rows => (inr rows, record [sent] st1)
        | inl e =>
            (inl e, record [EvLog LogError "Error executing query on RDS:" (Some e);
                            sent] st1)
        end.
Proof.
  intros Hconnect.
  destruct (connect_registered _ _ _ _ _ _ Hconnect)
    as (c & cfg & evs & Hconns & _ & Htr & Hin).
  exists c, cfg, evs. split; [exact Htr|]. split; [exact Hin|].
  assert (JsObject.get (ConnectionResult.connectionId res) (connections st1)
          = Some {| ConnectionInfo.connection := c;
                    ConnectionInfo.engine := engine;
                    ConnectionInfo.tunnelId := ConnectionResult.tunnelId res |}) as Hget.
  { rewrite Hconns. apply JsObjectFacts.get_set_eq. }
  cbv zeta. rewrite (executeQuery_present _ _ _ _ query values Hget). reflexivity.
Qed.

Lemma connect_then_executeQuery_witness :
  let w := quiet_world in
  let st1 := (connect w mysql direct_params (constructor w)).2 in
  (executeQuery w (QueryParams.mk "mysql_db.internal_orders_1700000000001" "SELECT 1" None)
     st1).1
  = inr [[VNum 1]].
Proof.
  intros w st1.
  assert (connect w mysql direct_params (constructor w) = (inr first_connection_result, st1))
    as Hconnect by (vm_compute; reflexivity).
  destruct (connect_then_executeQuery w mysql direct_params (constructor w) st1
              first_connection_result "SELECT 1" None Hconnect)
    as (c & cfg & evs & _ & _ & Hquery).
  simpl in Hquery.
  change (ConnectionResult.connectionId first_connection_result)
    with "mysql_db.internal_orders_1700000000001" in Hquery.
  rewrite Hquery. reflexivity.
Defined.

(** X8.  Connect followed by a [closeConnection] that succeeds, when the
    returned connection id, and the tunnel id if there is one, were not
    registered before the connect: both registries are as they were before
    the connect. *)
Theorem connect_closeConnection_round_trip (w : World) (engine : Engine)
    (params : ConnectParams.t) (st st1 st2 : State) (res : ConnectionResult.t)
    (r : CloseResult.t) :
  connect w engine params st = (inr res, st1) →
  JsObject.get (ConnectionResult.connectionId res) (connections st) = None →
  (∀ tunnelId, ConnectionResult.tunnelId res = Some tunnelId →
               JsObject.get tunnelId (tunnels st) = None) →
  closeConnection w (ConnectionResult.connectionId res) st1 = (inr r, st2) →
  connections st2 = connections st ∧ tunnels st2 = tunnels st.
Proof.
  intros Hconnect Hfresh Htfresh Hclose.
  destruct (connect_registered _ _ _ _ _ _ Hconnect)
    as (c & cfg & evs & Hconns & Htuns & _ & _).
  set (connInfo := {| ConnectionInfo.connection := c;
                      ConnectionInfo.engine := engine;
                      ConnectionInfo.tunnelId := ConnectionResult.tunnelId res |}) in *.
  assert (JsObject.get (ConnectionResult.connectionId res) (connections st1)
          = Some connInfo) as Hget.
  { rewrite Hconns. apply JsObjectFacts.get_set_eq. }
  destruct (conn_end w (trace st1) (ConnectionInfo.connection connInfo)) as [err|] eqn:Hend.
  { rewrite (closeConnection_fails _ _ _ _ _ Hget Hend) in Hclose. discriminate. }
  destruct (closeConnection_succeeds _ _ _ _ Hget Hend) as (st2' & evs' & Heq & Hc & Ht & _).
  rewrite Heq in Hclose. injection Hclose as _ <-.
  split.
  - rewrite Hc, Hconns. by apply delete_set_fresh.
  - rewrite Ht. unfold tunnels_after_close. simpl.
    destruct (ConnectionResult.tunnelId res) as [tid|]; [|done].
    destruct Htuns as (Hne & tunnel & _ & ->).
    rewrite decide_False by done. apply delete_set_fresh. by apply Htfresh.
Qed.

Lemma connect_closeConnection_round_trip_witness :
  let w := quiet_world in
  let st := constructor w in
  let st1 := (connect w postgres tunnel_params st).2 in
  let st2 := (closeConnection w "postgres_ssh_db.internal_orders_1700000000007" st1).2 in
  connections st1 ≠ JsObject.empty
  ∧ tunnels st1 ≠ JsObject.empty
  ∧ connections st2 = JsObject.empty
  ∧ tunnels st2 = JsObject.empty.
Proof.
  intros w st st1 st2.
  split; [vm_compute; discriminate|]. split; [vm_compute; discriminate|].
  assert (connect w postgres tunnel_params st
          = (inr {| ConnectionResult.connectionId :=
                      "postgres_ssh_db.internal_orders_1700000000007";
                    ConnectionResult.engine := postgres;
                    ConnectionResult.connected := true;
                    ConnectionResult.viaTunnel := true;
                    ConnectionResult.tunnelId := Some "tunnel_1700000000004" |}, st1))
    as Hconnect by (vm_compute; reflexivity).
  assert (closeConnection w "postgres_ssh_db.internal_orders_1700000000007" st1
          = (inr {| CloseResult.success := true;
                    CloseResult.message :=
                      "Đã đóng kết nối postgres_ssh_db.internal_orders_1700000000007" |},
             st2))
    as Hclose by (vm_compute; reflexivity).
  refine (connect_closeConnection_round_trip w postgres tunnel_params st st1 st2 _ _
            Hconnect eq_refl _ Hclose).
  intros tunnelId [= <-]. reflexivity.
Defined.

(** X9.  A connect call with [sshHost] but without a usable [sshUsername],
    or without a usable SSH password and private key (absent or empty),
    is refused before any outside call: it logs and throws
    [Missing SSH connection parameters] in the first case and the missing
    credentials error of [createTunnel] in the second, and changes
    nothing else. *)
Theorem connect_rejects_incomplete_ssh_params (w : World) (engine : Engine)
    (params : ConnectParams.t) (st : State) :
  truthy_str (ConnectParams.sshHost params) = true →
  truthy_str (ConnectParams.sshUsername params) = false
  ∨ ssh_config (tunnel_request params (default_port engine)) = None →
  let e := if truthy_str (ConnectParams.sshUsername params)
           then no_credentials_error
           else JsError "Missing SSH connection parameters" in
  connect w engine params st
  = (inl e, record [EvLog LogError (connect_error_text engine true) (Some e)] st).
Proof.
  intros Hhost Hbad e.
  destruct (connect_outcome w engine params st)
    as [[r st'] Hhost' Hout|Hhost' Huser|e' st1 Hhost' Huser Htun
       |tunnel st1 [r st'] Hhost' Huser Htun Hout]; [congruence|..].
  - subst e. by rewrite Huser.
  - destruct Hbad as [?|Hcfg]; [congruence|]. subst e. rewrite Huser.
    pose proof (createTunnel_outcome w (tunnel_request params (default_port engine)) st)
      as Hcases. rewrite Htun in Hcases.
    inversion Hcases; subst; try congruence. done.
  - destruct Hbad as [?|Hcfg]; [congruence|].
    pose proof (createTunnel_outcome w (tunnel_request params (default_port engine)) st)
      as Hcases. rewrite Htun in Hcases.
    inversion Hcases; subst; congruence.
Qed.

Lemma connect_rejects_incomplete_ssh_params_witness :
  let w := quiet_world in
  truthy_str (ConnectParams.sshHost empty_credentials_params) = true
  ∧ ssh_config (tunnel_request empty_credentials_params (default_port postgres)) = None
  ∧ connect w postgres empty_credentials_params (constructor w)
    = (inl no_credentials_error,
       record [EvLog LogError "Lỗi kết nối PostgreSQL qua SSH tunnel:"
                 (Some no_credentials_error)] (constructor w)).
Proof.
  intros w. split; [reflexivity|]. split; [reflexivity|].
  exact (connect_rejects_incomplete_ssh_params w postgres empty_credentials_params
           (constructor w) eq_refl (or_intror eq_refl)).
Defined.

(** X10.  A connect call that throws has registered no connection, and
    without [sshHost] it has touched no tunnel; the error it throws is the
    one its last [console.error] logged. *)
Theorem failed_connect_registers_nothing (w : World) (engine : Engine)
    (params : ConnectParams.t) (st st' : State) (e : Error) :
  connect w engine params st = (inl e, st') →
  connections st' = connections st
  ∧ (truthy_str (ConnectParams.sshHost params) = false → tunnels st' = tunnels st)
  ∧ ∃ evs, trace st'
           = EvLog LogError
               (connect_error_text engine (truthy_str (ConnectParams.sshHost params)))
               (Some e) :: evs ++ trace st.
Proof.
  intros Hconnect.
  pose proof (connect_outcome w engine params st) as Hcases. rewrite Hconnect in Hcases.
  inversion Hcases
    as [[r s] Hhost Hout Heq|Hhost Huser Heq|e' s1 Hhost Huser Htun Heq
       |tunnel s1 [r s] Hhost Huser Htun Hout Heq]; rewrite Hhost.
  - destruct r as [e'|res]; simpl in Heq; [|discriminate]. injection Heq as -> <-.
    destruct (session_outcome_inv _ _ _ _ _ _ _ Hout)
      as (evs & token & Htr & _ & Htuns & _ & _ & _ & Hc & _).
    simpl. split; [done|]. split; [done|]. exists evs. by rewrite Htr.
  - simpl. split; [done|]. split; [done|]. by exists [].
  - destruct (createTunnel_failed _ _ _ _ _ Htun) as (evs1 & Htr1 & _ & Hc & _).
    simpl. split; [done|]. split; [done|]. exists evs1. by rewrite Htr1.
  - destruct (createTunnel_ok _ _ _ _ _ Htun) as (evs1 & Htr1 & _ & Hconns & _).
    destruct r as [e'|res]; simpl in Heq; [|discriminate]. injection Heq as -> <-.
    destruct (session_outcome_inv _ _ _ _ _ _ _ Hout)
      as (evs & token & Htr & _ & _ & _ & _ & _ & Hc & _).
    simpl. split; [congruence|]. split; [done|].
    exists (evs ++ evs1). rewrite Htr, Htr1. by rewrite app_assoc.
Qed.

Lemma failed_connect_registers_nothing_witness :
  let w := refusing_db_world in
  let out := connect w postgres direct_params one_mysql_state in
  out.1 = inl (JsError "connect ECONNREFUSED 127.0.0.1:40123")
  ∧ connections out.2 = connections one_mysql_state
  ∧ tunnels out.2 = JsObject.empty.
Proof.
  intros w out.
  assert (out = (inl (JsError "connect ECONNREFUSED 127.0.0.1:40123"), out.2)) as Hrun
    by (vm_compute; reflexivity).
  split; [by rewrite Hrun|].
  destruct (failed_connect_registers_nothing w postgres direct_params one_mysql_state
              out.2 _ Hrun) as (Hc & Ht & _).
  split; [exact Hc|]. exact (Ht eq_refl).
Defined.

Lemma session_credentials_witness :
  let w := quiet_world in
  ∃ evs,
    trace (connect w mysql tunnel_params (constructor w)).2 = evs ++ []
    ∧ ∀ ev cfg, ev ∈ evs → session_config_of ev = Some cfg →
        AuthConfig.user cfg = "app"
        ∧ AuthConfig.ssl cfg = Some (SslVerify true)
        ∧ AuthConfig.authPlugins cfg = Some (AuthConfig.password cfg +:+ nul).
Proof.
  intros w.
  destruct (session_credentials w mysql tunnel_params (constructor w))
    as (evs & Htr & Hall & _).
  exists evs. split; [exact Htr|].
  intros ev cfg Hin Hev. destruct (Hall ev cfg Hin Hev) as (Hu & _ & Hiam).
  change (truthy_bool (ConnectParams.useIAM tunnel_params)) with true in Hiam.
  destruct Hiam as (_ & Hssl & Hplug). split; [exact Hu|]. split; [exact Hssl|exact Hplug].
Defined.

Lemma tunnel_ids_collide_only_in_same_millisecond_witness :
  let w := quiet_world in
  let out1 := createTunnel w bastion_request (constructor w) in
  let out2 := createTunnel w bastion_request out1.2 in
  clock_reading out1.2 = Some 1700000000004
  ∧ clock_reading out2.2 = Some 1700000000009
  ∧ JsObject.keys (tunnels out2.2) = ["tunnel_1700000000004"; "tunnel_1700000000009"]
  ∧ JsObject.get "tunnel_1700000000004" (tunnels out2.2)
    = JsObject.get "tunnel_1700000000004" (tunnels out1.2).
Proof.
  intros w out1 out2.
  assert (clock_reading out1.2 = Some 1700000000004) as Hc1 by (vm_compute; reflexivity).
  assert (clock_reading out2.2 = Some 1700000000009) as Hc2 by (vm_compute; reflexivity).
  split; [exact Hc1|]. split; [exact Hc2|]. split; [vm_compute; reflexivity|].
  assert (out1 = (inr bastion_tunnel, out1.2)) as H1 by (vm_compute; reflexivity).
  assert (out2 = (inr second_bastion_tunnel, out2.2)) as H2 by (vm_compute; reflexivity).
  destruct (tunnel_ids_collide_only_in_same_millisecond w bastion_request bastion_request
              _ _ _ _ _ _ H1 H2) as [Hiff Hkeep].
  apply Hkeep. intros Heq. apply Hiff in Heq. rewrite Hc1, Hc2 in Heq. discriminate.
Defined.

(** ** Transactions, continued *)

Lemma tx_event_connection engine connection op :
  event_connection (tx_event engine connection op) = Some connection.
Proof. by destruct engine, op. Qed.

(** The loop of a transaction calls nothing but the connection's driver. *)
Lemma run_queries_events w connection qs : ∀ results st,
  ∃ evs,
    (run_queries w connection qs results st).2 = record evs st
    ∧ Forall (λ ev, event_connection ev = Some connection) evs.
Proof.
  induction qs as [|q qs IH]; intros results st; simpl.
  - exists []. split; [by destruct st|constructor].
  - unfold bind, driver_query, await_val, call, bind; simpl.
    destruct (conn_query _ _ _ _ _) as [e|rows]; simpl.
    + eexists [_]. split; [done|]. by repeat constructor.
    + match goal with |- context [run_queries w connection qs ?r ?s] =>
        destruct (IH r s) as (evs & Heq & Hall) end.
      rewrite Heq. eexists (evs ++ [_]). split.
      * unfold record; simpl. by rewrite <-app_assoc.
      * apply Forall_app. split; [done|]. by repeat constructor.
Qed.

(** The rows a completed loop returns: one answer per statement, in the
    order of the statements, after the rows it started with. *)
Lemma run_queries_rows w connection qs : ∀ results st rows st',
  run_queries w connection qs results st = (inr rows, st') →
  ∃ answers,
    rows = results ++ answers
    ∧ length answers = length qs
    ∧ ∀ i q, qs !! i = Some q →
        ∃ r, answers !! i = Some r
             ∧ conn_query w (rev (map (stmt_event connection) (take i qs)) ++ trace st)
                 connection (Query.sql q) (Some (values_or_empty (Query.values q)))
               = inr r.
Proof.
  induction qs as [|q qs IH]; intros results st rows st'; simpl.
  - intros [= <- <-]. exists []. split; [by rewrite app_nil_r|]. split; [done|].
    intros i q Hq. by destruct i.
  - unfold bind, driver_query, await_val, call, bind; simpl.
    destruct (conn_query w (trace st) connection (Query.sql q)
                (Some (values_or_empty (Query.values q)))) as [e|r0] eqn:Hq0; simpl;
      [discriminate|].
    intros Hrun. apply IH in Hrun as (answers & -> & Hlen & Hall).
    exists (r0 :: answers). split; [by rewrite <-app_assoc|]. split; [simpl; lia|].
    intros [|i] q' Hq'; simpl in *.
    + injection Hq' as <-. by exists r0.
    + destruct (Hall i q' Hq') as (r & Hr & Hans). exists r. split; [done|].
      rewrite <-Hans. f_equal. rewrite <-app_assoc. done.
Qed.

(** X11.  On a registered connection, when BEGIN, every statement and COMMIT
    succeed: [executeTransaction] returns one result per statement, the
    i-th being what the driver answered to the i-th statement; the outside
    calls are BEGIN, the statements in the caller's order and COMMIT, with
    no rollback; the registries stay as they are.  Without statements the
    calls are BEGIN and COMMIT and the result is the empty list. *)
Theorem executeTransaction_commits (w : World) (st st2 : State) (connectionId : string)
    (connInfo : ConnectionInfo.t) (queries : list Query.t) (rows : list Rows) :
  let connection := ConnectionInfo.connection connInfo in
  let engine := ConnectionInfo.engine connInfo in
  let begun := tx_event engine connection TxBegin :: trace st in
  JsObject.get connectionId (connections st) = Some connInfo →
  tx_answer w engine connection TxBegin (trace st) = None →
  run_queries w connection queries [] (record [tx_event engine connection TxBegin] st)
  = (inr rows, st2) →
  tx_answer w engine connection TxCommit (trace st2) = None →
  executeTransaction w (TransactionParams.mk connectionId queries) st
  = (inr rows,
     {| region := region st; connections := connections st; tunnels := tunnels st;
        trace := tx_event engine connection TxCommit
                 :: rev (map (stmt_event connection) queries) ++ begun |})
  ∧ length rows = length queries
  ∧ ∀ i query, queries !! i = Some query →
      ∃ r, rows !! i = Some r
           ∧ conn_query w (rev (map (stmt_event connection) (take i queries)) ++ begun)
               connection (Query.sql query)
               (Some (values_or_empty (Query.values query))) = inr r.
Proof.
  intros connection engine begun Hget Hbegin Hloop Hcommit.
  pose proof (run_queries_ok _ _ _ _ _ _ _ Hloop) as Hst2.
  destruct (run_queries_rows _ _ _ _ _ _ _ Hloop) as (answers & Hrows & Hlen & Hall).
  simpl in Hrows. subst rows.
  split; [|split; [exact Hlen|exact Hall]].
  assert (∀ s, tx_begin w engine connection s = tx_run w engine connection TxBegin s)
    as Eb by done.
  assert (∀ s, tx_commit w engine connection s = tx_run w engine connection TxCommit s)
    as Ec by done.
  unfold executeTransaction, JsObject.read, try_catch, bind, get_state.
  cbn [TransactionParams.connectionId TransactionParams.queries].
  rewrite Hget. fold connection. fold engine.
  destruct engine eqn:Heng; rewrite Eb, tx_run_eq, Hbegin, Hloop, Ec, tx_run_eq, Hcommit;
    rewrite Hst2; done.
Qed.

Lemma executeTransaction_commits_witness :
  let w := quiet_world in
  let id := "mysql_db.internal_orders_1700000000001" in
  JsObject.get id (connections one_mysql_state) = Some mysql_record
  ∧ executeTransaction w (TransactionParams.mk id three_statements) one_mysql_state
    = (inr [[[VNum 1]]; [[VNum 1]]; [[VNum 1]]],
       record [EvCommit 0%nat;
               EvQuery 0%nat "DELETE FROM cart" (Some []);
               EvQuery 0%nat "INSERT INTO audit VALUES (1)" (Some []);
               EvQuery 0%nat "UPDATE stock SET n = n - 1" (Some []);
               EvBeginTransaction 0%nat] one_mysql_state).
Proof.
  intros w id. split; [reflexivity|].
  assert (run_queries w 0%nat three_statements []
            (record [EvBeginTransaction 0%nat] one_mysql_state)
          = (inr [[[VNum 1]]; [[VNum 1]]; [[VNum 1]]],
             record (rev (map (stmt_event 0%nat) three_statements))
               (record [EvBeginTransaction 0%nat] one_mysql_state))) as Hloop
    by (vm_compute; reflexivity).
  destruct (executeTransaction_commits w one_mysql_state _ id mysql_record
              three_statements _ eq_refl eq_refl Hloop eq_refl) as [Hrun _].
  exact Hrun.
Defined.

(** X12.  On a registered connection, when BEGIN and every statement succeed
    and COMMIT fails with [e]: the rollback is called after the failed
    COMMIT, and the error logged and thrown is [e] when the rollback
    succeeds, the rollback's own error when it fails; the registries stay
    as they are. *)
Theorem executeTransaction_commit_failure (w : World) (st st2 : State)
    (connectionId : string) (connInfo : ConnectionInfo.t) (queries : list Query.t)
    (rows : list Rows) (e : Error) :
  let connection := ConnectionInfo.connection connInfo in
  let engine := ConnectionInfo.engine connInfo in
  JsObject.get connectionId (connections st) = Some connInfo →
  tx_answer w engine connection TxBegin (trace st) = None →
  run_queries w connection queries [] (record [tx_event engine connection TxBegin] st)
  = (inr rows, st2) →
  tx_answer w engine connection TxCommit (trace st2) = Some e →
  let committed :=
    tx_event engine connection TxCommit
    :: rev (map (stmt_event connection) queries)
    ++ tx_event engine connection TxBegin :: trace st in
  let raised :=
    match tx_answer w engine connection TxRollback committed with
    | Some rollbackError => rollbackError
    | None => e
    end in
  executeTransaction w (TransactionParams.mk connectionId queries) st
  = (inl raised,
     {| region := region st; connections := connections st; tunnels := tunnels st;
        trace := EvLog LogError "Error executing transaction on RDS:" (Some raised)
                 :: tx_event engine connection TxRollback :: committed |}).
Proof.
  intros connection engine Hget Hbegin Hloop Hcommit committed raised.
  pose proof (run_queries_ok _ _ _ _ _ _ _ Hloop) as Hst2.
  assert (∀ s, tx_begin w engine connection s = tx_run w engine connection TxBegin s)
    as Eb by done.
  assert (∀ s, tx_commit w engine connection s = tx_run w engine connection TxCommit s)
    as Ec by done.
  assert (∀ s, tx_rollback w engine connection s = tx_run w engine connection TxRollback s)
    as Er by done.
  unfold executeTransaction, JsObject.read, try_catch, bind, get_state.
  cbn [TransactionParams.connectionId TransactionParams.queries].
  rewrite Hget. fold connection. fold engine.
  destruct engine eqn:Heng;
    rewrite Eb, tx_run_eq, Hbegin, Hloop, Ec, tx_run_eq, Hcommit, Er, tx_run_eq;
    rewrite Hst2; cbn [trace record app]; subst raised committed;
    match goal with
    | |- context [tx_answer w ?g ?c TxRollback ?t] =>
        destruct (tx_answer w g c TxRollback t)
    end; done.
Qed.

Lemma executeTransaction_commit_failure_witness :
  let w := transaction_world None (Some (JsError "Deadlock found")) None in
  let id := "mysql_db.internal_orders_1700000000001" in
  JsObject.get id (connections one_mysql_state) = Some mysql_record
  ∧ executeTransaction w (TransactionParams.mk id three_statements) one_mysql_state
    = (inl (JsError "Deadlock found"),
       record [EvLog LogError "Error executing transaction on RDS:"
                 (Some (JsError "Deadlock found"));
               EvRollback 0%nat;
               EvCommit 0%nat;
               EvQuery 0%nat "DELETE FROM cart" (Some []);
               EvQuery 0%nat "INSERT INTO audit VALUES (1)" (Some []);
               EvQuery 0%nat "UPDATE stock SET n = n - 1" (Some []);
               EvBeginTransaction 0%nat] one_mysql_state).
Proof.
  intros w id. split; [reflexivity|].
  assert (run_queries w 0%nat three_statements []
            (record [EvBeginTransaction 0%nat] one_mysql_state)
          = (inr [[[VNum 1]]; [[VNum 1]]; [[VNum 1]]],
             record (rev (map (stmt_event 0%nat) three_statements))
               (record [EvBeginTransaction 0%nat] one_mysql_state))) as Hloop
    by (vm_compute; reflexivity).
  exact (executeTransaction_commit_failure w one_mysql_state _ id mysql_record
           three_statements _ (JsError "Deadlock found") eq_refl eq_refl Hloop eq_refl).
Defined.

(** X13.  On a registered connection, when BEGIN fails with [e]: no
    statement is sent, neither COMMIT nor rollback is called, and [e] is
    logged and thrown. *)
Theorem executeTransaction_begin_failure (w : World) (st : State)
    (connectionId : string) (connInfo : ConnectionInfo.t) (queries : list Query.t)
    (e : Error) :
  let connection := ConnectionInfo.connection connInfo in
  let engine := ConnectionInfo.engine connInfo in
  JsObject.get connectionId (connections st) = Some connInfo →
  tx_answer w engine connection TxBegin (trace st) = Some e →
  executeTransaction w (TransactionParams.mk connectionId queries) st
  = (inl e,
     record [EvLog LogError "Error executing transaction on RDS:" (Some e);
             tx_event engine connection TxBegin] st).
Proof.
  intros connection engine Hget Hbegin.
  assert (∀ s, tx_begin w engine connection s = tx_run w engine connection TxBegin s)
    as Eb by done.
  unfold executeTransaction, JsObject.read, try_catch, bind, get_state.
  cbn [TransactionParams.connectionId TransactionParams.queries].
  rewrite Hget. fold connection. fold engine.
  destruct engine eqn:Heng; rewrite Eb, tx_run_eq, Hbegin; done.
Qed.

Lemma executeTransaction_begin_failure_witness :
  let w := transaction_world (Some (JsError "Connection lost")) None None in
  let id := "mysql_db.internal_orders_1700000000001" in
  JsObject.get id (connections one_mysql_state) = Some mysql_record
  ∧ executeTransaction w (TransactionParams.mk id three_statements) one_mysql_state
    = (inl (JsError "Connection lost"),
       record [EvLog LogError "Error executing transaction on RDS:"
                 (Some (JsError "Connection lost"));
               EvBeginTransaction 0%nat] one_mysql_state).
Proof.
  intros w id. split; [reflexivity|].
  exact (executeTransaction_begin_failure w one_mysql_state id mysql_record
           three_statements (JsError "Connection lost") eq_refl eq_refl).
Defined.

(** ** Isolation of sessions *)

Lemma record_record evs1 evs2 st :
  record evs1 (record evs2 st) = record (evs1 ++ evs2) st.
Proof. unfold record; simpl. by rewrite app_assoc. Qed.

Lemma touches_only_record connectionId st evs :
  Forall (λ ev, is_error_log ev = true
                ∨ ∃ connInfo,
                    JsObject.get connectionId (connections st) = Some connInfo
                    ∧ event_connection ev = Some (ConnectionInfo.connection connInfo))
         evs →
  touches_only connectionId st (record evs st).
Proof.
  intros Hall. repeat split. exists evs. split; [done|].
  by apply list.Forall_forall.
Qed.

Lemma executeQuery_touches_only w params st :
  touches_only (QueryParams.connectionId params) st (executeQuery w params st).2.
Proof.
  unfold executeQuery, JsObject.read, try_catch, bind, get_state; simpl.
  destruct (JsObject.get _ (connections st)) as [connInfo|] eqn:Hget; simpl.
  - assert (∀ ev, event_connection ev = Some (ConnectionInfo.connection connInfo) →
              is_error_log ev = true
              ∨ ∃ ci, Some connInfo = Some ci
                      ∧ event_connection ev = Some (ConnectionInfo.connection ci)) as Hown.
    { intros ev Hev. right. by exists connInfo. }
    destruct (ConnectionInfo.engine connInfo);
      unfold driver_query, await_val, call, bind; simpl;
      destruct (conn_query _ _ _ _ _); simpl.
    all: first [ apply (touches_only_record _ st [_; _])
               | apply (touches_only_record _ st [_]) ];
      rewrite Hget;
      repeat first [ apply Forall_nil | apply Forall_cons | by left
                   | by apply Hown ].
  - case_bool_decide; apply (touches_only_record _ st [_]);
      (apply Forall_cons; [by left|apply Forall_nil]).
Qed.

Lemma executeTransaction_touches_only w params st :
  touches_only (TransactionParams.connectionId params) st
    (executeTransaction w params st).2.
Proof.
  unfold executeTransaction, JsObject.read, try_catch, bind, get_state.
  cbn [TransactionParams.connectionId TransactionParams.queries].
  destruct (JsObject.get _ (connections st)) as [connInfo|] eqn:Hget.
  - set (connection := ConnectionInfo.connection connInfo).
    assert (∀ ev, event_connection ev = Some connection →
              is_error_log ev = true
              ∨ ∃ ci, JsObject.get (TransactionParams.connectionId params) (connections st)
                      = Some ci
                      ∧ event_connection ev = Some (ConnectionInfo.connection ci)) as Hown.
    { intros ev Hev. right. exists connInfo. by rewrite Hget. }
    assert (∀ op,
              is_error_log (tx_event (ConnectionInfo.engine connInfo) connection op) = true
              ∨ ∃ ci, JsObject.get (TransactionParams.connectionId params) (connections st)
                      = Some ci
                      ∧ event_connection
                          (tx_event (ConnectionInfo.engine connInfo) connection op)
                        = Some (ConnectionInfo.connection ci)) as Htx.
    { intros op. apply Hown, tx_event_connection. }
    destruct (ConnectionInfo.engine connInfo) eqn:Heng.
    all: change (tx_begin w ?g ?c) with (tx_run w g c TxBegin);
      change (tx_commit w ?g ?c) with (tx_run w g c TxCommit);
      change (tx_rollback w ?g ?c) with (tx_run w g c TxRollback).
    all: rewrite tx_run_eq;
      destruct (tx_answer _ _ _ TxBegin _) as [e|]; cbn -[tx_run].
    all: try (apply (touches_only_record _ st [_; _]);
              apply Forall_cons; [by left|];
              apply Forall_cons; [apply (Htx TxBegin)|apply Forall_nil]).
    all: match goal with
         | |- context [run_queries ?w0 ?c ?qs [] ?s] =>
             destruct (run_queries_events w0 c qs [] s) as (evs & Hevs & Hall);
             destruct (run_queries w0 c qs [] s) as [[e|rows] s2]
         end; simpl in Hevs; subst s2; cbn -[tx_run].
    all: rewrite tx_run_eq;
      match goal with
      | |- context [tx_answer ?w0 ?g ?c ?op ?t] => destruct (tx_answer w0 g c op t)
      end; cbn -[tx_run];
      try (rewrite tx_run_eq;
           match goal with
           | |- context [tx_answer ?w0 ?g ?c ?op ?t] => destruct (tx_answer w0 g c op t)
           end; cbn -[tx_run]).
    all: split; [done|]; split; [done|]; split; [done|]; cbn [trace record app].
    all: match goal with
         | |- ∃ _, ?a :: ?b :: ?c :: ?l ++ ?d :: _ = _ ∧ _ =>
             exists (a :: b :: c :: l ++ [d])
         | |- ∃ _, ?a :: ?b :: ?l ++ ?d :: _ = _ ∧ _ => exists (a :: b :: l ++ [d])
         | |- ∃ _, ?a :: ?l ++ ?d :: _ = _ ∧ _ => exists (a :: l ++ [d])
         end;
      (split; [by rewrite <-?app_comm_cons, <-app_assoc|]);
      apply list.Forall_forall.
    all: repeat first
           [ apply Forall_nil
           | apply Forall_app; split
           | apply Forall_cons
           | by left
           | apply (Htx TxBegin) | apply (Htx TxCommit) | apply (Htx TxRollback)
           | eapply list.Forall_impl; [exact Hall|intros ev Hev; by apply Hown] ].
  - case_bool_decide; apply (touches_only_record _ st [_]);
      (apply Forall_cons; [by left|apply Forall_nil]).
Qed.

(** X14.  A query or a transaction changes neither registry and calls no
    driver other than the one of the connection named in the request:
    every outside call it makes is a call of [console.error] or a call on
    that connection. *)
Theorem statements_touch_only_their_connection (w : World) (st : State) :
  (∀ params, touches_only (QueryParams.connectionId params) st
               (executeQuery w params st).2)
  ∧ (∀ params, touches_only (TransactionParams.connectionId params) st
                 (executeTransaction w params st).2).
Proof.
  split; intros params;
    [apply executeQuery_touches_only|apply executeTransaction_touches_only].
Qed.

(** ** Closing a connection, continued *)

Lemma closeConnection_done w st connectionId connInfo :
  JsObject.get connectionId (connections st) = Some connInfo →
  conn_end w (trace st) (ConnectionInfo.connection connInfo) = None →
  closeConnection w connectionId st
  = (inr {| CloseResult.success := true;
            CloseResult.message := "Đã đóng kết nối " +:+ connectionId |},
     {| region := region st;
        connections := JsObject.delete connectionId (connections st);
        tunnels := tunnels_after_close connInfo (tunnels st);
        trace := match owned_tunnel connInfo (tunnels st) with
                 | Some (tunnelId, tunnel) => teardown_events tunnelId tunnel
                 | None => stray_tunnel_log connInfo
                 end ++ EvEnd (ConnectionInfo.connection connInfo) :: trace st |}).
Proof.
  intros H E.
  unfold closeConnection, JsObject.read, try_catch, bind, get_state, tunnels_after_close,
    owned_tunnel, stray_tunnel_log; simpl.
  rewrite H.
  assert (await_unit (EvEnd (ConnectionInfo.connection connInfo))
                 (λ tr, conn_end w tr (ConnectionInfo.connection connInfo)) st
               = (inr tt, record [EvEnd (ConnectionInfo.connection connInfo)] st)) as Hend.
  { unfold await_unit, call, bind; simpl. by rewrite E. }
  destruct (ConnectionInfo.tunnelId connInfo) as [tid|] eqn:Etid; simpl.
  - destruct (decide (tid = "")) as [->|Hne]; simpl.
    + by destruct (ConnectionInfo.engine connInfo); rewrite Hend.
    + unfold JsObject.has, JsObject.read.
      destruct (JsObject.get tid (tunnels st)) as [tunnel|] eqn:Etun.
      * destruct (ConnectionInfo.engine connInfo); rewrite Hend; simpl;
          rewrite Etun; simpl;
          (erewrite closeTunnel_present by (simpl; exact Etun)); done.
      * rewrite (delete_absent _ _ Etun).
        destruct (bool_decide (tid ∈ JsObject.inherited_names)) eqn:Hin.
        -- destruct (ConnectionInfo.engine connInfo); rewrite Hend; simpl;
             rewrite Etun; simpl;
             (erewrite closeTunnel_absent by (simpl; exact Etun)); done.
        -- destruct (ConnectionInfo.engine connInfo); rewrite Hend; simpl;
             rewrite Etun; done.
  - by destruct (ConnectionInfo.engine connInfo); rewrite Hend.
Qed.

(** X15.  When the driver closes a registered connection without error,
    [closeConnection] first ends the SQL session, then, if the connection
    has a tunnel that is still registered, closes the tunnel's local server
    and ends its SSH client, in this order; it removes the connection and
    that tunnel from the registries and makes no other outside call.  (A
    record whose tunnelId is the name of a member of [Object.prototype],
    which the handler never writes, adds the one line [closeTunnel] logs
    for it.) *)
Theorem closeConnection_teardown_order (w : World) (st : State) (connectionId : string)
    (connInfo : ConnectionInfo.t) :
  JsObject.get connectionId (connections st) = Some connInfo →
  conn_end w (trace st) (ConnectionInfo.connection connInfo) = None →
  closeConnection w connectionId st
  = (inr {| CloseResult.success := true;
            CloseResult.message := "Đã đóng kết nối " +:+ connectionId |},
     {| region := region st;
        connections := JsObject.delete connectionId (connections st);
        tunnels := tunnels_after_close connInfo (tunnels st);
        trace := match owned_tunnel connInfo (tunnels st) with
                 | Some (tunnelId, tunnel) => teardown_events tunnelId tunnel
                 | None => stray_tunnel_log connInfo
                 end ++ EvEnd (ConnectionInfo.connection connInfo) :: trace st |})
  ∧ ((∀ tunnelId, ConnectionInfo.tunnelId connInfo = Some tunnelId →
                  tunnelId ∉ JsObject.inherited_names) →
     stray_tunnel_log connInfo = []).
Proof.
  intros Hget Hend. split; [by apply closeConnection_done|].
  intros Hnames. unfold stray_tunnel_log.
  destruct (ConnectionInfo.tunnelId connInfo) as [tunnelId|]; [|done].
  by rewrite bool_decide_eq_false_2 by by apply Hnames.
Qed.

Lemma closeConnection_teardown_order_witness :
  let id := "postgres_ssh_db.internal_orders_1700000000007" in
  JsObject.get id (connections one_tunnel_state) = Some postgres_record
  ∧ (closeConnection quiet_world id one_tunnel_state).1
    = inr {| CloseResult.success := true;
             CloseResult.message := "Đã đóng kết nối " +:+ id |}
  ∧ trace (closeConnection quiet_world id one_tunnel_state).2
    = [ EvLog LogInfo "Đã đóng tunnel tunnel_1700000000004" None;
        EvLog LogInfo "Đã đóng kết nối SSH client" None;
        EvSshEnd 0%nat;
        EvServerClose 2%nat;
        EvEnd 6%nat ] ++ trace one_tunnel_state.
Proof.
  intros id.
  assert (JsObject.get id (connections one_tunnel_state) = Some postgres_record) as Hget
    by (vm_compute; reflexivity).
  split; [exact Hget|].
  destruct (closeConnection_teardown_order quiet_world one_tunnel_state id postgres_record
              Hget eq_refl) as [-> _].
  split; [reflexivity|]. cbn [snd trace].
  assert (owned_tunnel postgres_record (tunnels one_tunnel_state)
          = Some ("tunnel_1700000000004", bastion_tunnel)) as -> by (vm_compute; reflexivity).
  reflexivity.
Defined.

(** X16.  Whatever its outcome, [closeConnection] leaves every other
    connection as it is, and every tunnel other than the one of the
    connection it closes; the region is not changed. *)
Theorem closeConnection_frame (w : World) (st : State) (connectionId : string) :
  let st' := (closeConnection w connectionId st).2 in
  region st' = region st
  ∧ (∀ k, k ≠ connectionId →
          JsObject.get k (connections st') = JsObject.get k (connections st))
  ∧ (∀ k, (∀ connInfo, JsObject.get connectionId (connections st) = Some connInfo →
                       ConnectionInfo.tunnelId connInfo ≠ Some k) →
          JsObject.get k (tunnels st') = JsObject.get k (tunnels st)).
Proof.
  intros st'. subst st'.
  split; [|split].
  - destruct (JsObject.get connectionId (connections st)) as [connInfo|] eqn:Hget.
    + destruct (conn_end w (trace st) (ConnectionInfo.connection connInfo)) as [err|] eqn:Hend.
      * by rewrite (closeConnection_fails _ _ _ _ _ Hget Hend).
      * by rewrite (closeConnection_done _ _ _ _ Hget Hend).
    + by rewrite (closeConnection_absent _ _ _ Hget).
  - intros k Hne.
    destruct (JsObject.get connectionId (connections st)) as [connInfo|] eqn:Hget.
    + destruct (conn_end w (trace st) (ConnectionInfo.connection connInfo)) as [err|] eqn:Hend.
      * by rewrite (closeConnection_fails _ _ _ _ _ Hget Hend).
      * rewrite (closeConnection_done _ _ _ _ Hget Hend). simpl.
        by apply JsObjectFacts.get_delete_ne.
    + by rewrite (closeConnection_absent _ _ _ Hget).
  - intros k Hother. by apply closeConnection_other_tunnel.
Qed.

(** ** The shutdown sweep, continued *)

Lemma kept_or_torn_down_refl st st' evs :
  tunnels st' = tunnels st → kept_or_torn_down st st' evs.
Proof. intros Heq k tunnel Hget. left. by rewrite Heq. Qed.

Lemma kept_or_torn_down_trans st st1 st2 evs1 evs2 :
  kept_or_torn_down st st1 evs1 →
  kept_or_torn_down st1 st2 evs2 →
  kept_or_torn_down st st2 (evs2 ++ evs1).
Proof.
  intros H1 H2 k tunnel Hget.
  destruct (H1 k tunnel Hget) as [Hkept|[Hsrv Hssh]].
  - destruct (H2 k tunnel Hkept) as [Hkept2|[Hsrv Hssh]]; [by left|].
    right. split; apply elem_of_app; by left.
  - right. split; apply elem_of_app; by right.
Qed.

Lemma closeConnection_tunnels w connectionId st :
  ∃ evs,
    trace (closeConnection w connectionId st).2 = evs ++ trace st
    ∧ kept_or_torn_down st (closeConnection w connectionId st).2 evs.
Proof.
  destruct (JsObject.get connectionId (connections st)) as [connInfo|] eqn:Hget.
  - destruct (conn_end w (trace st) (ConnectionInfo.connection connInfo)) as [err|] eqn:Hend.
    + rewrite (closeConnection_fails _ _ _ _ _ Hget Hend).
      eexists [_; _]. split; [done|]. by apply kept_or_torn_down_refl.
    + rewrite (closeConnection_done _ _ _ _ Hget Hend). cbn [snd trace tunnels].
      eexists (_ ++ [_]). split; [by rewrite <-app_assoc|].
      intros k tunnel Hk. cbn [tunnels].
      unfold tunnels_after_close, owned_tunnel.
      destruct (ConnectionInfo.tunnelId connInfo) as [tid|]; [|by left].
      destruct (decide (tid = "")); [by left|].
      destruct (decide (k = tid)) as [->|Hne].
      * rewrite Hk. right. unfold teardown_events.
        split; apply elem_of_app; left.
        -- do 3 apply list_elem_of_further. apply list_elem_of_here.
        -- do 2 apply list_elem_of_further. apply list_elem_of_here.
      * left. rewrite JsObjectFacts.get_delete_ne by done. exact Hk.
  - rewrite (closeConnection_absent _ _ _ Hget).
    eexists [_]. split; [done|]. by apply kept_or_torn_down_refl.
Qed.

Lemma close_one_tunnels w connectionId st :
  ∃ evs,
    trace (close_one w connectionId st).2 = evs ++ trace st
    ∧ kept_or_torn_down st (close_one w connectionId st).2 evs.
Proof.
  destruct (closeConnection_tunnels w connectionId st) as (evs & Htr & Hkept).
  unfold close_one, try_catch, bind.
  destruct (closeConnection w connectionId st) as [[e|r] s1]; simpl in *.
  - exists (sweep_log connectionId e :: evs). split; [by rewrite Htr|].
    intros k tunnel Hk. destruct (Hkept k tunnel Hk) as [?|[? ?]]; [by left|].
    right. split; by apply list_elem_of_further.
  - by exists evs.
Qed.

Lemma close_connections_tunnels w ids : ∀ st,
  ∃ evs,
    trace (close_connections w ids st).2 = evs ++ trace st
    ∧ kept_or_torn_down st (close_connections w ids st).2 evs.
Proof.
  induction ids as [|id rest IH]; intros st.
  - exists []. split; [done|]. by apply kept_or_torn_down_refl.
  - rewrite close_connections_cons.
    destruct (close_one_spec w id st) as (st1 & evs0 & Heq1 & _).
    destruct (close_one_tunnels w id st) as (evs1 & Htr1 & Hk1).
    rewrite Heq1 in *. cbn [snd] in *.
    destruct (IH st1) as (evs & Htr & Hk).
    exists (evs ++ evs1). split; [by rewrite Htr, Htr1, app_assoc|].
    by eapply kept_or_torn_down_trans.
Qed.

Lemma close_tunnels_teardown ids : ∀ st,
  ∃ evs,
    trace (close_tunnels ids st).2 = evs ++ trace st
    ∧ ∀ k tunnel, k ∈ ids → JsObject.get k (tunnels st) = Some tunnel →
        EvServerClose (TunnelInfo.server tunnel) ∈ evs
        ∧ EvSshEnd (TunnelInfo.sshClient tunnel) ∈ evs.
Proof.
  induction ids as [|id rest IH]; intros st.
  - exists []. split; [done|]. intros k tunnel Hin. by apply elem_of_nil in Hin.
  - simpl. unfold bind, try_catch.
    destruct (JsObject.get id (tunnels st)) as [t0|] eqn:Hget.
    + rewrite (closeTunnel_present _ _ _ Hget).
      match goal with |- context [close_tunnels rest ?s] =>
        destruct (IH s) as (evs & Htr & Hall) end.
      cbn [trace tunnels] in *.
      exists (evs ++ teardown_events id t0). split; [by rewrite Htr, <-app_assoc|].
      intros k tunnel Hin Hk.
      destruct (decide (k = id)) as [->|Hne].
      * rewrite Hget in Hk. injection Hk as <-. unfold teardown_events.
        split; apply elem_of_app; right.
        -- do 3 apply list_elem_of_further. apply list_elem_of_here.
        -- do 2 apply list_elem_of_further. apply list_elem_of_here.
      * apply elem_of_cons in Hin as [?|Hin]; [done|].
        destruct (Hall k tunnel Hin) as [? ?].
        { rewrite JsObjectFacts.get_delete_ne by done. exact Hk. }
        split; apply elem_of_app; by left.
    + rewrite (closeTunnel_absent _ _ Hget).
      match goal with |- context [close_tunnels rest ?s] =>
        destruct (IH s) as (evs & Htr & Hall) end.
      cbn [trace tunnels record] in *.
      eexists (evs ++ [_]). split; [by rewrite Htr, <-app_assoc|].
      intros k tunnel Hin Hk.
      apply elem_of_cons in Hin as [->|Hin]; [congruence|].
      destruct (Hall k tunnel Hin Hk) as [? ?].
      split; apply elem_of_app; by left.
Qed.

(** X17.  [close()] tears down every tunnel that is registered when it is
    called, whether a connection uses it or not: among its outside calls
    are the close of the tunnel's local server and the end of its SSH
    client. *)
Theorem close_tears_down_every_tunnel (w : World) (st : State) :
  ∃ evs,
    trace (close w st).2 = evs ++ trace st
    ∧ ∀ tunnelId tunnel,
        JsObject.get tunnelId (tunnels st) = Some tunnel →
        EvServerClose (TunnelInfo.server tunnel) ∈ evs
        ∧ EvSshEnd (TunnelInfo.sshClient tunnel) ∈ evs.
Proof.
  rewrite close_unfold. cbn [snd].
  destruct (close_connections_tunnels w (JsObject.keys (connections st)) st)
    as (evs1 & Htr1 & Hkept).
  set (st1 := (close_connections w (JsObject.keys (connections st)) st).2) in *.
  destruct (close_tunnels_teardown (JsObject.keys (tunnels st1)) st1) as (evs2 & Htr2 & Hall).
  exists (evs2 ++ evs1). split; [by rewrite Htr2, Htr1, app_assoc|].
  intros k tunnel Hk.
  destruct (Hkept k tunnel Hk) as [Hstill|[? ?]].
  - destruct (Hall k tunnel) as [? ?]; [by eapply JsObjectFacts.get_Some_key|done|].
    split; apply elem_of_app; by left.
  - split; apply elem_of_app; by right.
Qed.

(** ** The shutdown handler *)

(** X18.  [shutdown] always reaches [process.exit]; the exit code is 1 when
    [mcpServer.stop()] throws and 0 otherwise, whatever happened to the
    database connections: a connection whose close failed is logged by
    [close()] and does not reach the handler's [catch].  The server is
    stopped only after [close()] has returned, and by then no tunnel is
    registered. *)
Theorem shutdown_exit_code (w : World) (stop : Trace → option Error) (signal : string)
    (st : State) :
  let received :=
    record [EvLog LogInfo (newline +:+ signal +:+ " received. Shutting down gracefully...")
              None] st in
  let closed :=
    record [EvLog LogInfo "Database connections closed" None] (close w received).2 in
  shutdown w stop signal st
  = match stop (trace closed) with
    | None => (inr 0, record [EvLog LogInfo "Shutdown completed" None] closed)
    | Some e => (inr 1, record [EvLog LogError "Error during shutdown:" (Some e)] closed)
    end
  ∧ tunnels closed = JsObject.empty.
Proof.
  intros received closed.
  destruct (close_spec w received) as (st1 & evs & Heq & _ & Hempty & _).
  split.
  - unfold shutdown, try_catch, bind, console, emit, mcpServer_stop, bind, get_state.
    change {| region := region st; connections := connections st; tunnels := tunnels st;
              trace := EvLog LogInfo
                         (newline +:+ signal +:+ " received. Shutting down gracefully...")
                         None :: trace st |} with received.
    subst closed. rewrite Heq. cbn [snd fst trace record app].
    destruct (stop _); reflexivity.
  - subst closed. rewrite Heq. exact Hempty.
Qed.

(** ** The handler over its lifetime *)

Lemma get_set_Some {V} (o : JsObject.t V) k k' v x :
  JsObject.get k (JsObject.set k' v o) = Some x →
  (k = k' ∧ x = v) ∨ JsObject.get k o = Some x.
Proof.
  destruct (decide (k' = k)) as [->|Hne].
  - rewrite JsObjectFacts.get_set_eq. intros [= <-]. by left.
  - rewrite JsObjectFacts.get_set_ne by done. by right.
Qed.

Lemma get_delete_Some {V} (o : JsObject.t V) k k' x :
  JsObject.get k (JsObject.delete k' o) = Some x → JsObject.get k o = Some x.
Proof.
  destruct (decide (k' = k)) as [->|Hne].
  - by rewrite JsObjectFacts.get_delete_eq.
  - by rewrite JsObjectFacts.get_delete_ne.
Qed.

Lemma opened_in_app evs1 evs2 k connInfo :
  opened_in evs1 k connInfo ∨ opened_in evs2 k connInfo →
  opened_in (evs2 ++ evs1) k connInfo.
Proof.
  intros [[[cfg Hin] Hname]|[[cfg Hin] Hname]]; (split; [|done]); exists cfg;
    apply elem_of_app; auto.
Qed.

Lemma grows_same st st' evs :
  region st' = region st →
  trace st' = evs ++ trace st →
  (∀ k x, JsObject.get k (connections st') = Some x →
          JsObject.get k (connections st) = Some x) →
  (∀ k x, JsObject.get k (tunnels st') = Some x → JsObject.get k (tunnels st) = Some x) →
  grows st st'.
Proof.
  intros Hr Htr Hc Ht. split; [done|]. exists evs. split; [done|].
  split; intros k x Hget; left; auto.
Qed.

Lemma grows_record st evs : grows st (record evs st).
Proof. by apply (grows_same _ _ evs). Qed.

Lemma grows_refl st : grows st st.
Proof. by apply (grows_same _ _ []). Qed.

Lemma grows_trans st st1 st2 : grows st st1 → grows st1 st2 → grows st st2.
Proof.
  intros (Hr1 & evs1 & Htr1 & Hc1 & Ht1) (Hr2 & evs2 & Htr2 & Hc2 & Ht2).
  split; [congruence|]. exists (evs2 ++ evs1).
  split; [by rewrite Htr2, Htr1, app_assoc|]. split.
  - intros k ci Hget. destruct (Hc2 k ci Hget) as [Hold|Hnew].
    + destruct (Hc1 k ci Hold) as [?|Hnew]; [by left|].
      right. apply opened_in_app. by left.
    + right. apply opened_in_app. by right.
  - intros k t Hget. destruct (Ht2 k t Hget) as [Hold|?]; [|by right].
    by apply Ht1.
Qed.

Lemma consistent_grows w st st' : consistent w st → grows st st' → consistent w st'.
Proof.
  intros (Hreg & Hconns & Htuns) (Hr & evs & Htr & Hc & Ht).
  split; [congruence|]. split.
  - intros k ci Hget. rewrite Htr. apply opened_in_app.
    destruct (Hc k ci Hget) as [Hold|?]; [left; by apply Hconns|by right].
  - intros k t Hget. destruct (Ht k t Hget) as [Hold|?]; [by apply Htuns|done].
Qed.

Lemma getAuthToken_grows w params st : grows st (getAuthToken w params st).2.
Proof.
  unfold getAuthToken, await_val, call, bind, get_state; simpl.
  destruct (signer_getAuthToken _ _ _ _ _ _); apply (grows_record st [_]).
Qed.

Lemma createTunnel_grows w p st : grows st (createTunnel w p st).2.
Proof.
  destruct (createTunnel w p st) as [[e|tunnel] st1] eqn:Hrun; cbn [snd].
  - destruct (createTunnel_failed _ _ _ _ _ Hrun) as (evs & Htr & Hr & Hc & Ht & _).
    apply (grows_same _ _ evs); [done..| |]; intros k x; by rewrite ?Hc, ?Ht.
  - destruct (createTunnel_ok _ _ _ _ _ Hrun) as (evs & Htr & Hr & Hc & Ht & _).
    destruct (createTunnel_up _ _ _ _ _ Hrun)
      as (_ & _ & _ & Hlocal & _ & _ & _ & (now & _ & Hid) & _).
    split; [done|]. exists evs. split; [done|]. split.
    + intros k x. rewrite Hc. by left.
    + intros k x. rewrite Ht. intros [[-> ->]|?]%get_set_Some; [|by left].
      right. split; [done|]. split; [by exists now|done].
Qed.

Lemma closeTunnel_grows tunnelId st : grows st (closeTunnel tunnelId st).2.
Proof.
  destruct (JsObject.get tunnelId (tunnels st)) as [tunnel|] eqn:Hget.
  - rewrite (closeTunnel_present _ _ _ Hget). cbn [snd].
    apply (grows_same _ _ (teardown_events tunnelId tunnel)); [done..|].
    intros k x. cbn [tunnels]. apply get_delete_Some.
  - rewrite (closeTunnel_absent _ _ Hget). apply grows_record.
Qed.

Lemma closeConnection_grows w connectionId st :
  grows st (closeConnection w connectionId st).2.
Proof.
  destruct (JsObject.get connectionId (connections st)) as [connInfo|] eqn:Hget.
  - destruct (conn_end w (trace st) (ConnectionInfo.connection connInfo)) as [err|] eqn:Hend.
    + rewrite (closeConnection_fails _ _ _ _ _ Hget Hend). apply grows_record.
    + rewrite (closeConnection_done _ _ _ _ Hget Hend). cbn [snd].
      eapply (grows_same _ _ (_ ++ [_])); cbn [region trace connections tunnels].
      * done.
      * by rewrite <-app_assoc.
      * intros k x. apply get_delete_Some.
      * intros k x. unfold tunnels_after_close.
        destruct (ConnectionInfo.tunnelId connInfo) as [tid|]; [|done].
        destruct (decide (tid = "")); [done|]. apply get_delete_Some.
  - rewrite (closeConnection_absent _ _ _ Hget). apply grows_record.
Qed.

Lemma close_connections_grows w ids : ∀ st, grows st (close_connections w ids st).2.
Proof.
  induction ids as [|id rest IH]; intros st; [apply grows_refl|].
  rewrite close_connections_cons.
  destruct (close_one_spec w id st) as (st1 & evs0 & Heq1 & _).
  assert (grows st st1) as Hone.
  { replace st1 with (close_one w id st).2 by by rewrite Heq1.
    unfold close_one, try_catch, bind.
    pose proof (closeConnection_grows w id st) as Hg.
    destruct (closeConnection w id st) as [[e|r] s1]; cbn [snd] in *; [|done].
    eapply grows_trans; [exact Hg|]. apply (grows_record s1 [_]). }
  rewrite Heq1. eapply grows_trans; [exact Hone|apply IH].
Qed.

Lemma close_tunnels_grows ids : ∀ st, grows st (close_tunnels ids st).2.
Proof.
  induction ids as [|id rest IH]; intros st; [apply grows_refl|].
  simpl. unfold bind, try_catch.
  pose proof (closeTunnel_grows id st) as Hg.
  destruct (JsObject.get id (tunnels st)) as [tunnel|] eqn:Hget.
  - rewrite (closeTunnel_present _ _ _ Hget) in *. cbn [snd] in Hg.
    eapply grows_trans; [exact Hg|apply IH].
  - rewrite (closeTunnel_absent _ _ Hget) in *. cbn [snd] in Hg.
    eapply grows_trans; [exact Hg|apply IH].
Qed.

Lemma close_grows w st : grows st (close w st).2.
Proof.
  rewrite close_unfold. cbn [snd].
  eapply grows_trans; [apply close_connections_grows|apply close_tunnels_grows].
Qed.

Lemma touches_only_grows connectionId st st' : touches_only connectionId st st' → grows st st'.
Proof.
  intros (Hr & Hc & Ht & evs & Htr & _).
  apply (grows_same _ _ evs); [done..| |]; intros k x; by rewrite ?Hc, ?Ht.
Qed.

Lemma registered_prefix_new engine connection (tunnel : option TunnelInfo.t) :
  registered_prefix {| ConnectionInfo.connection := connection;
                       ConnectionInfo.engine := engine;
                       ConnectionInfo.tunnelId := TunnelInfo.tunnelId <$> tunnel |}
  = id_prefix engine tunnel.
Proof. by destruct engine, tunnel. Qed.

Lemma session_outcome_grows w engine params tunnel st1 out :
  SessionOutcome w engine params tunnel st1 out → grows st1 out.2.
Proof.
  destruct out as [r s]. intros Hout.
  destruct (session_outcome_inv _ _ _ _ _ _ _ Hout)
    as (evs & token & Htr & Hregion & Htuns & _ & _ & _ & Hres).
  cbn [snd]. split; [done|]. exists evs. split; [done|]. split.
  - destruct r as [e|res].
    + destruct Hres as [Hc _]. intros k x. rewrite Hc. by left.
    + destruct Hres as (now & connection & rest & -> & _ & _ & Hc).
      intros k x. rewrite Hc. intros [[-> ->]|?]%get_set_Some; [|by left].
      right. split.
      * eexists. apply list_elem_of_further, list_elem_of_here.
      * rewrite registered_prefix_new. unfold new_connection_id.
        by eexists.
  - intros k x. rewrite Htuns. by left.
Qed.

Lemma logged_grows {A} text (out : Result A * State) : grows out.2 (logged text out).2.
Proof. destruct out as [[e|a] st]; [apply (grows_record st [_])|apply grows_refl]. Qed.

Lemma connect_grows w engine params st : grows st (connect w engine params st).2.
Proof.
  pose proof (connect_outcome w engine params st) as Hcases.
  inversion Hcases
    as [out Hhost Hout Heq|Hhost Huser|e' s1 Hhost Huser Htun Heq
       |tunnel s1 out Hhost Huser Htun Hout Heq].
  - eapply grows_trans; [by eapply session_outcome_grows|apply logged_grows].
  - apply (logged_grows _ (inl _, st)).
  - eapply grows_trans; [|apply (logged_grows _ (inl _, s1))].
    replace s1 with (createTunnel w (tunnel_request params (default_port engine)) st).2
      by by rewrite Htun.
    apply createTunnel_grows.
  - eapply grows_trans; [|apply logged_grows].
    eapply grows_trans; [|by eapply session_outcome_grows].
    replace s1 with (createTunnel w (tunnel_request params (default_port engine)) st).2
      by by rewrite Htun.
    apply createTunnel_grows.
Qed.

(** The tunnelled methods called directly: with an SSH host they are what
    [connectToMySql] and [connectToPostgres] hand over to, without one they
    throw at once. *)
Lemma connect_with_tunnel_eq w engine params st :
  connect_with_tunnel w engine params st
  = if truthy_str (ConnectParams.sshHost params) then connect w engine params st
    else (inl (JsError "Missing SSH connection parameters"),
          record [EvLog LogError (connect_error_text engine true)
                    (Some (JsError "Missing SSH connection parameters"))] st).
Proof.
  destruct engine; unfold connect, connect_with_tunnel, connectToMySql, connectToPostgres;
    destruct (truthy_str (ConnectParams.sshHost params)) eqn:Hhost; try reflexivity.
  - unfold connectToMySqlWithTunnel, try_catch. by rewrite Hhost.
  - unfold connectToPostgresWithTunnel, try_catch. by rewrite Hhost.
Qed.

Lemma after_grows w c st : grows st (after w c st).
Proof.
  destruct c; cbn [after].
  - apply getAuthToken_grows.
  - apply createTunnel_grows.
  - apply closeTunnel_grows.
  - rewrite connect_with_tunnel_eq.
    destruct (truthy_str (ConnectParams.sshHost params));
      [apply connect_grows|apply grows_record].
  - apply connect_grows.
  - eapply touches_only_grows, executeQuery_touches_only.
  - eapply touches_only_grows, executeTransaction_touches_only.
  - apply closeConnection_grows.
  - apply close_grows.
Qed.

Lemma run_snoc w calls c : run w (calls ++ [c]) = after w c (run w calls).
Proof. unfold run. by rewrite foldl_app. Qed.

(** X19.  However the methods of a handler are called after its
    construction: the region is the one the constructor chose; every
    registered tunnel is stored under its own [tunnelId], which is
    [tunnel_] followed by a number, and listens on 127.0.0.1; every
    registered connection holds a session that the driver of its recorded
    engine was asked to open, and its id starts with [mysql_] or
    [postgres_] according to that engine, and with [mysql_ssh_] or
    [postgres_ssh_] when the record names a tunnel.  (The converse fails:
    the host of a direct connection may itself start with [ssh_].) *)
Theorem handler_stays_consistent (w : World) (calls : list Call) :
  consistent w (run w calls).
Proof.
  induction calls as [|c calls IH] using rev_ind.
  - split; [done|]. split; intros k x Hget; discriminate.
  - rewrite run_snoc. eapply consistent_grows; [exact IH|apply after_grows].
Qed.

(** X20.  [connectToMySqlWithTunnel] and [connectToPostgresWithTunnel]
    called directly: with an [sshHost] they do what [connectToMySql] and
    [connectToPostgres] do with the same params; without one they make no
    outside call, log and throw [Missing SSH connection parameters], and
    leave the handler as it is. *)
Theorem tunnelled_methods_called_directly (w : World) (engine : Engine)
    (params : ConnectParams.t) (st : State) :
  connect_with_tunnel w engine params st
  = if truthy_str (ConnectParams.sshHost params) then connect w engine params st
    else (inl (JsError "Missing SSH connection parameters"),
          record [EvLog LogError (connect_error_text engine true)
                    (Some (JsError "Missing SSH connection parameters"))] st).
Proof. apply connect_with_tunnel_eq. Qed.
